(** * maplibre4UAV tile server: a shallow embedding of [titiler/main.py]

    The program is a thin FastAPI layer over the file system (through
    [pathlib]) and over the raster library [rio_tiler].  The embedding keeps
    the three parts apart:

    - [Str], [Pathlib], [OS], [Fnmatch], [Glob]: the string operations, the
      path arithmetic and the directory walk the handlers rely on, after
      CPython 3.11's [pathlib] and [fnmatch] on a POSIX system.  A string
      is a Python [str] whose characters are the code points below 256,
      one [ascii] per code point; its bytes are those of UTF-8.  The file
      system is a finite tree without symbolic links that does not change
      during a request; the order of a directory's entries is the order
      [os.scandir] yields them in.  The calls of the system may fail: the
      file system says for which paths [stat] and [scandir] fail and with
      which exception, and [pathlib] hides or raises it as CPython does.
      A generator is the sequence of paths it yields together with the
      exception that ends it, so that [next] and [list] see what they see
      in Python.
    - [RioTiler]: the raster library, an interface of functions of their
      arguments that may raise.  Nothing is assumed about what they
      compute; closing a reader does not raise.
    - [Main]: the handlers of [main.py], one definition per route, written
      in a small monad that records the library calls and carries Python's
      exceptions.  A handler receives its parameters as FastAPI passes
      them: [str] as [string], [int] as [Z].
    - [Spec]: the words of the specification the handlers are compared
      with, and [Fixtures]: a small installation to run them on. *)

From Stdlib Require Import List String Ascii Bool ZArith Lia Arith.
From Stdlib Require Import Permutation Sorted PrimFloat.
Import ListNotations.
Local Open Scope string_scope.
Local Open Scope list_scope.

(** ** Python's [str] operations used by the program *)

Module Str.

(** [s.startswith(p)] *)
Definition startswith (s p : string) : bool := String.prefix p s.

(** [c in s] for a one-character [c] *)
Fixpoint contains (c : ascii) (s : string) : bool :=
  match s with
  | EmptyString => false
  | String d s' => Ascii.eqb c d || contains c s'
  end.

(** [sub in s]: does [sub] occur in [s] *)
Fixpoint has_substring (sub s : string) : bool :=
  String.prefix sub s ||
  match s with
  | EmptyString => false
  | String _ s' => has_substring sub s'
  end.

(** [s.lstrip(c)] *)
Fixpoint lstrip (c : ascii) (s : string) : string :=
  match s with
  | String d s' => if Ascii.eqb c d then lstrip c s' else s
  | EmptyString => EmptyString
  end.

(** [s.split(sep)] for a one-character separator: never empty. *)
Fixpoint split (sep : ascii) (s : string) : list string :=
  match s with
  | EmptyString => [EmptyString]
  | String d s' =>
      if Ascii.eqb d sep then EmptyString :: split sep s'
      else match split sep s' with
           | w :: ws => String d w :: ws
           | [] => [String d EmptyString]
           end
  end.

(** [sep.join(parts)] *)
Fixpoint join (sep : string) (parts : list string) : string :=
  match parts with
  | [] => EmptyString
  | [p] => p
  | p :: ps => (p ++ sep ++ join sep ps)%string
  end.

(** [s.rfind(c)]: index of the last occurrence, [None] for Python's -1. *)
Fixpoint rfind (c : ascii) (s : string) : option nat :=
  match s with
  | EmptyString => None
  | String d s' =>
      match rfind c s' with
      | Some i => Some (S i)
      | None => if Ascii.eqb c d then Some 0 else None
      end
  end.

(** [s[-1]], when [s] is not empty *)
Fixpoint last_char (s : string) : option ascii :=
  match s with
  | EmptyString => None
  | String c EmptyString => Some c
  | String _ s' => last_char s'
  end.

(** [s[:i]] *)
Definition take (i : nat) (s : string) : string := String.substring 0 i s.

(** Python compares strings lexicographically, character by character. *)
Definition leb (a b : string) : bool := String.leb a b.

(** [s.encode()]: the bytes of UTF-8.  A code point below 128 is one
    byte, one from 128 to 255 is two. *)
Definition encode_char (c : ascii) : list Init.Byte.byte :=
  let n := N_of_ascii c in
  if N.ltb n 128 then [byte_of_ascii c]
  else [byte_of_ascii (ascii_of_N (192 + N.div n 64));
        byte_of_ascii (ascii_of_N (128 + N.modulo n 64))].

Fixpoint encode (s : string) : list Init.Byte.byte :=
  match s with
  | EmptyString => []
  | String c s' => encode_char c ++ encode s'
  end.

End Str.

(** ** [pathlib]: pure paths of the POSIX flavour *)

Module Pathlib.

(** A path is its root (the empty string, one slash or two slashes) and
    its components; [pathlib] keeps [..] components and drops empty ones
    and single dots when it parses a string. *)
Record Path : Type := mkPath { root : string; parts : list string }.

Definition Path_eqb (p q : Path) : bool :=
  String.eqb (root p) (root q) &&
  (if list_eq_dec string_dec (parts p) (parts q) then true else false).

(** [_PosixFlavour.splitroot] *)
Definition splitroot (part : string) : string * string :=
  if Str.startswith part "/" then
    let stripped := Str.lstrip "/"%char part in
    if Nat.eqb (String.length part - String.length stripped) 2
    then ("//", stripped) else ("/", stripped)
  else ("", part).

Definition keep_component (x : string) : bool :=
  negb (String.eqb x "") && negb (String.eqb x ".").

(** [Path(s)], that is [parse_parts((s,))] *)
Definition Path_of (s : string) : Path :=
  if String.eqb s "" then mkPath "" []
  else let '(r, rel) := splitroot s in
       mkPath r (filter keep_component (Str.split "/"%char rel)).

(** [p / s] for a string [s] *)
Definition joinpath (p : Path) (s : string) : Path :=
  let q := Path_of s in
  if String.eqb (root q) "" then mkPath (root p) (parts p ++ parts q)
  else q.

(** [p._make_child_relpath(name)]: no parsing of [name]. *)
Definition make_child_relpath (p : Path) (name : string) : Path :=
  mkPath (root p) (parts p ++ [name]).

(** [str(p)] *)
Definition Path_str (p : Path) : string :=
  let s := (root p ++ Str.join "/" (parts p))%string in
  if String.eqb s "" then "." else s.

(** [p.name] *)
Definition name (p : Path) : string := last (parts p) "".

(** [p.stem]: the name without its last suffix. *)
Definition stem (p : Path) : string :=
  let n := name p in
  match Str.rfind "."%char n with
  | Some i =>
      if Nat.ltb 0 i && Nat.ltb i (String.length n - 1) then Str.take i n else n
  | None => n
  end.

(** [drop_prefix pre l] is the rest of [l] after [pre], when [pre] is a
    prefix of [l]. *)
Fixpoint drop_prefix (pre l : list string) : option (list string) :=
  match pre, l with
  | [], _ => Some l
  | a :: pre', b :: l' => if String.eqb a b then drop_prefix pre' l' else None
  | _ :: _, [] => None
  end.

(** [p.relative_to(base)]; [None] stands for the [ValueError]. *)
Definition relative_to (p base : Path) : option Path :=
  let abs_parts q :=
    if String.eqb (root q) "" then parts q else root q :: parts q in
  match abs_parts base with
  | [] => if String.eqb (root p) "" then Some p else None
  | _ :: _ =>
      match drop_prefix (abs_parts base) (abs_parts p) with
      | Some rest => Some (mkPath "" rest)
      | None => None
      end
  end.

End Pathlib.

(** ** Python exceptions *)

Module Py.

(** The classes the program tells apart or meets; every one of them is a
    subclass of [Exception].  [OtherError] stands for any class not
    named here, by its name (an [OSError], a [PermissionError], an error
    of the raster library). *)
Inductive exc_class : Type :=
  | TileOutsideBounds
  | ValueError
  | NotImplementedError
  | IndexError
  | OtherError (name : string).

(** An exception: its class and [str(e)]. *)
Record exn : Type := mkExn { cls : exc_class; msg : string }.

Inductive result (A : Type) : Type :=
  | Ok (a : A)
  | Raise (e : exn).
Arguments Ok {A} a.
Arguments Raise {A} e.

(** The two [except] clauses of the program. *)
Inductive except_clause : Type :=
  | ExceptTileOutsideBounds
  | ExceptException.

Definition isinstance (e : exn) (c : except_clause) : bool :=
  match c with
  | ExceptTileOutsideBounds =>
      match cls e with TileOutsideBounds => true | _ => false end
  | ExceptException => true
  end.

(** [isinstance(e, PermissionError)], the clause of [pathlib]'s
    selectors. *)
Definition is_PermissionError (e : exn) : bool :=
  match cls e with
  | OtherError name => String.eqb name "PermissionError"
  | _ => false
  end.

End Py.

(** ** The file system the process sees *)

Module OS.
Import Py.

(** A directory lists its entries in the order [os.scandir] yields them. *)
#[warnings="-register-all"] Inductive node : Type :=
  | File
  | Dir (entries : list (string * node)).

(** The calls of the system the program makes, through [pathlib]. *)
Inductive syscall : Type :=
  | Stat
  | Scandir.

(** The tree below [/], the working directory of the process (the names
    from [/] down to it), and the failures of the system: [fault call s]
    is the exception of [call] on the path string [s] when the system
    refuses the call for another reason than the absence of the file (a
    name or a path that is too long, a directory that may not be searched
    or read, a device that fails), and [None] when the call is answered
    from the tree. *)
Record filesystem : Type := mkFS {
  tree : node;
  cwd : list string;
  fault : syscall -> string -> option exn
  }.

Definition is_dir_node (n : node) : bool :=
  match n with Dir _ => true | File => false end.

Fixpoint lookup_entry (name : string) (es : list (string * node)) : option node :=
  match es with
  | [] => None
  | (k, n) :: es' => if String.eqb k name then Some n else lookup_entry name es'
  end.

(** The node at a location, a list of names from the top of the tree. *)
Fixpoint node_at (n : node) (loc : list string) : option node :=
  match loc with
  | [] => Some n
  | x :: loc' =>
      match n with
      | Dir es =>
          match lookup_entry x es with
          | Some c => node_at c loc'
          | None => None
          end
      | File => None
      end
  end.

(** Path resolution as the kernel does it, one component at a time from
    the location [loc]: every component is looked up in a directory
    ([ENOTDIR] otherwise), [..] goes to the parent (and stays at [/]),
    a missing name is [ENOENT].  [None] stands for either error. *)
Fixpoint walk (t : node) (loc : list string) (ps : list string)
  : option (list string) :=
  match ps with
  | [] => match node_at t loc with Some _ => Some loc | None => None end
  | p :: ps' =>
      match node_at t loc with
      | Some (Dir es) =>
          if String.eqb p ".." then walk t (removelast loc) ps'
          else if String.eqb p "." || String.eqb p "" then walk t loc ps'
          else match lookup_entry p es with
               | Some _ => walk t (loc ++ [p]) ps'
               | None => None
               end
      | _ => None
      end
  end.

(** Where the path [p] leads: its canonical location. *)
Definition locate (fs : filesystem) (p : Pathlib.Path) : option (list string) :=
  walk (tree fs)
       (if String.eqb (Pathlib.root p) "" then cwd fs else [])
       (Pathlib.parts p).

(** What the tree holds at [p]. *)
Definition lookup (fs : filesystem) (p : Pathlib.Path) : option node :=
  match locate fs p with
  | Some loc => node_at (tree fs) loc
  | None => None
  end.

(** [os.stat(p)] as [pathlib] reads it: the node; [None] for the errors
    that [_ignore_error] hides ([ENOENT] and [ENOTDIR] here); the
    exception for every other error. *)
Definition stat (fs : filesystem) (p : Pathlib.Path) : result (option node) :=
  match fault fs Stat (Pathlib.Path_str p) with
  | Some e => Raise e
  | None => Ok (lookup fs p)
  end.

(** [p.exists()] *)
Definition Path_exists (fs : filesystem) (p : Pathlib.Path) : result bool :=
  match stat fs p with
  | Ok (Some _) => Ok true
  | Ok None => Ok false
  | Raise e => Raise e
  end.

(** [p.is_dir()] *)
Definition is_dir (fs : filesystem) (p : Pathlib.Path) : result bool :=
  match stat fs p with
  | Ok (Some n) => Ok (is_dir_node n)
  | Ok None => Ok false
  | Raise e => Raise e
  end.

(** [list(os.scandir(p))] *)
Definition scandir (fs : filesystem) (p : Pathlib.Path)
  : result (list (string * node)) :=
  match fault fs Scandir (Pathlib.Path_str p) with
  | Some e => Raise e
  | None =>
      match lookup fs p with
      | Some (Dir es) => Ok es
      | Some File =>
          Raise (mkExn (OtherError "NotADirectoryError")
                   ("[Errno 20] Not a directory: '" ++ Pathlib.Path_str p ++ "'"))
      | None =>
          Raise (mkExn (OtherError "FileNotFoundError")
                   ("[Errno 2] No such file or directory: '"
                    ++ Pathlib.Path_str p ++ "'"))
      end
  end.

(** Is location [loc] inside the directory at location [dir] (or [dir]
    itself)? *)
Fixpoint under (dir loc : list string) : bool :=
  match dir, loc with
  | [], _ => true
  | d :: dir', l :: loc' => String.eqb d l && under dir' loc'
  | _ :: _, [] => false
  end.

(** Linux's limits on names, in bytes. *)
Definition NAME_MAX : nat := 255.
Definition PATH_MAX : nat := 4096.

(** Does the resolution of the components [ps] from [loc] look up a name
    of more than [NAME_MAX] bytes in a directory?  A component that is
    missing, or that is not a directory, ends the resolution before. *)
Fixpoint meets_long_name (t : node) (loc : list string) (ps : list string) : bool :=
  match ps with
  | [] => false
  | p :: ps' =>
      match node_at t loc with
      | Some (Dir es) =>
          if String.eqb p ".." then meets_long_name t (removelast loc) ps'
          else if String.eqb p "." || String.eqb p "" then meets_long_name t loc ps'
          else if Nat.ltb NAME_MAX (List.length (Str.encode p)) then true
          else match lookup_entry p es with
               | Some _ => meets_long_name t (loc ++ [p]) ps'
               | None => false
               end
      | _ => false
      end
  end.

(** The failures of a system that refuses nothing but names beyond its
    limits: [ENAMETOOLONG] for a path string of [PATH_MAX] bytes or more,
    and for one whose resolution meets a name that is too long. *)
Definition name_limits (t : node) (cwd : list string) (call : syscall) (s : string)
  : option exn :=
  if Nat.leb PATH_MAX (List.length (Str.encode s))
     || meets_long_name t (if Str.startswith s "/" then [] else cwd)
                        (Str.split "/" s)
  then Some (mkExn (OtherError "OSError")
               ("[Errno 36] File name too long: '" ++ s ++ "'"))
  else None.

End OS.

(** ** [fnmatch]: shell patterns on one path component *)

Module Fnmatch.

(** What [fnmatch.translate] turns a pattern into, piece by piece: a run
    of any characters, one character of a set, or nothing at all (the
    empty bracket expression).  A set is a list of characters and of
    inclusive ranges, possibly complemented. *)
Inductive item : Type :=
  | Star
  | OneOf (negated : bool) (lits : list ascii) (ranges : list (ascii * ascii))
  | Never.

Definition AnyChar : item := OneOf true [] [].
Definition Lit (c : ascii) : item := OneOf false [c] [].

Definition ascii_leb (a b : ascii) : bool :=
  Nat.leb (nat_of_ascii a) (nat_of_ascii b).

(** [s.find(c, k)] on a list of characters *)
Fixpoint find_from (c : ascii) (k : nat) (s : list ascii) : option nat :=
  match s with
  | [] => None
  | d :: s' =>
      match k with
      | O => if Ascii.eqb c d then Some 0
             else option_map S (find_from c 0 s')
      | S k' => option_map S (find_from c k' s')
      end
  end.

Definition slice (a b : nat) (s : list ascii) : list ascii :=
  firstn (b - a) (skipn a s).

(** The end of a bracket expression: [rest] is the pattern after the
    opening bracket; the result is the index in [rest] of the closing
    bracket, after an optional [!] and an optional first []]. *)
Definition find_close (rest : list ascii) : option nat :=
  let j0 := match rest with
            | c :: _ => if Ascii.eqb c "!" then 1 else 0
            | [] => 0
            end in
  let j1 := match nth_error rest j0 with
            | Some c => if Ascii.eqb c "]" then S j0 else j0
            | None => j0
            end in
  find_from "]" j1 rest.

(** The chunks [translate] cuts the inside of a bracket expression into
    at the hyphens that make ranges.  [prev] is the chunk found last,
    [start] where the next one begins, [k] where the search for the
    next hyphen starts. *)
Fixpoint chunks_from (fuel : nat) (stuff : list ascii)
  (prev : option (list ascii)) (start k : nat) : list (list ascii) :=
  let emit := match prev with Some c => [c] | None => [] end in
  let finish :=
    match skipn start stuff with
    | [] => match prev with
            | Some c => [c ++ ["-"%char]]
            | None => []
            end
    | chunk => emit ++ [chunk]
    end in
  match fuel with
  | O => finish
  | S fuel' =>
      match find_from "-" k stuff with
      | Some k' =>
          emit ++ chunks_from fuel' stuff (Some (slice start k' stuff))
                              (S k') (k' + 3)
      | None => finish
      end
  end.

Definition chunks_of (stuff : list ascii) : list (list ascii) :=
  let k := match stuff with
           | c :: _ => if Ascii.eqb c "!" then 2 else 1
           | [] => 1
           end in
  chunks_from (List.length stuff) stuff None 0 k.

(** "Remove empty ranges": from the right, a chunk whose last character
    is above the first character of the next one is merged with it, both
    characters dropped. *)
Fixpoint drop_empty_ranges (chunks : list (list ascii)) : list (list ascii) :=
  match chunks with
  | [] => []
  | c :: rest =>
      match drop_empty_ranges rest with
      | [] => [c]
      | c' :: rest' =>
          match c', rev c with
          | hi :: tl', lo :: _ =>
              if negb (ascii_leb lo hi)
              then (removelast c ++ tl') :: rest'
              else c :: c' :: rest'
          | _, _ => c :: c' :: rest'
          end
      end
  end.

(** The chunks are joined again with a hyphen between them; the characters
    of the chunks are escaped and stand for themselves.  A token is a
    character of a chunk ([Some c]) or a joining hyphen ([None]). *)
Fixpoint tokens_of (chunks : list (list ascii)) : list (option ascii) :=
  match chunks with
  | [] => []
  | [c] => map Some c
  | c :: rest => map Some c ++ None :: tokens_of rest
  end.

Definition token_char (t : option ascii) : ascii :=
  match t with Some c => c | None => "-"%char end.

(** How [re] reads the inside of a character set: an element followed by
    a joining hyphen and another element is a range; anything else stands
    for itself. *)
Fixpoint set_of (ts : list (option ascii)) : list ascii * list (ascii * ascii) :=
  match ts with
  | [] => ([], [])
  | t1 :: None :: t2 :: rest =>
      let '(lits, ranges) := set_of rest in
      (lits, (token_char t1, token_char t2) :: ranges)
  | t1 :: rest =>
      let '(lits, ranges) := set_of rest in
      (token_char t1 :: lits, ranges)
  end.

(** The item of a bracket expression with inside [stuff]. *)
Definition class_of (stuff : list ascii) : item :=
  match tokens_of (drop_empty_ranges (chunks_of stuff)) with
  | [] => Never
  | [Some "!"%char] => AnyChar
  | Some "!"%char :: ts =>
      let '(lits, ranges) := set_of ts in OneOf true lits ranges
  | ts =>
      let '(lits, ranges) := set_of ts in OneOf false lits ranges
  end.

(** [translate]: [fuel] bounds the number of pieces, the length of the
    pattern is enough. *)
Fixpoint translate_from (fuel : nat) (pat : list ascii) : list item :=
  match fuel with
  | O => []
  | S fuel' =>
      match pat with
      | [] => []
      | c :: rest =>
          if Ascii.eqb c "*" then Star :: translate_from fuel' rest
          else if Ascii.eqb c "?" then AnyChar :: translate_from fuel' rest
          else if Ascii.eqb c "[" then
            match find_close rest with
            | None => Lit "[" :: translate_from fuel' rest
            | Some j =>
                class_of (firstn j rest) :: translate_from fuel' (skipn (S j) rest)
            end
          else Lit c :: translate_from fuel' rest
      end
  end.

Definition translate (pat : string) : list item :=
  translate_from (String.length pat) (list_ascii_of_string pat).

Definition in_set (negated : bool) (lits : list ascii)
  (ranges : list (ascii * ascii)) (c : ascii) : bool :=
  xorb negated
    (existsb (Ascii.eqb c) lits ||
     existsb (fun r => ascii_leb (fst r) c && ascii_leb c (snd r)) ranges).

(** Does the whole of [s] match the pieces? *)
Fixpoint matches (items : list item) (s : list ascii) : bool :=
  match items with
  | [] => match s with [] => true | _ => false end
  | Star :: rest =>
      (fix any_suffix (s : list ascii) : bool :=
         matches rest s ||
         match s with
         | [] => false
         | _ :: s' => any_suffix s'
         end) s
  | OneOf neg lits ranges :: rest =>
      match s with
      | c :: s' => in_set neg lits ranges c && matches rest s'
      | [] => false
      end
  | Never :: _ => false
  end.

(** [re.compile(fnmatch.translate(pat)).fullmatch(name) is not None] *)
Definition fnmatch (name pat : string) : bool :=
  matches (translate pat) (list_ascii_of_string name).

End Fnmatch.

(** ** [Path.glob] *)

Module Glob.
Import Pathlib OS Py.

Inductive selector : Type :=
  | Terminating
  | Precise (name : string)
  | Wildcard (pat : string)
  | Recursive.

Definition is_wildcard_pattern (pat : string) : bool :=
  Str.contains "*" pat || Str.contains "?" pat || Str.contains "[" pat.

(** [_make_selector], for the whole tuple of pattern parts at once: the
    selectors are built eagerly, so a bad part raises before the file
    system is touched. *)
Fixpoint make_selector (pattern_parts : list string) : result (list selector) :=
  match pattern_parts with
  | [] => Raise (mkExn IndexError "tuple index out of range")
  | pat :: child_parts =>
      if String.eqb pat "" then Ok [Terminating]
      else
        let chain (s : selector) :=
          match child_parts with
          | [] => Ok [s]
          | _ :: _ =>
              match make_selector child_parts with
              | Ok rest => Ok (s :: rest)
              | Raise e => Raise e
              end
          end in
        if String.eqb pat "**" then chain Recursive
        else if Str.has_substring "**" pat then
          Raise (mkExn ValueError
            "Invalid pattern: '**' can only be an entire path component")
        else if is_wildcard_pattern pat then chain (Wildcard pat)
        else chain (Precise pat)
  end.

(** A generator run to its end: the paths it yields, in order, and the
    exception that ends it when one does. *)
Definition stream : Type := (list Path * option exn)%type.

Definition finished : stream := ([], None).

Definition raising (e : exn) : stream := ([], Some e).

(** One piece of a generator's body after another: the second runs when
    the first has ended without an exception. *)
Definition and_then (a b : stream) : stream :=
  match a with
  | (l, None) => (l ++ fst b, snd b)
  | (l, Some e) => (l, Some e)
  end.

(** [for a in l: yield from f(a)] *)
Definition for_each {A : Type} (f : A -> stream) : list A -> stream :=
  fix go (l : list A) : stream :=
    match l with
    | [] => finished
    | a :: l' => and_then (f a) (go l')
    end.

(** [try: body / except PermissionError: return] around the body of a
    generator: what was yielded before the exception stays yielded. *)
Definition except_PermissionError (body : stream) : stream :=
  match body with
  | (l, Some e) => if is_PermissionError e then (l, None) else (l, Some e)
  | (l, None) => (l, None)
  end.

(** The loop of [_RecursiveWildcardSelector._select_from] over
    [_iterate_directories], the two generators running in step: the
    directory is yielded and the successor selects from it; then the
    directory is listed, and every subdirectory is treated likewise, in
    the order of [scandir], depth first.  [_iterate_directories] gives up
    on a directory whose listing raises [PermissionError]; every other
    exception, and every exception of the successor, goes on to
    [_select_from].  The walk follows the entries of the directory [n]
    found at [parent_path]. *)
Fixpoint select_recursively (fs : filesystem) (successor : Path -> stream)
  (parent_path : Path) (n : node) : stream :=
  and_then (successor parent_path)
    (match fault fs Scandir (Path_str parent_path) with
     | Some e => if is_PermissionError e then finished else raising e
     | None =>
         match n with
         | Dir es =>
             for_each (fun e =>
                         if is_dir_node (snd e)
                         then select_recursively fs successor
                                (make_child_relpath parent_path (fst e)) (snd e)
                         else finished) es
         | File =>
             raising (mkExn (OtherError "NotADirectoryError")
                        ("[Errno 20] Not a directory: '"
                         ++ Path_str parent_path ++ "'"))
         end
     end).

Definition iterate_directories (fs : filesystem) (successor : Path -> stream)
  (parent_path : Path) : stream :=
  match lookup fs parent_path with
  | Some n => select_recursively fs successor parent_path n
  | None =>
      and_then (successor parent_path)
        (match scandir fs parent_path with
         | Raise e => if is_PermissionError e then finished else raising e
         | Ok _ => finished
         end)
  end.

(** The [yielded] set of the recursive selector: a path is yielded once,
    at its first occurrence. *)
Fixpoint dedup (yielded : list Path) (l : list Path) : list Path :=
  match l with
  | [] => []
  | p :: l' =>
      if existsb (Path_eqb p) yielded then dedup yielded l'
      else p :: dedup (p :: yielded) l'
  end.

(** [_select_from] of a chain of selectors; a selector with a successor
    is [dironly]. *)
Fixpoint select_from (fs : filesystem) (sels : list selector)
  (parent_path : Path) {struct sels} : stream :=
  match sels with
  | [] => ([parent_path], None)
  | Terminating :: _ => ([parent_path], None)
  | Precise name :: rest =>
      let dironly := match rest with [] => false | _ => true end in
      let path := make_child_relpath parent_path name in
      except_PermissionError
        (match (if dironly then is_dir fs path else Path_exists fs path) with
         | Raise e => raising e
         | Ok true => select_from fs rest path
         | Ok false => finished
         end)
  | Wildcard pat :: rest =>
      let dironly := match rest with [] => false | _ => true end in
      except_PermissionError
        (match scandir fs parent_path with
         | Raise e => raising e
         | Ok entries =>
             for_each (fun e =>
                         if dironly && negb (is_dir_node (snd e)) then finished
                         else if Fnmatch.fnmatch (fst e) pat
                              then select_from fs rest
                                     (make_child_relpath parent_path (fst e))
                              else finished) entries
         end)
  | Recursive :: rest =>
      except_PermissionError
        (let all := iterate_directories fs (select_from fs rest) parent_path in
         (dedup [] (fst all), snd all))
  end.

(** [self.glob(pattern)], the generator.  The pattern is checked and the
    selectors are made before the file system is touched;
    [_Selector.select_from] then asks whether [self] is a directory,
    outside any [try]. *)
Definition glob (fs : filesystem) (self : Path) (pattern : string) : stream :=
  if String.eqb pattern "" then
    raising (mkExn ValueError "Unacceptable pattern: ''")
  else
    let q := Path_of pattern in
    if negb (String.eqb (root q) "") then
      raising (mkExn NotImplementedError "Non-relative patterns are unsupported")
    else
      let pattern_parts :=
        parts q ++
        (match Str.last_char pattern with
         | Some c => if Ascii.eqb c "/" then [""] else []
         | None => []
         end) in
      match make_selector pattern_parts with
      | Raise e => raising e
      | Ok sels =>
          match is_dir fs self with
          | Raise e => raising e
          | Ok true => select_from fs sels self
          | Ok false => finished
          end
      end.

(** [list(g)]: the generator run to its end. *)
Definition to_list (g : stream) : result (list Path) :=
  match g with
  | (l, None) => Ok l
  | (_, Some e) => Raise e
  end.

(** [next(g, None)]: the generator run to its first [yield]; what would
    come after does not happen. *)
Definition next (g : stream) : result (option Path) :=
  match g with
  | (p :: _, _) => Ok (Some p)
  | ([], None) => Ok None
  | ([], Some e) => Raise e
  end.

End Glob.

(** ** Values a handler returns, and Starlette's [Response] *)

Module Http.

(** Python values that end up in a JSON body.  A [dict] keeps its keys
    in insertion order. *)
#[warnings="-register-all"] Inductive value : Type :=
  | VNone
  | VInt (z : Z)
  | VFloat (f : float)
  | VStr (s : string)
  | VList (l : list value)
  | VTuple (l : list value)
  | VDict (d : list (string * value)).

(** [d[key]] *)
Fixpoint dict_get (key : string) (d : list (string * value)) : option value :=
  match d with
  | [] => None
  | (k, v) :: d' => if String.eqb k key then Some v else dict_get key d'
  end.

Definition field (key : string) (v : value) : option value :=
  match v with VDict d => dict_get key d | _ => None end.

(** The elements of a JSON array: a list and a tuple serialise alike. *)
Definition elements (v : value) : option (list value) :=
  match v with
  | VList l | VTuple l => Some l
  | _ => None
  end.

(** A number JSON can hold: neither an infinity nor a NaN. *)
Definition finite (f : float) : bool :=
  negb (PrimFloat.is_nan f) && negb (PrimFloat.is_infinity f).

(** Does [json.dumps(v, allow_nan=False)], the call of Starlette's
    [JSONResponse], accept the value? *)
Fixpoint jsonable (v : value) : bool :=
  match v with
  | VNone | VInt _ | VStr _ => true
  | VFloat f => finite f
  | VList l | VTuple l => forallb jsonable l
  | VDict d => forallb (fun kv => jsonable (snd kv)) d
  end.

(** The [content] argument of [Response]. *)
Inductive content : Type :=
  | CNone
  | CStr (s : string)
  | CBytes (b : list Init.Byte.byte).

Record Response : Type := mkResponse {
  status_code : Z;
  body_content : content;
  media_type : option string;
  headers : list (string * string)
  }.

(** [Response.render]: the bytes sent; a text is encoded in UTF-8. *)
Definition body (r : Response) : list Init.Byte.byte :=
  match body_content r with
  | CNone => []
  | CStr s => Str.encode s
  | CBytes b => b
  end.

(** What a handler hands back to FastAPI. *)
Inductive returned : Type :=
  | RetResponse (r : Response)
  | RetDict (d : value).

End Http.

(** ** The raster library *)

Module RioTiler.
Import Py Http.

(** [Reader.info()]: the attributes the program reads.  [crs] is the
    text [str(info.crs)]; [minzoom] and [maxzoom] are [None] when the
    object has no such attribute. *)
Record Info : Type := mkInfo {
  bounds : float * float * float * float;
  crs : string;
  width : Z;
  height : Z;
  band_metadata : value;
  band_descriptions : value;
  dtype : string;
  minzoom : option Z;
  maxzoom : option Z
  }.

(** [getattr(info, name, default)] for the two optional attributes *)
Definition getattr (attr : option Z) (default : Z) : Z :=
  match attr with Some v => v | None => default end.

(** The library as the program uses it.  Every call may raise. *)
Record Library : Type := mkLibrary {
  ReaderT : Type;
  ImageData : Type;
(** [Reader(input)] and [__enter__] *)
  Reader_open : string -> result ReaderT;
(** [src.info()] *)
  Reader_info : ReaderT -> result Info;
(** [src.tile(x, y, z, tilesize=...)] *)
  Reader_tile : ReaderT -> Z -> Z -> Z -> Z -> result ImageData;
(** [img.render(img_format=..., quality=...)] *)
  ImageData_render : ImageData -> string -> option Z -> result (list Init.Byte.byte)
  }.

(** The calls into the library, in the order they are made. *)
Inductive event : Type :=
  | EvOpen (input : string)
  | EvInfo
  | EvTile (x y z tilesize : Z)
  | EvRender (img_format : string) (quality : option Z)
  | EvClose.

End RioTiler.

(** ** Running a handler: library calls are recorded, exceptions carried *)

Module Run.
Import Py RioTiler.

Definition M (A : Type) : Type := list event * result A.

Definition ret {A} (a : A) : M A := ([], Ok a).

Definition bind {A B} (m : M A) (k : A -> M B) : M B :=
  match m with
  | (t, Ok a) => let '(t', r) := k a in (t ++ t', r)
  | (t, Raise e) => (t, Raise e)
  end.

(** A pure computation that may raise. *)
Definition lift {A} (r : result A) : M A := ([], r).

(** [try: body / except c1: h1 / except c2: h2 ...]: the first clause
    the exception is an instance of handles it. *)
Definition try_except {A} (body : M A)
  (clauses : list (except_clause * (exn -> M A))) : M A :=
  match body with
  | (t, Ok a) => (t, Ok a)
  | (t, Raise e) =>
      match find (fun c => isinstance e (fst c)) clauses with
      | Some (_, h) => let '(t', r) := h e in (t ++ t', r)
      | None => (t, Raise e)
      end
  end.

Section Calls.
Variable lib : Library.

(** [with Reader(input) as src: body]: the reader is closed when the
    block is left, by [return] or by an exception. *)
Definition with_Reader {A} (input : string) (body : ReaderT lib -> M A) : M A :=
  match Reader_open lib input with
  | Raise e => ([EvOpen input], Raise e)
  | Ok src => let '(t, r) := body src in (EvOpen input :: t ++ [EvClose], r)
  end.

Definition info (src : ReaderT lib) : M Info :=
  ([EvInfo], Reader_info lib src).

Definition tile (src : ReaderT lib) (x y z tilesize : Z) : M (ImageData lib) :=
  ([EvTile x y z tilesize], Reader_tile lib src x y z tilesize).

Definition render (img : ImageData lib) (img_format : string)
  (quality : option Z) : M (list Init.Byte.byte) :=
  ([EvRender img_format quality], ImageData_render lib img img_format quality).
End Calls.

Arguments with_Reader lib {A} input body.

End Run.

Declare Scope run_scope.
Delimit Scope run_scope with run.
Notation "x <- m ;; k" := (Run.bind m (fun x => k))
    (at level 100, m at next level, right associativity) : run_scope.
Notation "' pat <- m ;; k" := (Run.bind m (fun x => match x with pat => k end))
    (at level 100, pat pattern, m at next level, right associativity) : run_scope.

(** ** [titiler/main.py] *)

Module Main.
Import Pathlib OS Py Http RioTiler Run.
Local Open Scope run_scope.

(** What a request sees: the environment variable [DATA_DIR] when it is
    set, the file system, and the raster library. *)
Record world : Type := mkWorld {
  environ_DATA_DIR : option string;
  fs : filesystem;
  rio : Library
  }.

(** [DATA_DIR = Path(os.getenv("DATA_DIR", "/data"))] *)
Definition DATA_DIR (w : world) : Path :=
  Path_of (match environ_DATA_DIR w with Some s => s | None => "/data" end).

(** [Response(status_code=..., content=...)] *)
Definition Response_status (status : Z) (c : content) : Response :=
  mkResponse status c None [].

(** [health] *)
Definition health : M returned :=
  ret (RetDict (VDict [("status", VStr "ok")])).

(** Python's [sorted(l, key=...)] is a stable sort: insertion from the
    right, an element going before the first one whose key is not
    smaller. *)
Fixpoint insert_by {A} (key : A -> string) (x : A) (l : list A) : list A :=
  match l with
  | [] => [x]
  | y :: l' =>
      if Str.leb (key x) (key y) then x :: y :: l'
      else y :: insert_by key x l'
  end.

Fixpoint sorted {A} (l : list A) (key : A -> string) : list A :=
  match l with
  | [] => []
  | x :: l' => insert_by key x (sorted l' key)
  end.

(** The body of [list_datasets] once [vrts] is known.  [relative_to]
    raises [ValueError] for a path outside [DATA_DIR]. *)
Fixpoint dataset_entries (data_dir : Path) (vrts : list Path) : result (list value) :=
  match vrts with
  | [] => Ok []
  | vrt :: rest =>
      match relative_to vrt data_dir with
      | None =>
          Raise (mkExn ValueError
                   ("'" ++ Path_str vrt ++ "' is not in the subpath of '"
                    ++ Path_str data_dir
                    ++ "' OR one path is relative and the other is absolute."))
      | Some rel =>
          match dataset_entries data_dir rest with
          | Raise e => Raise e
          | Ok entries =>
              Ok (VDict [("name", VStr (stem vrt)); ("path", VStr (Path_str rel))]
                    :: entries)
          end
      end
  end.

Definition list_datasets_of (data_dir : Path) (vrts : list Path) : M returned :=
  entries <- lift (dataset_entries data_dir (sorted vrts stem)) ;;
  ret (RetDict (VDict [("datasets", VList entries)])).

(** [list_datasets] *)
Definition list_datasets (w : world) : M returned :=
  vrts <- lift (Glob.to_list (Glob.glob (fs w) (DATA_DIR w) "**/*.vrt")) ;;
  list_datasets_of (DATA_DIR w) vrts.

(** The first lines of the four handlers that take a dataset name:
    [vrt_path = DATA_DIR / f"{dataset}.vrt"], and when that path does not
    exist, [vrt_path = next(DATA_DIR.glob(f"**/{dataset}.vrt"), None)]. *)
Definition find_vrt (w : world) (dataset : string) : M (option Path) :=
  let vrt_path := joinpath (DATA_DIR w) (dataset ++ ".vrt") in
  found <- lift (Path_exists (fs w) vrt_path) ;;
  if negb found
  then lift (Glob.next (Glob.glob (fs w) (DATA_DIR w) ("**/" ++ dataset ++ ".vrt")))
  else ret (Some vrt_path).

(** [not vrt_path or not vrt_path.exists()] *)
Definition missing (w : world) (vrt_path : option Path) : M bool :=
  match vrt_path with
  | None => ret true
  | Some p => found <- lift (Path_exists (fs w) p) ;; ret (negb found)
  end.

Definition not_found (dataset : string) : Response :=
  Response_status 404 (CStr ("Dataset " ++ dataset ++ " not found")).

(** [dataset_info] *)
Definition dataset_info (w : world) (dataset : string) : M returned :=
  vrt_path <- find_vrt w dataset ;;
  gone <- missing w vrt_path ;;
  match vrt_path with
  | Some p =>
      if gone then ret (RetResponse (not_found dataset))
      else
        with_Reader (rio w) (Path_str p) (fun src =>
          info <- Run.info (rio w) src ;;
          let '(b0, b1, b2, b3) := bounds info in
          ret (RetDict (VDict [
            ("name", VStr dataset);
            ("bounds", VTuple [VFloat b0; VFloat b1; VFloat b2; VFloat b3]);
            ("crs", VStr (crs info));
            ("width", VInt (width info));
            ("height", VInt (height info));
            ("band_metadata", band_metadata info);
            ("band_descriptions", band_descriptions info);
            ("dtype", VStr (dtype info));
            ("minzoom", VInt (getattr (minzoom info) 0));
            ("maxzoom", VInt (getattr (maxzoom info) 22))])))
  | None => ret (RetResponse (not_found dataset))
  end.

(** [dataset_bounds] *)
Definition dataset_bounds (w : world) (dataset : string) : M returned :=
  vrt_path <- find_vrt w dataset ;;
  gone <- missing w vrt_path ;;
  match vrt_path with
  | Some p =>
      if gone then ret (RetResponse (not_found dataset))
      else
        with_Reader (rio w) (Path_str p) (fun src =>
          info <- Run.info (rio w) src ;;
          let '(b0, b1, b2, b3) := bounds info in
          ret (RetDict (VDict [
            ("bounds", VList [VFloat b0; VFloat b1; VFloat b2; VFloat b3]);
            ("center", VList [VFloat ((b0 + b2) / 2)%float;
                              VFloat ((b1 + b3) / 2)%float]);
            ("minzoom", VInt (getattr (minzoom info) 0));
            ("maxzoom", VInt (getattr (maxzoom info) 22))])))
  | None => ret (RetResponse (not_found dataset))
  end.

(** [tilejson]; [tile_format] is ["png"] when the query has none. *)
Definition tilejson (w : world) (dataset : string) (tile_format : string)
  : M returned :=
  vrt_path <- find_vrt w dataset ;;
  gone <- missing w vrt_path ;;
  match vrt_path with
  | Some p =>
      if gone then ret (RetResponse (not_found dataset))
      else
        with_Reader (rio w) (Path_str p) (fun src =>
          info <- Run.info (rio w) src ;;
          let '(b0, b1, b2, b3) := bounds info in
          ret (RetDict (VDict [
            ("tilejson", VStr "3.0.0");
            ("name", VStr dataset);
            ("tiles", VList [VStr ("/datasets/" ++ dataset
                                     ++ "/tiles/{z}/{x}/{y}." ++ tile_format)]);
            ("bounds", VList [VFloat b0; VFloat b1; VFloat b2; VFloat b3]);
            ("center", VList [VFloat ((b0 + b2) / 2)%float;
                              VFloat ((b1 + b3) / 2)%float;
                              VInt 15]);
            ("minzoom", VInt (getattr (minzoom info) 0));
            ("maxzoom", VInt (getattr (maxzoom info) 22))])))
  | None => ret (RetResponse (not_found dataset))
  end.

(** [get_tile] *)
Definition get_tile (w : world) (dataset : string) (z x y : Z) (format : string)
  : M returned :=
  vrt_path <- find_vrt w dataset ;;
  gone <- missing w vrt_path ;;
  match vrt_path with
  | Some p =>
      if gone then ret (RetResponse (not_found dataset))
      else
        try_except
          (with_Reader (rio w) (Path_str p) (fun src =>
             img <- tile (rio w) src x y z 256 ;;
             '(content, media_type) <-
               (if String.eqb format "png" then
                  content <- render (rio w) img "PNG" None ;;
                  ret (content, "image/png")
                else if String.eqb format "jpg" || String.eqb format "jpeg" then
                  content <- render (rio w) img "JPEG" (Some 85%Z) ;;
                  ret (content, "image/jpeg")
                else if String.eqb format "webp" then
                  content <- render (rio w) img "WEBP" (Some 85%Z) ;;
                  ret (content, "image/webp")
                else
                  content <- render (rio w) img "PNG" None ;;
                  ret (content, "image/png")) ;;
             ret (RetResponse
                    (mkResponse 200 (CBytes content) (Some media_type)
                                [("Cache-Control", "public, max-age=3600")]))))
          [ (ExceptTileOutsideBounds,
             fun _ => ret (RetResponse (Response_status 204 CNone)));
            (ExceptException,
             fun e => ret (RetResponse (Response_status 500 (CStr (msg e))))) ]
  | None => ret (RetResponse (not_found dataset))
  end.

(** [get_tile_by_url]; [url] is the empty string when the query has
    none. *)
Definition get_tile_by_url (w : world) (z x y : Z) (format : string) (url : string)
  : M returned :=
  if String.eqb url "" then
    ret (RetResponse (Response_status 400 (CStr "url parameter required")))
  else
    let vrt_path :=
      if Str.startswith url "/" then Path_of url
      else joinpath (DATA_DIR w) url in
    found <- lift (Path_exists (fs w) vrt_path) ;;
    if negb found then
      ret (RetResponse (Response_status 404 (CStr ("File not found: " ++ url))))
    else
      try_except
        (with_Reader (rio w) (Path_str vrt_path) (fun src =>
           img <- tile (rio w) src x y z 256 ;;
           '(content, media_type) <-
             (if String.eqb format "png" then
                content <- render (rio w) img "PNG" None ;;
                ret (content, "image/png")
              else if String.eqb format "jpg" || String.eqb format "jpeg" then
                content <- render (rio w) img "JPEG" (Some 85%Z) ;;
                ret (content, "image/jpeg")
              else if String.eqb format "webp" then
                content <- render (rio w) img "WEBP" (Some 85%Z) ;;
                ret (content, "image/webp")
              else
                content <- render (rio w) img "PNG" None ;;
                ret (content, "image/png")) ;;
           ret (RetResponse
                  (mkResponse 200 (CBytes content) (Some media_type)
                              [("Cache-Control", "public, max-age=3600")]))))
        [ (ExceptTileOutsideBounds,
           fun _ => ret (RetResponse (Response_status 204 CNone)));
          (ExceptException,
           fun e => ret (RetResponse (Response_status 500 (CStr (msg e))))) ].

(** What the client gets: the handler's [Response] as it is; a
    dictionary as a JSON body with status 200, when JSON can hold it;
    and FastAPI's own 500 when the dictionary cannot be serialised or an
    exception leaves the handler. *)
Definition http_status (r : M returned) : Z :=
  match snd r with
  | Ok (RetResponse resp) => status_code resp
  | Ok (RetDict d) => if jsonable d then 200 else 500
  | Raise _ => 500
  end.

Definition response_of (r : M returned) : option Response :=
  match snd r with
  | Ok (RetResponse resp) => Some resp
  | _ => None
  end.

Definition dict_of (r : M returned) : option value :=
  match snd r with
  | Ok (RetDict d) => Some d
  | _ => None
  end.

End Main.

(** ** The specification's side of the comparisons *)

Module Spec.
Import Pathlib OS Py Http RioTiler Main.

(** The format table of the specification (section 4.4): encoder name,
    quality parameter and media type per format token. *)
Definition encoding (format : string) : string * option Z * string :=
  if String.eqb format "png" then ("PNG", None, "image/png")
  else if String.eqb format "jpg" then ("JPEG", Some 85%Z, "image/jpeg")
  else if String.eqb format "jpeg" then ("JPEG", Some 85%Z, "image/jpeg")
  else if String.eqb format "webp" then ("WEBP", Some 85%Z, "image/webp")
  else ("PNG", None, "image/png").

(** "Open the reader on the resolved path, request tile (x, y, z) at a
    fixed 256 pixel size, render per requested format": what the library
    answers along that chain. *)
Definition render_attempt (lib : Library) (input : string) (z x y : Z)
  (format : string) : result (list Init.Byte.byte) :=
  match Reader_open lib input with
  | Raise e => Raise e
  | Ok src =>
      match Reader_tile lib src x y z 256 with
      | Raise e => Raise e
      | Ok img =>
          let '(img_format, quality, _) := encoding format in
          ImageData_render lib img img_format quality
      end
  end.

(** "On success: respond with the encoded bytes, the matching media
    type, and a cache-control directive permitting public caching for
    3600 seconds." *)
Definition image_response (c : list Init.Byte.byte) (format : string) : Response :=
  mkResponse 200 (CBytes c) (Some (snd (encoding format)))
             [("Cache-Control", "public, max-age=3600")].

(** The tri-state outcome of section 4.4: the image, an empty 204 when
    the tile is outside the bounds, a 500 with the message of any other
    failure. *)
Definition tile_response (r : result (list Init.Byte.byte)) (format : string)
  : Response :=
  match r with
  | Ok c => image_response c format
  | Raise e =>
      match cls e with
      | TileOutsideBounds => Response_status 204 CNone
      | _ => Response_status 500 (CStr (msg e))
      end
  end.

(** The library calls of that chain. *)
Definition tile_calls (lib : Library) (input : string) (z x y : Z)
  (format : string) : list event :=
  match Reader_open lib input with
  | Raise _ => [EvOpen input]
  | Ok src =>
      EvOpen input :: EvTile x y z 256 ::
      match Reader_tile lib src x y z 256 with
      | Raise _ => [EvClose]
      | Ok _ =>
          [EvRender (fst (fst (encoding format))) (snd (fst (encoding format)));
           EvClose]
      end
  end.

(** The path of the path-based endpoint: "absolute paths are used as-is;
    relative paths are joined under the root directory". *)
Definition url_path (w : world) (url : string) : Path :=
  if Str.startswith url "/" then Path_of url
  else mkPath (root (DATA_DIR w)) (parts (DATA_DIR w) ++ parts (Path_of url)).

(** A dataset name resolves to [p] in the name-based handlers. *)
Definition resolves_to (w : world) (dataset : string) (p : Path) : Prop :=
  snd (find_vrt w dataset) = Ok (Some p) /\ Path_exists (fs w) p = Ok true.

(** A request served by one of the two tile handlers, past the resolution
    of its file: [run] is the handler's run and [q] the path it resolved. *)
Definition tile_request (w : world) (dataset url : string) (z x y : Z)
  (format : string) (q : Path) (run : Run.M returned) : Prop :=
  (run = get_tile w dataset z x y format /\ resolves_to w dataset q) \/
  (run = get_tile_by_url w z x y format url /\ url <> "" /\
   q = url_path w url /\ Path_exists (fs w) q = Ok true).

(** The steps of a run that query or render a tile. *)
Definition is_tile_step (e : event) : bool :=
  match e with
  | EvTile _ _ _ _ | EvRender _ _ => true
  | _ => false
  end.

Definition reaches_tile_step (run : Run.M returned) : bool :=
  existsb is_tile_step (fst run).

(** "A request with any negative z, x, or y never reaches the
    tile-rendering step", for the two tile handlers. *)
Definition negatives_never_rendered : Prop :=
  forall (w : world) (dataset url : string) (z x y : Z) (format : string),
    (z < 0 \/ x < 0 \/ y < 0)%Z ->
    reaches_tile_step (get_tile w dataset z x y format) = false /\
    reaches_tile_step (get_tile_by_url w z x y format url) = false.

(** "Independent of filesystem enumeration order": the listing is the same
    for two enumerations of the same paths. *)
Definition listing_ignores_enumeration : Prop :=
  forall (data_dir : Path) (vrts vrts' : list Path),
    Permutation vrts vrts' ->
    list_datasets_of data_dir vrts = list_datasets_of data_dir vrts'.

(** The order [sorted] sorts by: the keys compared as Python compares
    strings. *)
Definition key_le {A : Type} (key : A -> string) (x y : A) : Prop :=
  Str.leb (key x) (key y) = true.

(** [p] lies (lexically) under [parent]: same root, more components. *)
Definition extends (parent p : Path) : Prop :=
  root p = root parent /\ exists extra, parts p = parts parent ++ extra.

(** Two path strings name the same existing file. *)
Definition same_file (fs : filesystem) (s s' : string) : Prop :=
  locate fs (Path_of s) = locate fs (Path_of s') /\
  locate fs (Path_of s) <> None.

(** "The two tile endpoints produce identical responses when both resolve
    to the same file." *)
Definition same_file_same_response : Prop :=
  forall (w : world) (dataset url : string) (z x y : Z) (format : string)
         (p : Path),
    resolves_to w dataset p ->
    url <> "" ->
    Path_exists (fs w) (url_path w url) = Ok true ->
    same_file (fs w) (Path_str p) (Path_str (url_path w url)) ->
    snd (get_tile w dataset z x y format)
    = snd (get_tile_by_url w z x y format url).

(** Is there a file or a directory at [p]? *)
Definition on_disk (fs : filesystem) (p : Path) : bool :=
  match lookup fs p with Some _ => true | None => false end.

(** "If the resolved path does not exist on disk, respond with 404", for
    the path-based tile endpoint. *)
Definition absent_path_is_404 : Prop :=
  forall (w : world) (z x y : Z) (format url : string),
    url <> "" ->
    on_disk (fs w) (url_path w url) = false ->
    http_status (get_tile_by_url w z x y format url) = 404%Z.

(** "The dataset listing never fails." *)
Definition listing_never_fails : Prop :=
  forall w : world, exists d, snd (list_datasets w) = Ok (RetDict d).

(** "A recursive search under root for any file named [target]": the
    entries of that name, directory by directory, a directory before
    its subdirectories. *)
Fixpoint search_named (target : string) (dir_path : Path) (n : node) : list Path :=
  match n with
  | Dir es =>
      (if existsb (fun e => String.eqb (fst e) target) es
       then [make_child_relpath dir_path target] else [])
      ++ flat_map (fun e =>
                     if is_dir_node (snd e)
                     then search_named target (make_child_relpath dir_path (fst e)) (snd e)
                     else []) es
  | File => []
  end.

(** Section 4.1: "first check <root>/<name>.vrt for exact existence; if
    absent, perform a recursive search under root for any file named
    <name>.vrt and return the first match". *)
Definition resolve (w : world) (dataset : string) : option Path :=
  let exact := joinpath (DATA_DIR w) (dataset ++ ".vrt") in
  if on_disk (fs w) exact then Some exact
  else match lookup (fs w) (DATA_DIR w) with
       | Some n => hd_error (search_named (dataset ++ ".vrt") (DATA_DIR w) n)
       | None => None
       end.

(** A name a directory entry can have. *)
Definition valid_name (s : string) : bool :=
  negb (String.eqb s "") && negb (String.eqb s ".") && negb (String.eqb s "..")
  && negb (Str.contains "/" s).

(** A tree of files and directories (it has no symbolic links) as a file
    system holds it: in every directory the names are valid and pairwise
    distinct. *)
Fixpoint wf_node (n : node) : bool :=
  match n with
  | File => true
  | Dir es =>
      forallb (fun e => valid_name (fst e)) es
      && (if ListDec.NoDup_dec string_dec (map fst es) then true else false)
      && forallb (fun e => wf_node (snd e)) es
  end.

(** A dataset name without the characters that make a glob pattern. *)
Definition plain_name (s : string) : bool :=
  negb (Str.contains "*" s) && negb (Str.contains "?" s)
  && negb (Str.contains "[" s) && negb (Str.contains "/" s).

(** The ["name"] of an entry of the listing. *)
Definition entry_name (v : value) : string :=
  match field "name" v with Some (VStr s) => s | _ => "" end.

(** The entry [list_datasets] makes of a path under [data_dir]. *)
Definition entry_of (data_dir vrt : Path) : value :=
  VDict [("name", VStr (stem vrt));
         ("path", VStr (match relative_to vrt data_dir with
                        | Some rel => Path_str rel
                        | None => ""
                        end))].

(** What both metadata endpoints say about the extent and the zoom
    range: the four bounds, [minzoom] and [maxzoom]. *)
Definition extent_of (r : Run.M returned)
  : option (option (list value) * option value * option value) :=
  match dict_of r with
  | Some d =>
      Some (match field "bounds" d with Some b => elements b | None => None end,
            field "minzoom" d, field "maxzoom" d)
  | None => None
  end.

(** The events that open or close a reader. *)
Definition is_bracket (e : event) : bool :=
  match e with
  | EvOpen _ | EvClose => true
  | _ => false
  end.

(** A run that keeps no reader open: it calls nothing, or it tries to open
    one reader and fails, or it opens one reader, uses it, and closes it
    last. *)
Definition bracketed (lib : Library) (t : list event) : Prop :=
  t = [] \/
  (exists input e, t = [EvOpen input] /\ Reader_open lib input = Raise e) \/
  (exists input src mid,
      t = EvOpen input :: mid ++ [EvClose] /\
      Reader_open lib input = Ok src /\
      existsb is_bracket mid = false).

(** The ["center"] of a metadata answer. *)
Definition center_of (r : Run.M returned) : option (list value) :=
  match dict_of r with
  | Some d => match field "center" d with Some c => elements c | None => None end
  | None => None
  end.

(** The names [extra] lead from the directory [m] down to an entry the
    listing pattern selects: every name but the last is a directory, the
    last one matches [*.vrt]. *)
Fixpoint listed (m : node) (extra : list string) : bool :=
  match extra with
  | [] => false
  | x :: rest =>
      match m with
      | Dir es =>
          match lookup_entry x es with
          | Some c =>
              match rest with
              | [] => Fnmatch.fnmatch x "*.vrt"
              | _ :: _ => is_dir_node c && listed c rest
              end
          | None => false
          end
      | File => false
      end
  end.

(** The path [extra] components below [d]. *)
Definition below (d : Path) (extra : list string) : Path :=
  mkPath (root d) (parts d ++ extra).

(** The directories a recursive walk visits from the directory [n] at
    [parent_path]: the directory itself, then every subdirectory in the
    order of its entries, depth first. *)
Fixpoint directories (parent_path : Path) (n : node) : list Path :=
  parent_path ::
  match n with
  | Dir es =>
      flat_map (fun e =>
                  if is_dir_node (snd e)
                  then directories (make_child_relpath parent_path (fst e)) (snd e)
                  else []) es
  | File => []
  end.

Definition no_fault (f : option exn) : bool :=
  match f with None => true | Some _ => false end.

(** The system refuses nothing to a walk of the directory [n] at
    [parent_path]: it lists every directory of the walk and, when the
    walk looks for the file name [target], it answers the existence check
    of that name in every one of them. *)
Fixpoint quiet_node (fs : filesystem) (target : option string)
  (parent_path : Path) (n : node) : bool :=
  match n with
  | File => true
  | Dir es =>
      no_fault (fault fs Scandir (Path_str parent_path))
      && match target with
         | Some t => no_fault (fault fs Stat
                                 (Path_str (make_child_relpath parent_path t)))
         | None => true
         end
      && forallb (fun e =>
                    negb (is_dir_node (snd e))
                    || quiet_node fs target
                         (make_child_relpath parent_path (fst e)) (snd e)) es
  end.

(** The same from the directory [d] on: the system also answers whether
    [d] is a directory and, with a [target], whether [d] holds it. *)
Definition quiet (fs : filesystem) (target : option string) (d : Path) : bool :=
  no_fault (fault fs Stat (Path_str d))
  && match target with
     | Some t => no_fault (fault fs Stat (Path_str (make_child_relpath d t)))
     | None => true
     end
  && match lookup fs d with
     | Some n => quiet_node fs target d n
     | None => true
     end.

End Spec.

(** ** A small installation to run the handlers on *)

Module Fixtures.
Import Pathlib OS Py Http RioTiler Main.

(** [/data] holds three datasets, two of them in a subdirectory, and a
    file the raster library cannot read; [/x.vrt] lies outside [/data],
    and [/empty] is an empty directory. *)
Definition demo_tree : node :=
  Dir [("data", Dir [("a.vrt", File);
                     ("sub", Dir [("b.vrt", File); ("x.vrt", File)]);
                     ("broken.vrt", File)]);
       ("x.vrt", File);
       ("empty", Dir [])].

(** The system refuses nothing but names beyond Linux's limits. *)
Definition demo_fs : filesystem :=
  mkFS demo_tree [] (name_limits demo_tree []).

Definition demo_info : Info :=
  mkInfo (10, 20, 30, 60)%float "EPSG:4326" 512 256 (VList []) (VList []) "uint8"
         None None.

Definition png_bytes : list Init.Byte.byte :=
  [Init.Byte.x89; Init.Byte.x50; Init.Byte.x4e; Init.Byte.x47].

Definition jpeg_bytes : list Init.Byte.byte :=
  [Init.Byte.xff; Init.Byte.xd8; Init.Byte.xff].

(** A library that identifies a reader with the file it opened, has no
    tile at zoom 0, and no WEBP encoder. *)
Definition demo_lib : Library :=
  mkLibrary (list string) (list string * (Z * Z * Z))
    (fun input =>
       match locate demo_fs (Path_of input) with
       | Some loc =>
           if list_eq_dec string_dec loc ["data"; "broken.vrt"]
           then Raise (mkExn (OtherError "RasterioIOError")
                             "not recognized as a supported file format")
           else Ok loc
       | None => Raise (mkExn (OtherError "RasterioIOError")
                              "No such file or directory")
       end)
    (fun _ => Ok demo_info)
    (fun src x y z _ =>
       if Z.eqb z 0
       then Raise (mkExn TileOutsideBounds "Tile is outside bounds")
       else Ok (src, (z, x, y)))
    (fun _ img_format _ =>
       if String.eqb img_format "WEBP"
       then Raise (mkExn (OtherError "KeyError") "WEBP")
       else if String.eqb img_format "JPEG" then Ok jpeg_bytes
       else Ok png_bytes).

Definition demo_world : world := mkWorld None demo_fs demo_lib.

(** The same installation with [DATA_DIR] set to an empty directory, and
    to a directory that does not exist. *)
Definition world_empty_root : world := mkWorld (Some "/empty") demo_fs demo_lib.
Definition world_no_root : world := mkWorld (Some "/srv/tiles") demo_fs demo_lib.

(** The same two files, enumerated in two orders. *)
Definition twins_ab_tree : node :=
  Dir [("data", Dir [("a", Dir [("x.vrt", File)]);
                     ("b", Dir [("x.vrt", File)])])].

Definition twins_ba_tree : node :=
  Dir [("data", Dir [("b", Dir [("x.vrt", File)]);
                     ("a", Dir [("x.vrt", File)])])].

Definition twins_ab : filesystem :=
  mkFS twins_ab_tree [] (name_limits twins_ab_tree []).

Definition twins_ba : filesystem :=
  mkFS twins_ba_tree [] (name_limits twins_ba_tree []).

Definition world_ab : world := mkWorld None twins_ab demo_lib.
Definition world_ba : world := mkWorld None twins_ba demo_lib.

(** The same installation with a raster library whose readers open but
    cannot describe their file. *)
Definition silent_lib : Library :=
  mkLibrary (ReaderT demo_lib) (ImageData demo_lib)
    (Reader_open demo_lib)
    (fun _ => Raise (mkExn (OtherError "RasterioIOError") "Read failed"))
    (Reader_tile demo_lib)
    (ImageData_render demo_lib).

Definition world_silent : world := mkWorld None demo_fs silent_lib.

(** A name of 256 letters, one more than a directory entry can have. *)
Definition long_name : string := string_of_list_ascii (repeat "a"%char 256).

(** A name of 200 letters, and [depth] directories of that name one in
    the other, the innermost holding a dataset. *)
Definition wide_name : string := string_of_list_ascii (repeat "d"%char 200).

Fixpoint burrow (depth : nat) : node :=
  match depth with
  | O => Dir [("x.vrt", File)]
  | S d => Dir [(wide_name, burrow d)]
  end.

(** [/data] nested beyond [PATH_MAX]: 21 levels of 201 bytes each. *)
Definition deep_tree : node := Dir [("data", burrow 21)].

Definition deep_fs : filesystem :=
  mkFS deep_tree [] (name_limits deep_tree []).

Definition world_deep : world := mkWorld None deep_fs demo_lib.

(** The same installation with a raster library that names the path it
    was given when it cannot read the file, as GDAL does. *)
Definition quoting_lib : Library :=
  mkLibrary (ReaderT demo_lib) (ImageData demo_lib)
    (fun input =>
       match Reader_open demo_lib input with
       | Ok src => Ok src
       | Raise e =>
           Raise (mkExn (cls e) ("'" ++ input ++ "' " ++ msg e))
       end)
    (Reader_info demo_lib)
    (Reader_tile demo_lib)
    (ImageData_render demo_lib).

Definition world_quoting : world := mkWorld None demo_fs quoting_lib.





End Fixtures.

(** * Properties *)

Import Pathlib OS Py Http RioTiler Run Main.

(** ** The monad of a run *)

Lemma bind_ret {A B} (a : A) (k : A -> M B) : bind ([], Ok a) k = k a.
Proof.
  unfold bind. destruct (k a) as [t r]. reflexivity.
Qed.

Lemma bind_lift {A B} (r : result A) (k : A -> M B) :
  bind (lift r) k = match r with Ok a => k a | Raise e => ([], Raise e) end.
Proof.
  destruct r as [a|e]; [apply bind_ret | reflexivity].
Qed.

Lemma find_vrt_calls_nothing (w : world) (dataset : string) :
  fst (find_vrt w dataset) = [].
Proof.
  unfold find_vrt. rewrite bind_lift.
  destruct (Path_exists (fs w) _) as [[|]|e]; reflexivity.
Qed.

Lemma find_vrt_resolved (w : world) (dataset : string) (p : Path) :
  Spec.resolves_to w dataset p -> find_vrt w dataset = ([], Ok (Some p)).
Proof.
  intros [H _]. pose proof (find_vrt_calls_nothing w dataset) as Ht.
  destruct (find_vrt w dataset) as [t r]. simpl in *. subst. reflexivity.
Qed.

(** The second test of the name-based handlers, on a path that exists. *)
Lemma missing_found (w : world) (p : Path) :
  Path_exists (fs w) p = Ok true -> missing w (Some p) = ([], Ok false).
Proof.
  intros H. unfold missing. rewrite bind_lift, H. reflexivity.
Qed.

Lemma missing_run (w : world) (p : Path) :
  missing w (Some p)
  = match Path_exists (fs w) p with
    | Ok found => ([], Ok (negb found))
    | Raise e => ([], Raise e)
    end.
Proof.
  unfold missing. rewrite bind_lift. destruct (Path_exists (fs w) p); reflexivity.
Qed.

(** ** The tile handlers follow the format table and the tri-state outcome *)

Lemma encoding_cases (format : string) :
  (format = "png" /\ Spec.encoding format = ("PNG", None, "image/png")) \/
  ((format = "jpg" \/ format = "jpeg") /\
   String.eqb format "png" = false /\
   (String.eqb format "jpg" || String.eqb format "jpeg") = true /\
   Spec.encoding format = ("JPEG", Some 85%Z, "image/jpeg")) \/
  (format = "webp" /\ Spec.encoding format = ("WEBP", Some 85%Z, "image/webp")) \/
  (String.eqb format "png" = false /\
   (String.eqb format "jpg" || String.eqb format "jpeg") = false /\
   String.eqb format "webp" = false /\
   Spec.encoding format = ("PNG", None, "image/png")).
Proof.
  unfold Spec.encoding.
  destruct (String.eqb_spec format "png") as [->|Hpng]; [left; auto|].
  destruct (String.eqb_spec format "jpg") as [->|Hjpg]; [right; left; auto|].
  destruct (String.eqb_spec format "jpeg") as [->|Hjpeg]; [right; left; auto|].
  destruct (String.eqb_spec format "webp") as [->|Hwebp]; [right; right; left; auto|].
  right; right; right; auto.
Qed.

(** The [try] block shared by the two tile handlers, run on the string
    [input]. *)
Lemma tile_block (lib : Library) (input : string) (z x y : Z) (format : string) :
  try_except
    (with_Reader lib input (fun src =>
       bind (tile lib src x y z 256) (fun img =>
       bind (if String.eqb format "png" then
               bind (render lib img "PNG" None) (fun content =>
               ret (content, "image/png"))
             else if String.eqb format "jpg" || String.eqb format "jpeg" then
               bind (render lib img "JPEG" (Some 85%Z)) (fun content =>
               ret (content, "image/jpeg"))
             else if String.eqb format "webp" then
               bind (render lib img "WEBP" (Some 85%Z)) (fun content =>
               ret (content, "image/webp"))
             else
               bind (render lib img "PNG" None) (fun content =>
               ret (content, "image/png")))
            (fun x0 => let '(content, media_type) := x0 in
               ret (RetResponse
                      (mkResponse 200 (CBytes content) (Some media_type)
                                  [("Cache-Control", "public, max-age=3600")]))))))
    [ (ExceptTileOutsideBounds,
       fun _ => ret (RetResponse (Response_status 204 CNone)));
      (ExceptException,
       fun e => ret (RetResponse (Response_status 500 (CStr (msg e))))) ]
  = (Spec.tile_calls lib input z x y format,
     Ok (RetResponse
           (Spec.tile_response (Spec.render_attempt lib input z x y format) format))).
Proof.
  unfold Spec.tile_calls, Spec.render_attempt, Spec.tile_response,
    Spec.image_response, with_Reader, tile, render, try_except, bind, ret.
  destruct (Reader_open lib input) as [src|e]; simpl.
  2:{ destruct e as [[] m]; reflexivity. }
  destruct (Reader_tile lib src x y z 256) as [img|e]; simpl.
  2:{ destruct e as [[] m]; reflexivity. }
  destruct (encoding_cases format)
    as [[-> E]|[[_ [H1 [H2 E]]]|[[-> E]|[H1 [H2 [H3 E]]]]]];
    rewrite E; simpl; rewrite ?H1, ?H2, ?H3; simpl;
    match goal with
    | |- context [ImageData_render ?l ?i ?f ?q] =>
        destruct (ImageData_render l i f q) as [c|e]; simpl;
        [reflexivity | destruct e as [[] m]; reflexivity]
    end.
Qed.

Lemma relative_url_has_no_root (url : string) :
  Str.startswith url "/" = false -> root (Path_of url) = "".
Proof.
  intros H. unfold Path_of, splitroot. rewrite H.
  destruct (String.eqb url ""); reflexivity.
Qed.

(** The path [get_tile_by_url] computes is the one of the specification. *)
Lemma url_path_code (w : world) (url : string) :
  (if Str.startswith url "/" then Path_of url else joinpath (DATA_DIR w) url)
  = Spec.url_path w url.
Proof.
  unfold Spec.url_path, joinpath.
  destruct (Str.startswith url "/") eqn:H; [reflexivity|].
  rewrite (relative_url_has_no_root url H). reflexivity.
Qed.
Lemma get_tile_resolved (w : world) (dataset : string) (z x y : Z)
  (format : string) (p : Path) :
  Spec.resolves_to w dataset p ->
  get_tile w dataset z x y format
  = (Spec.tile_calls (rio w) (Path_str p) z x y format,
     Ok (RetResponse
           (Spec.tile_response
              (Spec.render_attempt (rio w) (Path_str p) z x y format) format))).
Proof.
  intros H. unfold get_tile.
  rewrite (find_vrt_resolved w dataset p H), bind_ret.
  destruct H as [_ Hex]. rewrite (missing_found w p Hex), bind_ret.
  apply tile_block.
Qed.

Lemma get_tile_by_url_found (w : world) (z x y : Z) (format url : string) :
  url <> "" ->
  Path_exists (fs w) (Spec.url_path w url) = Ok true ->
  get_tile_by_url w z x y format url
  = (Spec.tile_calls (rio w) (Path_str (Spec.url_path w url)) z x y format,
     Ok (RetResponse
           (Spec.tile_response
              (Spec.render_attempt (rio w) (Path_str (Spec.url_path w url))
                 z x y format) format))).
Proof.
  intros Hurl Hex. unfold get_tile_by_url.
  destruct (String.eqb_spec url "") as [E|_]; [contradiction|].
  cbv zeta. rewrite url_path_code, Hex, bind_lift. simpl negb. cbv iota.
  apply tile_block.
Qed.

Lemma tile_request_run (w : world) (dataset url : string) (z x y : Z)
  (format : string) (q : Path) (run : M returned) :
  Spec.tile_request w dataset url z x y format q run ->
  run = (Spec.tile_calls (rio w) (Path_str q) z x y format,
         Ok (RetResponse
               (Spec.tile_response
                  (Spec.render_attempt (rio w) (Path_str q) z x y format) format))).
Proof.
  intros [[-> H]|[-> [Hurl [-> Hex]]]].
  - apply get_tile_resolved; assumption.
  - apply get_tile_by_url_found; assumption.
Qed.

Lemma demo_request_by_name (z x y : Z) (format : string) :
  Spec.tile_request Fixtures.demo_world "x" "" z x y format
    (Path_of "/data/sub/x.vrt")
    (get_tile Fixtures.demo_world "x" z x y format).
Proof.
  left. split; [reflexivity|]. split; reflexivity.
Qed.

Lemma demo_request_by_url (z x y : Z) (format : string) :
  Spec.tile_request Fixtures.demo_world "" "sub/x.vrt" z x y format
    (Path_of "/data/sub/x.vrt")
    (get_tile_by_url Fixtures.demo_world z x y format "sub/x.vrt").
Proof.
  right. split; [reflexivity|]. split; [discriminate|]. split; reflexivity.
Qed.

Lemma has_substring_prefix (sub s : string) :
  String.prefix sub s = true -> Str.has_substring sub s = true.
Proof.
  intros H. destruct s; cbn [Str.has_substring]; rewrite H; reflexivity.
Qed.

Lemma prefix_append (sub rest : string) : String.prefix sub (sub ++ rest) = true.
Proof.
  induction sub as [|c sub IH]; simpl.
  - destruct rest; reflexivity.
  - destruct (ascii_dec c c) as [_|N]; [exact IH | contradiction].
Qed.

Lemma append_empty_r (s : string) : (s ++ "")%string = s.
Proof.
  induction s as [|c s IH]; simpl; [reflexivity | rewrite IH; reflexivity].
Qed.

(** A text contains what it was built around. *)
Lemma has_substring_middle (before sub rest : string) :
  Str.has_substring sub (before ++ sub ++ rest) = true.
Proof.
  induction before as [|c before IH]; simpl.
  - apply has_substring_prefix, prefix_append.
  - rewrite IH. apply orb_true_r.
Qed.

(** The order of the two [except] clauses matters: the out-of-bounds
    signal is an [Exception] too, and the general clause would take it if
    it came first. *)
Remark except_order_matters (t : list event) (e : exn) :
  cls e = TileOutsideBounds ->
  snd (try_except (t, Raise e)
         [ (ExceptTileOutsideBounds,
            fun _ => ret (RetResponse (Response_status 204 CNone)));
           (ExceptException,
            fun e => ret (RetResponse (Response_status 500 (CStr (msg e))))) ])
  = Ok (RetResponse (Response_status 204 CNone)) /\
  snd (try_except (t, Raise e)
         [ (ExceptException,
            fun e => ret (RetResponse (Response_status 500 (CStr (msg e)))));
           (ExceptTileOutsideBounds,
            fun _ => ret (RetResponse (Response_status 204 CNone))) ])
  = Ok (RetResponse (Response_status 500 (CStr (msg e)))).
Proof.
  intros H. unfold try_except. simpl. rewrite H. split; reflexivity.
Qed.
(** C2: on either tile endpoint, once the dataset or path has resolved,
    the outcome is tri-state.  A tile query that signals "outside bounds"
    gives status 204 with an empty body; it is told apart from every other
    failure of opening, decoding or encoding, which gives status 500 with
    the failure's message as body; nothing else than 200, 204 and 500
    comes out, and no exception leaves the handler. *)
Theorem tile_outcome_is_tri_state
  (w : world) (dataset url : string) (z x y : Z) (format : string)
  (q : Path) (run : M returned) :
  Spec.tile_request w dataset url z x y format q run ->
  (forall src e,
      Reader_open (rio w) (Path_str q) = Ok src ->
      Reader_tile (rio w) src x y z 256 = Raise e ->
      cls e = TileOutsideBounds ->
      response_of run = Some (Response_status 204 CNone) /\
      http_status run = 204%Z /\
      (forall r, response_of run = Some r -> body r = [])) /\
  (forall e,
      Spec.render_attempt (rio w) (Path_str q) z x y format = Raise e ->
      cls e <> TileOutsideBounds ->
      response_of run = Some (Response_status 500 (CStr (msg e))) /\
      http_status run = 500%Z) /\
  (exists r, snd run = Ok (RetResponse r) /\
             In (status_code r) [200; 204; 500]%Z).
Proof.
  intros H. rewrite (tile_request_run _ _ _ _ _ _ _ _ _ H).
  unfold response_of, http_status. simpl snd.
  split; [|split].
  - intros src e Ho Ht Hc. unfold Spec.render_attempt. rewrite Ho, Ht.
    simpl. rewrite Hc. simpl. repeat split.
    intros r Hr. injection Hr as <-. reflexivity.
  - intros e Hr Hc. rewrite Hr. simpl.
    destruct (cls e) eqn:E; try (split; reflexivity). contradiction.
  - eexists. split; [reflexivity|].
    destruct (Spec.render_attempt _ _ _ _ _ _) as [c|e]; simpl; [auto|].
    destruct (cls e); simpl; auto.
Qed.

Lemma tile_outcome_is_tri_state_witness :
  response_of (get_tile Fixtures.demo_world "x" 0 0 0 "png")
    = Some (Response_status 204 CNone) /\
  response_of (get_tile_by_url Fixtures.demo_world 3 1 2 "webp" "sub/x.vrt")
    = Some (Response_status 500 (CStr "WEBP")).
Proof.
  split.
  - refine (proj1 (proj1 (tile_outcome_is_tri_state _ _ _ _ _ _ _ _ _
                            (demo_request_by_name 0 0 0 "png"))
                         ["data"; "sub"; "x.vrt"]
                         (mkExn TileOutsideBounds "Tile is outside bounds")
                         _ _ _)); reflexivity.
  - refine (proj1 (proj1 (proj2 (tile_outcome_is_tri_state _ _ _ _ _ _ _ _ _
                                   (demo_request_by_url 3 1 2 "webp")))
                         (mkExn (OtherError "KeyError") "WEBP") _ _));
      [reflexivity | discriminate].
Defined.

(** C3: on either tile endpoint, a successful render answers with the
    bytes of the encoder the format token selects and with its media type:
    [png] is PNG and [image/png]; [jpg] and [jpeg] are JPEG at quality 85
    and [image/jpeg]; [webp] is WEBP at quality 85 and [image/webp];
    any other token falls back to PNG and [image/png].  The response
    carries [Cache-Control: public, max-age=3600]. *)
Theorem tile_format_selects_encoding
  (w : world) (dataset url : string) (z x y : Z) (format : string)
  (q : Path) (run : M returned) (c : list Init.Byte.byte) :
  Spec.tile_request w dataset url z x y format q run ->
  Spec.render_attempt (rio w) (Path_str q) z x y format = Ok c ->
  (Spec.encoding "png" = ("PNG", None, "image/png") /\
   Spec.encoding "jpg" = ("JPEG", Some 85%Z, "image/jpeg") /\
   Spec.encoding "jpeg" = ("JPEG", Some 85%Z, "image/jpeg") /\
   Spec.encoding "webp" = ("WEBP", Some 85%Z, "image/webp") /\
   (format <> "png" -> format <> "jpg" -> format <> "jpeg" -> format <> "webp" ->
    Spec.encoding format = ("PNG", None, "image/png"))) /\
  (exists img_format quality media,
      Spec.encoding format = (img_format, quality, media) /\
      In (EvRender img_format quality) (fst run) /\
      snd run = Ok (RetResponse
                      (mkResponse 200 (CBytes c) (Some media)
                                  [("Cache-Control", "public, max-age=3600")]))).
Proof.
  intros H Hr. split.
  - repeat (split; [reflexivity|]). intros N1 N2 N3 N4.
    destruct (encoding_cases format)
      as [[E _]|[[[E|E] _]|[[E _]|[_ [_ [_ E]]]]]]; congruence.
  - rewrite (tile_request_run _ _ _ _ _ _ _ _ _ H). rewrite Hr.
    destruct (Spec.encoding format) as [[img_format quality] media] eqn:E.
    exists img_format, quality, media. split; [reflexivity|]. split.
    + simpl fst. unfold Spec.tile_calls. unfold Spec.render_attempt in Hr.
      destruct (Reader_open (rio w) (Path_str q)) as [src|e]; [|discriminate].
      destruct (Reader_tile (rio w) src x y z 256) as [img|e]; [|discriminate].
      rewrite E. simpl. auto.
    + simpl. unfold Spec.image_response. rewrite E. reflexivity.
Qed.

Lemma tile_format_selects_encoding_witness :
  exists img_format quality media,
    Spec.encoding "jpeg" = (img_format, quality, media) /\
    In (EvRender img_format quality)
       (fst (get_tile Fixtures.demo_world "x" 3 1 2 "jpeg")) /\
    snd (get_tile Fixtures.demo_world "x" 3 1 2 "jpeg")
    = Ok (RetResponse
            (mkResponse 200 (CBytes Fixtures.jpeg_bytes) (Some media)
                        [("Cache-Control", "public, max-age=3600")])).
Proof.
  refine (proj2 (tile_format_selects_encoding _ _ _ _ _ _ _ _ _ _
                   (demo_request_by_name 3 1 2 "jpeg") _)).
  reflexivity.
Defined.
(** Every run of the path-based tile handler, whatever the request. *)
Lemma get_tile_by_url_run (w : world) (z x y : Z) (format url : string) :
  get_tile_by_url w z x y format url
  = if String.eqb url "" then
      ([], Ok (RetResponse (Response_status 400 (CStr "url parameter required"))))
    else
      match Path_exists (fs w) (Spec.url_path w url) with
      | Raise e => ([], Raise e)
      | Ok true =>
          (Spec.tile_calls (rio w) (Path_str (Spec.url_path w url)) z x y format,
           Ok (RetResponse
                 (Spec.tile_response
                    (Spec.render_attempt (rio w) (Path_str (Spec.url_path w url))
                       z x y format) format)))
      | Ok false =>
          ([], Ok (RetResponse
                     (Response_status 404 (CStr ("File not found: " ++ url)))))
      end.
Proof.
  destruct (String.eqb_spec url "") as [->|Hurl]; [reflexivity|].
  destruct (Path_exists (fs w) (Spec.url_path w url)) as [[|]|e] eqn:Hex.
  - apply get_tile_by_url_found; assumption.
  - unfold get_tile_by_url.
    destruct (String.eqb_spec url "") as [E|_]; [contradiction|].
    cbv zeta. rewrite url_path_code, Hex. reflexivity.
  - unfold get_tile_by_url.
    destruct (String.eqb_spec url "") as [E|_]; [contradiction|].
    cbv zeta. rewrite url_path_code, Hex. reflexivity.
Qed.

(** Counterexample to C4: a [url] of 256 letters names no file under
    [/data], and none can have that name; the existence test does not
    answer "absent", it fails with [ENAMETOOLONG], outside the [try] of
    the handler, and the client gets a 500 where the claim says 404. *)
Lemma long_url_is_not_a_404 :
  Spec.on_disk Fixtures.demo_fs
    (Spec.url_path Fixtures.demo_world Fixtures.long_name) = false /\
  get_tile_by_url Fixtures.demo_world 3 1 2 "png" Fixtures.long_name
  = ([], Raise (mkExn (OtherError "OSError")
                  ("[Errno 36] File name too long: '/data/"
                   ++ Fixtures.long_name ++ "'"))) /\
  http_status (get_tile_by_url Fixtures.demo_world 3 1 2 "png" Fixtures.long_name)
  = 500%Z /\
  ~ Spec.absent_path_is_404.
Proof.
  assert (Hrun : get_tile_by_url Fixtures.demo_world 3 1 2 "png" Fixtures.long_name
                 = ([], Raise (mkExn (OtherError "OSError")
                                 ("[Errno 36] File name too long: '/data/"
                                  ++ Fixtures.long_name ++ "'"))))
    by (vm_compute; reflexivity).
  assert (Habsent : Spec.on_disk Fixtures.demo_fs
                      (Spec.url_path Fixtures.demo_world Fixtures.long_name) = false)
    by (vm_compute; reflexivity).
  split; [exact Habsent|]. split; [exact Hrun|]. split.
  - rewrite Hrun. reflexivity.
  - intros H.
    specialize (H Fixtures.demo_world 3%Z 1%Z 2%Z "png" Fixtures.long_name).
    rewrite Hrun in H. unfold http_status in H. cbn [snd] in H.
    assert (E : 500%Z = 404%Z); [|discriminate E].
    apply H; [|exact Habsent].
    intros E. apply (f_equal String.length) in E. vm_compute in E. discriminate E.
Qed.

(** C4, amended: the path-based tile endpoint answers 400 when the [url]
    parameter is missing or empty.  Otherwise an absolute [url] is the
    file path as it is and a relative one is joined under the root
    directory; when the existence test says that the path does not exist,
    the answer is 404 with a body naming the [url]; when it says that the
    path exists, that path is the one opened; and when the test itself
    fails (a name too long, a directory that may not be searched), its
    exception leaves the handler and the client gets a 500. *)
Theorem url_parameter_handling
  (w : world) (z x y : Z) (format url : string) (q : Path) :
  (Str.startswith url "/" = true /\ q = Path_of url) \/
  (Str.startswith url "/" = false /\
   q = mkPath (root (DATA_DIR w)) (parts (DATA_DIR w) ++ parts (Path_of url))) ->
  (url = "" ->
   get_tile_by_url w z x y format url
   = ([], Ok (RetResponse (Response_status 400 (CStr "url parameter required"))))) /\
  (url <> "" -> Path_exists (fs w) q = Ok false ->
   get_tile_by_url w z x y format url
   = ([], Ok (RetResponse (Response_status 404 (CStr ("File not found: " ++ url))))) /\
   Str.has_substring url ("File not found: " ++ url) = true) /\
  (url <> "" -> Path_exists (fs w) q = Ok true ->
   hd_error (fst (get_tile_by_url w z x y format url)) = Some (EvOpen (Path_str q))) /\
  (url <> "" -> forall e, Path_exists (fs w) q = Raise e ->
   get_tile_by_url w z x y format url = ([], Raise e) /\
   http_status (get_tile_by_url w z x y format url) = 500%Z).
Proof.
  intros Hq.
  assert (Eq : q = Spec.url_path w url).
  { unfold Spec.url_path. destruct Hq as [[-> ->]|[-> ->]]; reflexivity. }
  subst q. clear Hq. split; [|split; [|split]].
  - intros ->. reflexivity.
  - intros Hurl Hex. split.
    + rewrite get_tile_by_url_run, Hex.
      destruct (String.eqb_spec url "") as [E|_]; [contradiction | reflexivity].
    + pose proof (has_substring_middle "File not found: " url "") as Hs.
      rewrite append_empty_r in Hs. exact Hs.
  - intros Hurl Hex. rewrite (get_tile_by_url_found w z x y format url Hurl Hex).
    simpl fst. unfold Spec.tile_calls.
    destruct (Reader_open (rio w) _); reflexivity.
  - intros Hurl e Hex. rewrite get_tile_by_url_run, Hex.
    destruct (String.eqb_spec url "") as [E|_]; [contradiction|].
    split; reflexivity.
Qed.

Lemma url_parameter_handling_witness :
  get_tile_by_url Fixtures.demo_world 3 1 2 "png" ""
  = ([], Ok (RetResponse (Response_status 400 (CStr "url parameter required")))) /\
  get_tile_by_url Fixtures.demo_world 3 1 2 "png" "sub/nope.vrt"
  = ([], Ok (RetResponse (Response_status 404 (CStr "File not found: sub/nope.vrt")))) /\
  hd_error (fst (get_tile_by_url Fixtures.demo_world 3 1 2 "png" "/data/a.vrt"))
  = Some (EvOpen "/data/a.vrt") /\
  http_status (get_tile_by_url Fixtures.demo_world 3 1 2 "png" Fixtures.long_name)
  = 500%Z.
Proof.
  split; [|split; [|split]].
  - refine (proj1 (url_parameter_handling Fixtures.demo_world 3 1 2 "png" ""
                     (mkPath "/" ["data"]) _) _);
      [right; split; reflexivity | reflexivity].
  - refine (proj1 (proj1 (proj2 (url_parameter_handling Fixtures.demo_world 3 1 2
                                   "png" "sub/nope.vrt"
                                   (mkPath "/" ["data"; "sub"; "nope.vrt"]) _)) _ _));
      [right; split; reflexivity | discriminate | reflexivity].
  - refine (proj1 (proj2 (proj2 (url_parameter_handling Fixtures.demo_world 3 1 2
                            "png" "/data/a.vrt" (Path_of "/data/a.vrt") _))) _ _);
      [left; split; reflexivity | discriminate | reflexivity].
  - refine (proj2 (proj2 (proj2 (proj2 (url_parameter_handling Fixtures.demo_world
                            3 1 2 "png" Fixtures.long_name
                            (mkPath "/" ["data"; Fixtures.long_name]) _)))
                         _
                         (mkExn (OtherError "OSError")
                            ("[Errno 36] File name too long: '/data/"
                             ++ Fixtures.long_name ++ "'")) _)).
    + right. split; vm_compute; reflexivity.
    + intros E. apply (f_equal String.length) in E. vm_compute in E. discriminate E.
    + vm_compute. reflexivity.
Defined.

(** Counterexample to C5: the raster library names the path it was given
    when it cannot read the file.  The dataset [broken] and the [url]
    [sub/../broken.vrt] lead to the same file, [/data/broken.vrt]; both
    endpoints answer 500, with two different bodies. *)
Lemma spelling_shows_in_the_failure :
  Spec.resolves_to Fixtures.world_quoting "broken" (Path_of "/data/broken.vrt") /\
  Path_exists Fixtures.demo_fs
    (Spec.url_path Fixtures.world_quoting "sub/../broken.vrt") = Ok true /\
  Spec.same_file Fixtures.demo_fs "/data/broken.vrt" "/data/sub/../broken.vrt" /\
  snd (get_tile Fixtures.world_quoting "broken" 3 1 2 "png")
  = Ok (RetResponse
          (Response_status 500
             (CStr "'/data/broken.vrt' not recognized as a supported file format"))) /\
  snd (get_tile_by_url Fixtures.world_quoting 3 1 2 "png" "sub/../broken.vrt")
  = Ok (RetResponse
          (Response_status 500
             (CStr "'/data/sub/../broken.vrt' not recognized as a supported file format"))) /\
  ~ Spec.same_file_same_response.
Proof.
  assert (Hres : Spec.resolves_to Fixtures.world_quoting "broken"
                   (Path_of "/data/broken.vrt")) by (split; reflexivity).
  assert (Hsame : Spec.same_file Fixtures.demo_fs
                    "/data/broken.vrt" "/data/sub/../broken.vrt")
    by (split; [reflexivity | discriminate]).
  split; [exact Hres|]. split; [reflexivity|]. split; [exact Hsame|].
  split; [reflexivity|]. split; [reflexivity|].
  intros H.
  specialize (H Fixtures.world_quoting "broken" "sub/../broken.vrt" 3%Z 1%Z 2%Z "png"
                (Path_of "/data/broken.vrt") Hres).
  assert (E : snd (get_tile Fixtures.world_quoting "broken" 3 1 2 "png")
              = snd (get_tile_by_url Fixtures.world_quoting 3 1 2 "png"
                       "sub/../broken.vrt")).
  { apply H; [discriminate | reflexivity | exact Hsame]. }
  discriminate E.
Qed.

(** C5, amended: whatever the tile coordinates and the format, when a
    dataset name and a [url] resolve to the same path, the same text
    being handed to the raster library, the name-based and the path-based
    tile endpoints run alike and give the same response: same status,
    same media type, same body byte for byte.  When they resolve to two
    spellings of a path, the responses are the same as far as the raster
    library opens the same reader, or fails alike, for both. *)
Theorem tile_endpoints_agree
  (w : world) (dataset url : string) (z x y : Z) (format : string) (p : Path) :
  Spec.resolves_to w dataset p ->
  url <> "" ->
  Path_exists (fs w) (Spec.url_path w url) = Ok true ->
  (Path_str p = Path_str (Spec.url_path w url) ->
   get_tile w dataset z x y format = get_tile_by_url w z x y format url) /\
  (Reader_open (rio w) (Path_str p)
   = Reader_open (rio w) (Path_str (Spec.url_path w url)) ->
   snd (get_tile w dataset z x y format)
   = snd (get_tile_by_url w z x y format url)).
Proof.
  intros Hres Hurl Hex.
  rewrite (get_tile_resolved w dataset z x y format p Hres).
  rewrite (get_tile_by_url_found w z x y format url Hurl Hex).
  split.
  - intros <-. reflexivity.
  - intros Hopen. simpl snd. unfold Spec.render_attempt.
    rewrite Hopen. reflexivity.
Qed.

Lemma tile_endpoints_agree_witness :
  get_tile Fixtures.demo_world "x" 3 1 2 "jpg"
  = get_tile_by_url Fixtures.demo_world 3 1 2 "jpg" "sub/x.vrt" /\
  snd (get_tile Fixtures.demo_world "x" 3 1 2 "jpg")
  = snd (get_tile_by_url Fixtures.demo_world 3 1 2 "jpg" "sub/../sub/x.vrt").
Proof.
  split.
  - refine (proj1 (tile_endpoints_agree Fixtures.demo_world "x" "sub/x.vrt"
                     3 1 2 "jpg" (Path_of "/data/sub/x.vrt") _ _ _) _).
    + split; reflexivity.
    + discriminate.
    + reflexivity.
    + reflexivity.
  - refine (proj2 (tile_endpoints_agree Fixtures.demo_world "x" "sub/../sub/x.vrt"
                     3 1 2 "jpg" (Path_of "/data/sub/x.vrt") _ _ _) _).
    + split; reflexivity.
    + discriminate.
    + reflexivity.
    + reflexivity.
Defined.

(** ** The metadata handlers *)

(** C8: for a dataset name that resolves, and whose reader yields the
    info snapshot, the TileJSON endpoint returns an object whose
    [tilejson] is ["3.0.0"], whose [tiles] holds exactly one template,
    [/datasets/{name}/tiles/{z}/{x}/{y}.] followed by the requested
    [tile_format], whose [bounds] are the four bounds of the dataset, and
    whose [center] is the midpoint of the bounds on both axes followed by
    the zoom hint 15. *)
Theorem tilejson_shape
  (w : world) (dataset tile_format : string) (p : Path)
  (src : ReaderT (rio w)) (i : Info) (b0 b1 b2 b3 : float) :
  Spec.resolves_to w dataset p ->
  Reader_open (rio w) (Path_str p) = Ok src ->
  Reader_info (rio w) src = Ok i ->
  bounds i = (b0, b1, b2, b3) ->
  exists d,
    snd (tilejson w dataset tile_format) = Ok (RetDict d) /\
    field "tilejson" d = Some (VStr "3.0.0") /\
    field "tiles" d
    = Some (VList [VStr ("/datasets/" ++ dataset ++ "/tiles/{z}/{x}/{y}."
                           ++ tile_format)]) /\
    field "bounds" d = Some (VList [VFloat b0; VFloat b1; VFloat b2; VFloat b3]) /\
    field "center" d
    = Some (VList [VFloat ((b0 + b2) / 2)%float; VFloat ((b1 + b3) / 2)%float;
                   VInt 15]).
Proof.
  intros Hres Ho Hi Hb. unfold tilejson.
  rewrite (find_vrt_resolved w dataset p Hres), bind_ret.
  destruct Hres as [_ Hex]. rewrite (missing_found w p Hex), bind_ret.
  unfold with_Reader, Run.info, bind, ret. rewrite Ho, Hi, Hb.
  eexists. split; [reflexivity|]. repeat split.
Qed.

Lemma tilejson_shape_witness :
  exists d,
    snd (tilejson Fixtures.demo_world "x" "webp") = Ok (RetDict d) /\
    field "tilejson" d = Some (VStr "3.0.0") /\
    field "tiles" d = Some (VList [VStr "/datasets/x/tiles/{z}/{x}/{y}.webp"]) /\
    field "bounds" d = Some (VList [VFloat 10; VFloat 20; VFloat 30; VFloat 60]) /\
    field "center" d
    = Some (VList [VFloat ((10 + 30) / 2)%float; VFloat ((20 + 60) / 2)%float;
                   VInt 15]).
Proof.
  refine (tilejson_shape Fixtures.demo_world "x" "webp" (Path_of "/data/sub/x.vrt")
            ["data"; "sub"; "x.vrt"] Fixtures.demo_info 10 20 30 60 _ _ _ _).
  - split; reflexivity.
  - reflexivity.
  - reflexivity.
  - reflexivity.
Defined.

(** C6: for every dataset name, the info endpoint and the bounds endpoint
    say the same about the extent and the zoom range; when the name
    resolves and the reader yields its info snapshot, both return the four
    bounds of the snapshot, and its [minzoom] and [maxzoom], 0 and 22
    standing in for the ones the reader does not supply. *)
Theorem info_and_bounds_agree (w : world) (dataset : string) :
  Spec.extent_of (dataset_info w dataset) = Spec.extent_of (dataset_bounds w dataset) /\
  (forall (p : Path) (src : ReaderT (rio w)) (i : Info) (b0 b1 b2 b3 : float),
      Spec.resolves_to w dataset p ->
      Reader_open (rio w) (Path_str p) = Ok src ->
      Reader_info (rio w) src = Ok i ->
      bounds i = (b0, b1, b2, b3) ->
      let extent :=
        Some (Some [VFloat b0; VFloat b1; VFloat b2; VFloat b3],
              Some (VInt (match minzoom i with Some v => v | None => 0 end)),
              Some (VInt (match maxzoom i with Some v => v | None => 22 end))) in
      Spec.extent_of (dataset_info w dataset) = extent /\
      Spec.extent_of (dataset_bounds w dataset) = extent).
Proof.
  split.
  - unfold dataset_info, dataset_bounds.
    pose proof (find_vrt_calls_nothing w dataset) as Ht.
    destruct (find_vrt w dataset) as [t [[p|]|e]]; simpl in Ht; subst t;
      [rewrite !bind_ret | reflexivity | reflexivity].
    rewrite missing_run.
    destruct (Path_exists (fs w) p) as [[|]|e]; [|reflexivity|reflexivity].
    rewrite !bind_ret. simpl negb. cbv iota.
    unfold with_Reader, Run.info, bind, ret.
    destruct (Reader_open (rio w) (Path_str p)) as [src|e]; [|reflexivity].
    destruct (Reader_info (rio w) src) as [i|e]; [|reflexivity].
    destruct (bounds i) as [[[b0 b1] b2] b3]. reflexivity.
  - intros p src i b0 b1 b2 b3 Hres Ho Hi Hb. unfold dataset_info, dataset_bounds.
    rewrite (find_vrt_resolved w dataset p Hres), !bind_ret.
    destruct Hres as [_ Hex]. rewrite (missing_found w p Hex), !bind_ret.
    unfold with_Reader, Run.info, bind, ret. rewrite Ho, Hi, Hb.
    split; reflexivity.
Qed.

Lemma info_and_bounds_agree_witness :
  let extent := Some (Some [VFloat 10; VFloat 20; VFloat 30; VFloat 60],
                      Some (VInt 0), Some (VInt 22)) in
  Spec.extent_of (dataset_info Fixtures.demo_world "b") = extent /\
  Spec.extent_of (dataset_bounds Fixtures.demo_world "b") = extent.
Proof.
  refine (proj2 (info_and_bounds_agree Fixtures.demo_world "b")
            (Path_of "/data/sub/b.vrt") ["data"; "sub"; "b.vrt"] Fixtures.demo_info
            10%float 20%float 30%float 60%float _ _ _ _).
  - split; reflexivity.
  - reflexivity.
  - reflexivity.
  - reflexivity.
Defined.

(** ** What the tile handlers do not check *)

(** Counterexample to C9: a request with zoom -1 reaches the tile query
    and the encoder, and is answered with an image. *)
Lemma negative_zoom_is_rendered : ~ Spec.negatives_never_rendered.
Proof.
  intros H.
  destruct (H Fixtures.demo_world "x" "sub/x.vrt" (-1)%Z 0%Z 0%Z "png") as [H1 _];
    [left; reflexivity|].
  discriminate H1.
Qed.

(** C9, amended: the zoom and the tile coordinates of a request are
    integers of either sign; the two tile handlers pass them unchanged to
    the tile query of the reader they opened, negative or not. *)
Theorem coordinates_reach_tile_query
  (w : world) (dataset url : string) (z x y : Z) (format : string)
  (q : Path) (run : M returned) (src : ReaderT (rio w)) :
  Spec.tile_request w dataset url z x y format q run ->
  Reader_open (rio w) (Path_str q) = Ok src ->
  nth_error (fst run) 1 = Some (EvTile x y z 256) /\
  Spec.reaches_tile_step run = true /\
  snd run
  = Ok (RetResponse
          (Spec.tile_response
             (match Reader_tile (rio w) src x y z 256 with
              | Ok img =>
                  ImageData_render (rio w) img
                    (fst (fst (Spec.encoding format))) (snd (fst (Spec.encoding format)))
              | Raise e => Raise e
              end) format)).
Proof.
  intros H Ho. rewrite (tile_request_run _ _ _ _ _ _ _ _ _ H).
  unfold Spec.reaches_tile_step, Spec.tile_calls, Spec.render_attempt.
  simpl fst. simpl snd. rewrite Ho.
  destruct (Spec.encoding format) as [[img_format quality] media].
  repeat split.
Qed.

Lemma coordinates_reach_tile_query_witness :
  nth_error (fst (get_tile Fixtures.demo_world "x" (-1) (-2) (-3) "png")) 1
  = Some (EvTile (-2) (-3) (-1) 256) /\
  Spec.reaches_tile_step (get_tile_by_url Fixtures.demo_world (-1) 0 0 "png" "sub/x.vrt")
  = true.
Proof.
  split.
  - refine (proj1 (coordinates_reach_tile_query Fixtures.demo_world _ _ _ _ _ _ _ _
                     ["data"; "sub"; "x.vrt"]
                     (demo_request_by_name (-1) (-2) (-3) "png") _)).
    reflexivity.
  - refine (proj1 (proj2 (coordinates_reach_tile_query Fixtures.demo_world
                            _ _ _ _ _ _ _ _ ["data"; "sub"; "x.vrt"]
                            (demo_request_by_url (-1) 0 0 "png") _))).
    reflexivity.
Defined.

(** C10: the path-based tile endpoint does not keep the resolved path
    under the root directory.  With the root [/data] and the relative
    [url] [../x.vrt], the path joined under the root is [/data/../x.vrt];
    it resolves to [/x.vrt], outside the tree of [/data], and that is the
    file the handler opens and renders. *)
Theorem url_escapes_root :
  exists (w : world) (url : string) (p : Path) (root_loc loc : list string),
    String.eqb url "" = false /\
    Str.startswith url "/" = false /\
    In ".." (parts (Path_of url)) /\
    p = joinpath (DATA_DIR w) url /\
    locate (fs w) (DATA_DIR w) = Some root_loc /\
    locate (fs w) p = Some loc /\
    under root_loc loc = false /\
    fst (get_tile_by_url w 3 1 2 "png" url)
    = [EvOpen (Path_str p); EvTile 1 2 3 256; EvRender "PNG" None; EvClose] /\
    http_status (get_tile_by_url w 3 1 2 "png" url) = 200%Z.
Proof.
  exists Fixtures.demo_world, "../x.vrt", (mkPath "/" ["data"; ".."; "x.vrt"]),
    ["data"], ["x.vrt"].
  repeat split. simpl. auto.
Qed.
(** ** Python's order on strings *)

Lemma ascii_compare_trans (a b c : ascii) :
  Ascii.compare a b <> Gt -> Ascii.compare b c <> Gt -> Ascii.compare a c <> Gt.
Proof.
  unfold Ascii.compare. intros H1 H2.
  change (N_of_ascii a <= N_of_ascii b)%N in H1.
  change (N_of_ascii b <= N_of_ascii c)%N in H2.
  change (N_of_ascii a <= N_of_ascii c)%N. lia.
Qed.

Lemma string_compare_trans (a : string) :
  forall b c, String.compare a b <> Gt -> String.compare b c <> Gt ->
              String.compare a c <> Gt.
Proof.
  induction a as [|x a IH]; intros [|y b] [|z c]; simpl; try congruence.
  destruct (Ascii.compare x y) eqn:Exy; try congruence;
    destruct (Ascii.compare y z) eqn:Eyz; try congruence;
    intros H1 H2.
  - apply Ascii.compare_eq_iff in Exy, Eyz. subst.
    replace (Ascii.compare z z) with Eq
      by (symmetry; unfold Ascii.compare; apply N.compare_refl).
    eapply IH; eassumption.
  - apply Ascii.compare_eq_iff in Exy. subst. rewrite Eyz. congruence.
  - apply Ascii.compare_eq_iff in Eyz. subst. rewrite Exy. congruence.
  - assert (T : Ascii.compare x z <> Gt)
      by (apply (ascii_compare_trans x y z); congruence).
    destruct (Ascii.compare x z) eqn:Exz; try congruence.
    apply Ascii.compare_eq_iff in Exz. subst.
    rewrite Ascii.compare_antisym, Exy in Eyz. discriminate.
Qed.

Lemma leb_trans (a b c : string) :
  Str.leb a b = true -> Str.leb b c = true -> Str.leb a c = true.
Proof.
  unfold Str.leb, String.leb. intros H1 H2.
  pose proof (string_compare_trans a b c) as T.
  destruct (String.compare a b); destruct (String.compare b c);
    destruct (String.compare a c); try reflexivity; try discriminate;
    exfalso; apply T; congruence.
Qed.

Lemma leb_false_flip (a b : string) : Str.leb a b = false -> Str.leb b a = true.
Proof.
  intros H. destruct (String.leb_total a b) as [E|E]; [|exact E].
  unfold Str.leb in H. congruence.
Qed.

(** ** [sorted] sorts, keeps the elements, and has one possible result *)

Section Sorting.
Context {A : Type} (key : A -> string).

Lemma insert_by_perm (x : A) (l : list A) :
  Permutation (x :: l) (insert_by key x l).
Proof.
  induction l as [|y l IH]; simpl; [reflexivity|].
  destruct (Str.leb (key x) (key y)); [reflexivity|].
  rewrite perm_swap. apply perm_skip, IH.
Qed.

Lemma sorted_perm (l : list A) : Permutation l (sorted l key).
Proof.
  induction l as [|x l IH]; simpl; [constructor|].
  rewrite <- insert_by_perm. apply perm_skip, IH.
Qed.

Lemma insert_by_sorted (x : A) (l : list A) :
  StronglySorted (Spec.key_le key) l -> StronglySorted (Spec.key_le key) (insert_by key x l).
Proof.
  induction 1 as [|y l Hs IH Hy]; simpl.
  - repeat constructor.
  - destruct (Str.leb (key x) (key y)) eqn:E.
    + constructor; [constructor; assumption|].
      constructor; [exact E|].
      eapply Forall_impl; [|exact Hy].
      intros z Hz. eapply leb_trans; eassumption.
    + constructor; [exact IH|].
      apply (Permutation_Forall (insert_by_perm x l)).
      constructor; [apply leb_false_flip, E | exact Hy].
Qed.

Lemma sorted_is_sorted (l : list A) : StronglySorted (Spec.key_le key) (sorted l key).
Proof.
  induction l as [|x l IH]; simpl; [constructor | apply insert_by_sorted, IH].
Qed.

(** Two sorted lists with the same elements are equal, as soon as two
    elements that compare equal are the same element. *)
Lemma sorted_unique (l : list A) :
  forall l',
    Permutation l l' ->
    StronglySorted (Spec.key_le key) l -> StronglySorted (Spec.key_le key) l' ->
    (forall x y, In x l -> In y l -> key x = key y -> x = y) ->
    l = l'.
Proof.
  induction l as [|x l IH]; intros l' Hp Hs Hs' Hinj.
  - apply Permutation_nil in Hp. congruence.
  - destruct l' as [|y l'];
      [apply Permutation_sym, Permutation_nil in Hp; discriminate|].
    apply StronglySorted_inv in Hs as [Hs Hx].
    apply StronglySorted_inv in Hs' as [Hs' Hy].
    assert (Exy : x = y).
    { assert (Hxin : In x (y :: l'))
        by (apply (Permutation_in _ Hp); left; reflexivity).
      assert (Hyin : In y (x :: l))
        by (apply (Permutation_in _ (Permutation_sym Hp)); left; reflexivity).
      destruct Hxin as [E|Hxin]; [congruence|].
      destruct Hyin as [E|Hyin]; [congruence|].
      apply Hinj; [left; reflexivity | right; exact Hyin |].
      apply String.leb_antisym.
      - exact (proj1 (Forall_forall _ _) Hx y Hyin).
      - exact (proj1 (Forall_forall _ _) Hy x Hxin). }
    subst y. f_equal.
    apply IH; try assumption.
    + eapply Permutation_cons_inv, Hp.
    + intros a b Ha Hb. apply Hinj; right; assumption.
Qed.

(** The sort is stable: the elements of one key keep their order. *)
Lemma insert_by_stable (s : string) (x : A) (l : list A) :
  filter (fun y => String.eqb (key y) s) (insert_by key x l)
  = filter (fun y => String.eqb (key y) s) (x :: l).
Proof.
  induction l as [|y l IH]; [reflexivity|].
  cbn [insert_by]. destruct (Str.leb (key x) (key y)) eqn:E; [reflexivity|].
  cbn [filter] in *. rewrite IH.
  destruct (String.eqb_spec (key x) s) as [Ex|_];
    destruct (String.eqb_spec (key y) s) as [Ey|_]; try reflexivity.
  exfalso. rewrite Ex, <- Ey in E.
  destruct (String.leb_total (key y) (key y)) as [T|T];
    unfold Str.leb in E; congruence.
Qed.

Lemma sorted_stable (s : string) (l : list A) :
  filter (fun y => String.eqb (key y) s) (sorted l key)
  = filter (fun y => String.eqb (key y) s) l.
Proof.
  induction l as [|x l IH]; [reflexivity|].
  cbn [sorted]. rewrite insert_by_stable. cbn [filter]. rewrite IH. reflexivity.
Qed.

Lemma NoDup_key_injective (l : list A) :
  NoDup (map key l) ->
  forall x y, In x l -> In y l -> key x = key y -> x = y.
Proof.
  induction l as [|a l IH]; intros Hnd x y Hx Hy E; [contradiction|].
  simpl in Hnd. apply NoDup_cons_iff in Hnd as [Hn Hnd].
  destruct Hx as [->|Hx]; destruct Hy as [->|Hy].
  - reflexivity.
  - exfalso. apply Hn. rewrite E. apply in_map, Hy.
  - exfalso. apply Hn. rewrite <- E. apply in_map, Hx.
  - apply IH; assumption.
Qed.

(** With pairwise distinct keys the result does not depend on the order
    of the input. *)
Lemma sorted_order_independent (l l' : list A) :
  Permutation l l' -> NoDup (map key l) -> sorted l key = sorted l' key.
Proof.
  intros Hp Hnd. apply sorted_unique.
  - rewrite <- (sorted_perm l), <- (sorted_perm l'). exact Hp.
  - apply sorted_is_sorted.
  - apply sorted_is_sorted.
  - apply NoDup_key_injective.
    apply (Permutation_NoDup (Permutation_map key (sorted_perm l))), Hnd.
Qed.

End Sorting.

(** The keys come out in one order, whatever the order of the input. *)
Lemma sorted_keys_order_independent {A} (key : A -> string) (l l' : list A) :
  Permutation l l' -> map key (sorted l key) = map key (sorted l' key).
Proof.
  intros Hp.
  assert (Hmap : forall m, StronglySorted (Spec.key_le (fun s : string => s))
                             (map key (sorted m key))).
  { intros m. pose proof (sorted_is_sorted key m) as Hs.
    induction Hs as [|x xs Hs IH Hx]; simpl; constructor; [exact IH|].
    apply Forall_map. exact Hx. }
  apply (sorted_unique (fun s : string => s)).
  - apply Permutation_map.
    rewrite <- (sorted_perm key l), <- (sorted_perm key l'). exact Hp.
  - apply Hmap.
  - apply Hmap.
  - intros x y _ _ E. exact E.
Qed.
(** ** What [glob] yields lies under the directory it starts from *)

Lemma node_induction (P : node -> Prop) :
  P File ->
  (forall es, Forall (fun e => P (snd e)) es -> P (Dir es)) ->
  forall n, P n.
Proof.
  intros Hfile Hdir. fix IH 1. intros [|es].
  - exact Hfile.
  - apply Hdir. induction es as [|e es IHes]; constructor.
    + apply IH.
    + exact IHes.
Qed.

Lemma extends_refl (p : Path) : Spec.extends p p.
Proof.
  split; [reflexivity|]. exists []. symmetry. apply app_nil_r.
Qed.

Lemma extends_trans (p q r : Path) :
  Spec.extends p q -> Spec.extends q r -> Spec.extends p r.
Proof.
  intros [R1 [e1 E1]] [R2 [e2 E2]]. split; [congruence|].
  exists (e1 ++ e2). rewrite E2, E1. symmetry. apply app_assoc.
Qed.

Lemma extends_child (p : Path) (name : string) :
  Spec.extends p (make_child_relpath p name).
Proof.
  split; [reflexivity|]. exists [name]. reflexivity.
Qed.

Lemma directories_extends (n : node) :
  forall parent q, In q (Spec.directories parent n) -> Spec.extends parent q.
Proof.
  induction n as [|es IH] using node_induction; intros parent q Hin.
  - destruct Hin as [<-|[]]. apply extends_refl.
  - simpl in Hin. destruct Hin as [<-|Hin]; [apply extends_refl|].
    apply in_flat_map in Hin as [e [He Hq]].
    destruct (is_dir_node (snd e)); [|contradiction].
    apply (extends_trans _ (make_child_relpath parent (fst e))).
    + apply extends_child.
    + exact (proj1 (Forall_forall _ _) IH e He _ _ Hq).
Qed.

(** *** Generators *)

Lemma and_then_yields (a b : Glob.stream) (p : Path) :
  In p (fst (Glob.and_then a b)) -> In p (fst a) \/ In p (fst b).
Proof.
  destruct a as [l [e|]]; simpl; [tauto|]. apply in_app_or.
Qed.

Lemma and_then_finished (l : list Path) (b : Glob.stream) :
  Glob.and_then (l, None) b = (l ++ fst b, snd b).
Proof. reflexivity. Qed.

Lemma for_each_yields {A} (f : A -> Glob.stream) (l : list A) (p : Path) :
  In p (fst (Glob.for_each f l)) -> exists a, In a l /\ In p (fst (f a)).
Proof.
  induction l as [|a l IH]; cbn [Glob.for_each]; [intros []|].
  intros H. apply and_then_yields in H as [H|H].
  - exists a. split; [left; reflexivity | exact H].
  - destruct (IH H) as [b [Hb Hp]]. exists b. split; [right; exact Hb | exact Hp].
Qed.

(** A loop whose every round ends without an exception yields what its
    rounds yield, one after the other. *)
Lemma for_each_finished {A} (f : A -> Glob.stream) (g : A -> list Path)
  (l : list A) :
  (forall a, In a l -> f a = (g a, None)) ->
  Glob.for_each f l = (flat_map g l, None).
Proof.
  induction l as [|a l IH]; intros H; cbn [Glob.for_each flat_map]; [reflexivity|].
  rewrite (H a (or_introl eq_refl)), IH; [reflexivity|].
  intros b Hb. apply H. right. exact Hb.
Qed.

Lemma except_PermissionError_yields (body : Glob.stream) :
  fst (Glob.except_PermissionError body) = fst body.
Proof.
  destruct body as [l [e|]]; simpl; [|reflexivity].
  destruct (is_PermissionError e); reflexivity.
Qed.

Lemma except_PermissionError_finished (l : list Path) :
  Glob.except_PermissionError (l, None) = (l, None).
Proof. reflexivity. Qed.

(** What the recursive selector yields, its successor yields from one of
    the directories of the walk. *)
Lemma select_recursively_yields (fs : filesystem) (successor : Path -> Glob.stream)
  (n : node) :
  forall parent p,
    In p (fst (Glob.select_recursively fs successor parent n)) ->
    exists start, In start (Spec.directories parent n) /\
                  In p (fst (successor start)).
Proof.
  induction n as [|es IH] using node_induction; intros parent p Hin.
  - cbn [Glob.select_recursively] in Hin. apply and_then_yields in Hin as [Hin|Hin].
    + exists parent. split; [left; reflexivity | exact Hin].
    + destruct (fault fs Scandir (Path_str parent)) as [e|];
        [destruct (is_PermissionError e)|]; contradiction.
  - cbn [Glob.select_recursively] in Hin. apply and_then_yields in Hin as [Hin|Hin].
    + exists parent. split; [left; reflexivity | exact Hin].
    + destruct (fault fs Scandir (Path_str parent)) as [e|];
        [destruct (is_PermissionError e); contradiction|].
      apply for_each_yields in Hin as [e [He Hin]].
      destruct (is_dir_node (snd e)) eqn:Ed; [|contradiction].
      destruct (proj1 (Forall_forall _ _) IH e He _ _ Hin) as [start [Hs Hp]].
      exists start. split; [|exact Hp].
      cbn [Spec.directories]. right. apply in_flat_map.
      exists e. split; [exact He|]. rewrite Ed. exact Hs.
Qed.

Lemma iterate_directories_yields (fs : filesystem)
  (successor : Path -> Glob.stream) (parent p : Path) :
  In p (fst (Glob.iterate_directories fs successor parent)) ->
  exists start, In p (fst (successor start)) /\
                (start = parent \/
                 exists n, lookup fs parent = Some n /\
                           In start (Spec.directories parent n)).
Proof.
  unfold Glob.iterate_directories. destruct (lookup fs parent) as [n|].
  - intros Hin. apply select_recursively_yields in Hin as [start [Hs Hp]].
    exists start. split; [exact Hp|]. right. exists n. split; [reflexivity | exact Hs].
  - intros Hin. apply and_then_yields in Hin as [Hin|Hin].
    + exists parent. split; [exact Hin | left; reflexivity].
    + destruct (scandir fs parent) as [es|e];
        [|destruct (is_PermissionError e)]; contradiction.
Qed.

Lemma dedup_subset (l : list Path) :
  forall yielded p, In p (Glob.dedup yielded l) -> In p l.
Proof.
  induction l as [|a l IH]; intros yielded p Hin; [exact Hin|].
  simpl in Hin. destruct (existsb (Path_eqb a) yielded).
  - right. eapply IH, Hin.
  - destruct Hin as [<-|Hin]; [left; reflexivity | right; eapply IH, Hin].
Qed.

Lemma select_from_extends (fs : filesystem) (sels : list Glob.selector) :
  forall parent p, In p (fst (Glob.select_from fs sels parent)) ->
                   Spec.extends parent p.
Proof.
  induction sels as [|sel rest IH]; intros parent p Hin.
  - destruct Hin as [<-|[]]. apply extends_refl.
  - destruct sel as [|name|pat|]; cbn [Glob.select_from] in Hin.
    + destruct Hin as [<-|[]]. apply extends_refl.
    + rewrite except_PermissionError_yields in Hin.
      match type of Hin with
      | In _ (fst (match ?c with _ => _ end)) =>
          destruct c as [[|]|e]; try contradiction
      end.
      eapply extends_trans; [apply extends_child | apply IH, Hin].
    + rewrite except_PermissionError_yields in Hin.
      destruct (scandir fs parent) as [entries|e]; [|contradiction].
      apply for_each_yields in Hin as [e [_ Hp]].
      destruct (_ && _); [contradiction|].
      destruct (Fnmatch.fnmatch (fst e) pat); [|contradiction].
      eapply extends_trans; [apply extends_child | apply IH, Hp].
    + rewrite except_PermissionError_yields in Hin. cbn [fst] in Hin.
      apply dedup_subset, iterate_directories_yields in Hin
        as [start [Hp [->|[n [_ Hs]]]]].
      * apply IH, Hp.
      * eapply extends_trans; [eapply directories_extends, Hs | apply IH, Hp].
Qed.

(** The pattern of [list_datasets] is well formed: the walk starts when
    the root is a directory. *)
Lemma glob_all_vrt (fs : filesystem) (d : Path) :
  Glob.glob fs d "**/*.vrt"
  = match is_dir fs d with
    | Raise e => Glob.raising e
    | Ok true => Glob.select_from fs [Glob.Recursive; Glob.Wildcard "*.vrt"] d
    | Ok false => Glob.finished
    end.
Proof. reflexivity. Qed.

Lemma glob_all_vrt_extends (fs : filesystem) (d : Path) :
  Forall (Spec.extends d) (fst (Glob.glob fs d "**/*.vrt")).
Proof.
  rewrite glob_all_vrt. apply Forall_forall. intros p Hin.
  destruct (is_dir fs d) as [[|]|e]; try contradiction.
  exact (select_from_extends fs [Glob.Recursive; Glob.Wildcard "*.vrt"] d p Hin).
Qed.

Lemma drop_prefix_app (pre rest : list string) :
  drop_prefix pre (pre ++ rest) = Some rest.
Proof.
  induction pre as [|a pre IH]; simpl; [reflexivity|].
  rewrite String.eqb_refl. exact IH.
Qed.

(** [relative_to] does not raise on a path under the directory. *)
Lemma relative_to_extends (d p : Path) :
  Spec.extends d p -> exists rel, relative_to p d = Some rel.
Proof.
  intros [R [extra E]]. unfold relative_to. rewrite R, E.
  destruct (String.eqb (root d) "") eqn:Er.
  - destruct (parts d) as [|a ps] eqn:Ep.
    + eexists. reflexivity.
    + rewrite <- Ep, drop_prefix_app. eexists. reflexivity.
  - simpl. rewrite String.eqb_refl, drop_prefix_app. eexists. reflexivity.
Qed.

Lemma dataset_entries_total (d : Path) (vrts : list Path) :
  Forall (Spec.extends d) vrts ->
  dataset_entries d vrts = Ok (map (Spec.entry_of d) vrts).
Proof.
  induction 1 as [|p l Hp _ IH]; simpl; [reflexivity|].
  destruct (relative_to_extends d p Hp) as [rel E].
  unfold Spec.entry_of. rewrite E, IH. reflexivity.
Qed.

(** ** The listing *)

Lemma entry_name_of (d p : Path) : Spec.entry_name (Spec.entry_of d p) = stem p.
Proof. reflexivity. Qed.

(** The listing when the walk ends without an exception. *)
Lemma list_datasets_run (w : world) (vrts : list Path) :
  Glob.glob (fs w) (DATA_DIR w) "**/*.vrt" = (vrts, None) ->
  list_datasets w
  = ([], Ok (RetDict (VDict [("datasets",
                              VList (map (Spec.entry_of (DATA_DIR w))
                                         (sorted vrts stem)))]))).
Proof.
  intros Hg. unfold list_datasets. rewrite Hg, bind_lift. cbn [Glob.to_list].
  unfold list_datasets_of. rewrite bind_lift.
  rewrite dataset_entries_total; [reflexivity|].
  apply (Permutation_Forall (sorted_perm stem vrts)).
  pose proof (glob_all_vrt_extends (fs w) (DATA_DIR w)) as H.
  rewrite Hg in H. exact H.
Qed.

(** The listing when the walk is ended by an exception. *)
Lemma list_datasets_fails (w : world) (vrts : list Path) (e : exn) :
  Glob.glob (fs w) (DATA_DIR w) "**/*.vrt" = (vrts, Some e) ->
  list_datasets w = ([], Raise e).
Proof.
  intros Hg. unfold list_datasets. rewrite Hg, bind_lift. reflexivity.
Qed.

(** ** Path resolution, one component further *)

Lemma node_at_snoc (loc : list string) (x : string) :
  forall t, node_at t (loc ++ [x])
            = match node_at t loc with
              | Some (Dir es) => lookup_entry x es
              | _ => None
              end.
Proof.
  induction loc as [|a loc IH]; intros t; simpl.
  - destruct t as [|es]; [reflexivity|].
    destruct (lookup_entry x es); reflexivity.
  - destruct t as [|es]; [reflexivity|].
    destruct (lookup_entry a es) as [c|]; [apply IH | reflexivity].
Qed.

Lemma walk_nowhere (t : node) (loc ps : list string) :
  node_at t loc = None -> walk t loc ps = None.
Proof.
  intros H. destruct ps; simpl; rewrite H; reflexivity.
Qed.

Lemma walk_app (t : node) (ps qs : list string) :
  forall loc, walk t loc (ps ++ qs)
              = match walk t loc ps with
                | Some loc' => walk t loc' qs
                | None => None
                end.
Proof.
  induction ps as [|p ps IH]; intros loc.
  - simpl. destruct (node_at t loc) eqn:E; [reflexivity|].
    apply walk_nowhere, E.
  - simpl. destruct (node_at t loc) as [[|es]|]; try reflexivity.
    destruct (String.eqb p ".."); [apply IH|].
    destruct (String.eqb p "." || String.eqb p ""); [apply IH|].
    destruct (lookup_entry p es); [apply IH | reflexivity].
Qed.

Lemma valid_name_cases (name : string) :
  Spec.valid_name name = true ->
  String.eqb name ".." = false /\ String.eqb name "." = false /\
  String.eqb name "" = false.
Proof.
  unfold Spec.valid_name. intros H.
  apply andb_prop in H as [H _]. apply andb_prop in H as [H H2].
  apply andb_prop in H as [H0 H1].
  apply negb_true_iff in H0, H1, H2. auto.
Qed.

(** What lies at a child path is the entry of that name in the directory. *)
Lemma lookup_child (fs : filesystem) (q : Path) (name : string) :
  Spec.valid_name name = true ->
  lookup fs (make_child_relpath q name)
  = match lookup fs q with
    | Some (Dir es) => lookup_entry name es
    | _ => None
    end.
Proof.
  intros Hv. destruct (valid_name_cases name Hv) as [N2 [N1 N0]].
  unfold lookup, locate, make_child_relpath. cbn [root parts].
  rewrite walk_app.
  destruct (walk (tree fs) _ (parts q)) as [loc|] eqn:Ew; [|reflexivity].
  cbn [walk]. destruct (node_at (tree fs) loc) as [[|es]|] eqn:En; try reflexivity.
  rewrite N2, N1, N0. cbn [orb].
  pose proof (node_at_snoc loc name (tree fs)) as Hs. rewrite En in Hs.
  destruct (lookup_entry name es) as [c|] eqn:El; [|reflexivity].
  rewrite Hs. exact Hs.
Qed.

Lemma lookup_entry_found (t : string) (es : list (string * node)) :
  (match lookup_entry t es with Some _ => true | None => false end)
  = existsb (fun e => String.eqb (fst e) t) es.
Proof.
  induction es as [|[k n] es IH]; simpl; [reflexivity|].
  destruct (String.eqb k t); [reflexivity | exact IH].
Qed.

Lemma lookup_entry_unique (es : list (string * node)) :
  NoDup (map fst es) ->
  forall name c, In (name, c) es -> lookup_entry name es = Some c.
Proof.
  induction es as [|[k n] es IH]; intros Hnd name c Hin; [contradiction|].
  simpl in Hnd. apply NoDup_cons_iff in Hnd as [Hk Hnd]. simpl.
  destruct Hin as [E|Hin].
  - injection E as -> ->. rewrite String.eqb_refl. reflexivity.
  - destruct (String.eqb_spec k name) as [->|_]; [|apply IH; assumption].
    exfalso. apply Hk. apply (in_map fst) in Hin. exact Hin.
Qed.

Lemma wf_dir (es : list (string * node)) :
  Spec.wf_node (Dir es) = true ->
  NoDup (map fst es) /\
  forall e, In e es -> Spec.valid_name (fst e) = true /\ Spec.wf_node (snd e) = true.
Proof.
  cbn [Spec.wf_node]. intros H.
  apply andb_prop in H as [H Hw]. apply andb_prop in H as [Hv Hn].
  split.
  - destruct (ListDec.NoDup_dec string_dec (map fst es)); [assumption|discriminate].
  - intros e He. split.
    + exact (proj1 (forallb_forall _ _) Hv e He).
    + exact (proj1 (forallb_forall _ _) Hw e He).
Qed.

Lemma lookup_entry_in (name : string) (es : list (string * node)) (c : node) :
  lookup_entry name es = Some c -> In (name, c) es.
Proof.
  induction es as [|[k n] es IH]; simpl; [discriminate|].
  destruct (String.eqb_spec k name) as [->|_].
  - intros E. injection E as ->. left. reflexivity.
  - intros E. right. apply IH, E.
Qed.

Lemma wf_node_at (loc : list string) :
  forall t m, Spec.wf_node t = true -> node_at t loc = Some m ->
              Spec.wf_node m = true.
Proof.
  induction loc as [|x loc IH]; intros t m Hw; simpl.
  - intros E. injection E as <-. exact Hw.
  - destruct t as [|es]; [discriminate|].
    destruct (lookup_entry x es) as [c|] eqn:El; [|discriminate].
    apply IH. apply lookup_entry_in in El.
    exact (proj2 (proj2 (wf_dir es Hw) _ El)).
Qed.

Lemma wf_lookup (fs : filesystem) (q : Path) (m : node) :
  Spec.wf_node (tree fs) = true -> lookup fs q = Some m -> Spec.wf_node m = true.
Proof.
  unfold lookup. intros Hw. destruct (locate fs q) as [loc|]; [|discriminate].
  apply wf_node_at, Hw.
Qed.
(** ** A walk the system refuses nothing to *)

Lemma flat_map_ext_in {A B} (f g : A -> list B) (l : list A) :
  (forall a, In a l -> f a = g a) -> flat_map f l = flat_map g l.
Proof.
  induction l as [|a l IH]; intros H; simpl; [reflexivity|].
  rewrite (H a (or_introl eq_refl)), IH; [reflexivity|].
  intros b Hb. apply H. right. exact Hb.
Qed.

Lemma flat_map_flat_map {A B C} (f : B -> list C) (g : A -> list B) (l : list A) :
  flat_map f (flat_map g l) = flat_map (fun a => flat_map f (g a)) l.
Proof.
  induction l as [|a l IH]; simpl; [reflexivity|].
  rewrite flat_map_app, IH. reflexivity.
Qed.

Lemma no_fault_none (f : option exn) : Spec.no_fault f = true -> f = None.
Proof. destruct f; [discriminate | reflexivity]. Qed.

(** [exists], [is_dir] and [scandir] when the system answers the call. *)
Lemma exists_answered (fs : filesystem) (p : Path) :
  fault fs Stat (Path_str p) = None -> Path_exists fs p = Ok (Spec.on_disk fs p).
Proof.
  intros H. unfold Path_exists, stat, Spec.on_disk. rewrite H.
  destruct (lookup fs p); reflexivity.
Qed.

Lemma is_dir_answered (fs : filesystem) (p : Path) :
  fault fs Stat (Path_str p) = None ->
  is_dir fs p = Ok (match lookup fs p with
                    | Some n => is_dir_node n
                    | None => false
                    end).
Proof.
  intros H. unfold is_dir, stat. rewrite H. destruct (lookup fs p); reflexivity.
Qed.

Lemma scandir_answered (fs : filesystem) (p : Path) (es : list (string * node)) :
  fault fs Scandir (Path_str p) = None -> lookup fs p = Some (Dir es) ->
  scandir fs p = Ok es.
Proof.
  intros H E. unfold scandir. rewrite H, E. reflexivity.
Qed.

(** What exists is on the disk, whatever the system refuses. *)
Lemma exists_on_disk (fs : filesystem) (p : Path) :
  Path_exists fs p = Ok true -> Spec.on_disk fs p = true.
Proof.
  unfold Path_exists, stat, Spec.on_disk.
  destruct (fault fs Stat (Path_str p)); [discriminate|].
  destruct (lookup fs p); [reflexivity | discriminate].
Qed.

(** The last selector of the listing pattern, at one directory. *)
Lemma select_wildcard (files : filesystem) (pat : string) (start : Path) :
  Glob.select_from files [Glob.Wildcard pat] start
  = Glob.except_PermissionError
      (match scandir files start with
       | Raise e => Glob.raising e
       | Ok entries =>
           Glob.for_each (fun e => if Fnmatch.fnmatch (fst e) pat
                                   then ([make_child_relpath start (fst e)], None)
                                   else Glob.finished)
                         entries
       end).
Proof. reflexivity. Qed.

Lemma select_wildcard_listed (files : filesystem) (pat : string) (start : Path)
  (es : list (string * node)) :
  scandir files start = Ok es ->
  Glob.select_from files [Glob.Wildcard pat] start
  = (flat_map (fun e => if Fnmatch.fnmatch (fst e) pat
                        then [make_child_relpath start (fst e)] else []) es,
     None).
Proof.
  intros H. rewrite select_wildcard, H.
  rewrite (for_each_finished _
             (fun e => if Fnmatch.fnmatch (fst e) pat
                       then [make_child_relpath start (fst e)] else [])).
  - reflexivity.
  - intros a _. destruct (Fnmatch.fnmatch (fst a) pat); reflexivity.
Qed.

(** The last selector of the fallback pattern, at one directory. *)
Lemma select_precise (fs : filesystem) (t : string) (start : Path) :
  Glob.select_from fs [Glob.Precise t] start
  = Glob.except_PermissionError
      (match Path_exists fs (make_child_relpath start t) with
       | Raise e => Glob.raising e
       | Ok true => ([make_child_relpath start t], None)
       | Ok false => Glob.finished
       end).
Proof. reflexivity. Qed.

Lemma select_precise_answered (fs : filesystem) (t : string) (start : Path) :
  fault fs Stat (Path_str (make_child_relpath start t)) = None ->
  Glob.select_from fs [Glob.Precise t] start
  = (if Spec.on_disk fs (make_child_relpath start t)
     then [make_child_relpath start t] else [], None).
Proof.
  intros H. rewrite select_precise, (exists_answered _ _ H).
  destruct (Spec.on_disk fs (make_child_relpath start t)); reflexivity.
Qed.

Lemma select_precise_yields (fs : filesystem) (t : string) (start p : Path) :
  In p (fst (Glob.select_from fs [Glob.Precise t] start)) ->
  p = make_child_relpath start t /\ Path_exists fs p = Ok true.
Proof.
  rewrite select_precise, except_PermissionError_yields.
  destruct (Path_exists fs (make_child_relpath start t)) as [[|]|e] eqn:E;
    try contradiction.
  intros [<-|[]]. split; [reflexivity | exact E].
Qed.

Lemma select_recursive (fs : filesystem) (rest : list Glob.selector) (d : Path) :
  Glob.select_from fs (Glob.Recursive :: rest) d
  = Glob.except_PermissionError
      (Glob.dedup []
         (fst (Glob.iterate_directories fs (Glob.select_from fs rest) d)),
       snd (Glob.iterate_directories fs (Glob.select_from fs rest) d)).
Proof. reflexivity. Qed.

(** When no directory of the walk is refused and the successor ends
    without an exception in each of them, the recursive selector yields
    what the successor yields, directory after directory. *)
Lemma select_recursively_finished (fs : filesystem)
  (successor : Path -> Glob.stream) (n : node) :
  forall parent,
    is_dir_node n = true ->
    (forall start, In start (Spec.directories parent n) ->
                   snd (successor start) = None /\
                   fault fs Scandir (Path_str start) = None) ->
    Glob.select_recursively fs successor parent n
    = (flat_map (fun start => fst (successor start)) (Spec.directories parent n),
       None).
Proof.
  induction n as [|es IH] using node_induction; intros parent Hd H;
    [discriminate Hd|].
  cbn [Glob.select_recursively Spec.directories flat_map].
  destruct (H parent (or_introl eq_refl)) as [Hs Hf]. rewrite Hf.
  destruct (successor parent) as [l0 t0] eqn:E. cbn [snd] in Hs. subst t0.
  rewrite and_then_finished. cbn [fst].
  rewrite (for_each_finished _
             (fun e => if is_dir_node (snd e)
                       then flat_map (fun start => fst (successor start))
                              (Spec.directories
                                 (make_child_relpath parent (fst e)) (snd e))
                       else [])).
  - cbn [fst snd]. rewrite flat_map_flat_map. f_equal. f_equal.
    apply flat_map_ext. intros e. destruct (is_dir_node (snd e)); reflexivity.
  - intros e He. destruct (is_dir_node (snd e)) eqn:Ed; [|reflexivity].
    apply (proj1 (Forall_forall _ _) IH e He); [exact Ed|].
    intros start Hs'. apply H. cbn [Spec.directories]. right.
    apply in_flat_map. exists e. split; [exact He|]. rewrite Ed. exact Hs'.
Qed.

(** In a walk the system refuses nothing to, every directory of the walk
    is found where the tree has it, and is listed. *)
Lemma directories_quiet (fs : filesystem) (target : option string) (m : node) :
  forall parent,
    Spec.wf_node m = true -> is_dir_node m = true ->
    lookup fs parent = Some m ->
    Spec.quiet_node fs target parent m = true ->
    forall start, In start (Spec.directories parent m) ->
      (exists es, lookup fs start = Some (Dir es)) /\
      fault fs Scandir (Path_str start) = None /\
      (forall t, target = Some t ->
                 fault fs Stat (Path_str (make_child_relpath start t)) = None).
Proof.
  induction m as [|es IH] using node_induction;
    intros parent Hw Hd Hst Hq start Hin; [discriminate Hd|].
  cbn [Spec.quiet_node] in Hq.
  apply andb_prop in Hq as [Hq Hsub]. apply andb_prop in Hq as [Hscan Htarget].
  cbn [Spec.directories] in Hin. destruct Hin as [<-|Hin].
  - split; [exists es; exact Hst|]. split; [apply no_fault_none, Hscan|].
    intros t ->. apply no_fault_none, Htarget.
  - apply in_flat_map in Hin as [e [He Hin]].
    destruct (is_dir_node (snd e)) eqn:Ed; [|contradiction].
    destruct (wf_dir es Hw) as [Hnd Hall]. destruct (Hall e He) as [Hname Hwc].
    apply (proj1 (Forall_forall _ _) IH e He
             (make_child_relpath parent (fst e)) Hwc Ed); [| |exact Hin].
    + rewrite (lookup_child fs parent (fst e) Hname), Hst.
      apply lookup_entry_unique; [exact Hnd|]. destruct e; exact He.
    + pose proof (proj1 (forallb_forall _ _) Hsub e He) as Hqe.
      cbv beta in Hqe. rewrite Ed in Hqe. exact Hqe.
Qed.

(** The walk of the listing pattern, when the system refuses nothing. *)
Lemma listing_walk (fs : filesystem) (d : Path) :
  Spec.wf_node (tree fs) = true ->
  Spec.quiet fs None d = true ->
  Glob.glob fs d "**/*.vrt"
  = (match lookup fs d with
     | Some (Dir es) =>
         Glob.dedup []
           (flat_map (fun start =>
                        fst (Glob.select_from fs [Glob.Wildcard "*.vrt"] start))
                     (Spec.directories d (Dir es)))
     | _ => []
     end, None).
Proof.
  intros Hw Hq. unfold Spec.quiet in Hq.
  apply andb_prop in Hq as [Hq Hnode]. apply andb_prop in Hq as [Hstat _].
  apply no_fault_none in Hstat.
  rewrite glob_all_vrt, (is_dir_answered fs d Hstat).
  destruct (lookup fs d) as [[|es]|] eqn:Hst; try reflexivity.
  cbn [is_dir_node]. rewrite select_recursive.
  unfold Glob.iterate_directories. rewrite Hst.
  rewrite (select_recursively_finished fs _ (Dir es) d eq_refl); [reflexivity|].
  intros start Hs.
  destruct (directories_quiet fs None (Dir es) d (wf_lookup _ _ _ Hw Hst) eq_refl
              Hst Hnode start Hs) as [[es' Hes] [Hf _]].
  split; [|exact Hf].
  rewrite (select_wildcard_listed fs "*.vrt" start es'
             (scandir_answered fs start es' Hf Hes)).
  reflexivity.
Qed.

(** ** The listing: what the walk yields, sorted *)

Lemma NoDup_dec_true (l : list string) :
  NoDup l -> (if ListDec.NoDup_dec string_dec l then true else false) = true.
Proof.
  intros H. destruct (ListDec.NoDup_dec string_dec l); [reflexivity|contradiction].
Qed.

Lemma demo_tree_wf : Spec.wf_node Fixtures.demo_tree = true.
Proof.
  unfold Fixtures.demo_tree. cbn [Spec.wf_node forallb map fst snd].
  rewrite !NoDup_dec_true; try reflexivity;
    repeat constructor; simpl; intuition discriminate.
Qed.

(** The walk of a tree nested beyond [PATH_MAX] is ended by the
    [OSError] of the listing of a directory whose path is too long. *)
Lemma deep_listing_fails :
  fst (list_datasets Fixtures.world_deep) = [] /\
  match snd (list_datasets Fixtures.world_deep) with
  | Raise e => cls e = OtherError "OSError"
  | Ok _ => False
  end.
Proof.
  vm_compute. split; reflexivity.
Qed.

(** Counterexample to C7.  Two directories [a] and [b] under the root
    hold a file [x.vrt] each: enumerated as [a], [b] the listing puts
    [a/x.vrt] first; enumerated as [b], [a] it puts [b/x.vrt] first.  And
    the listing fails on a root directory nested beyond [PATH_MAX]: the
    [OSError] of the walk leaves the handler, the client gets a 500. *)
Lemma listing_follows_enumeration_of_twins :
  Glob.glob Fixtures.twins_ab (DATA_DIR Fixtures.world_ab) "**/*.vrt"
  = ([Path_of "/data/a/x.vrt"; Path_of "/data/b/x.vrt"], None) /\
  Glob.glob Fixtures.twins_ba (DATA_DIR Fixtures.world_ba) "**/*.vrt"
  = ([Path_of "/data/b/x.vrt"; Path_of "/data/a/x.vrt"], None) /\
  list_datasets Fixtures.world_ab <> list_datasets Fixtures.world_ba /\
  ~ Spec.listing_ignores_enumeration /\
  (exists e, list_datasets Fixtures.world_deep = ([], Raise e) /\
             cls e = OtherError "OSError") /\
  http_status (list_datasets Fixtures.world_deep) = 500%Z /\
  ~ Spec.listing_never_fails.
Proof.
  split; [reflexivity|]. split; [reflexivity|]. split; [discriminate|].
  split.
  { intros H.
    specialize (H (Path_of "/data")
                  [Path_of "/data/a/x.vrt"; Path_of "/data/b/x.vrt"]
                  [Path_of "/data/b/x.vrt"; Path_of "/data/a/x.vrt"]
                  (perm_swap _ _ _)).
    discriminate H. }
  destruct deep_listing_fails as [Ht Hr].
  destruct (list_datasets Fixtures.world_deep) as [t [d|e]] eqn:E;
    cbn [fst snd] in Ht, Hr; [contradiction|]. subst t.
  split; [exists e; split; [reflexivity | exact Hr]|].
  split; [reflexivity|].
  intros H. destruct (H Fixtures.world_deep) as [d Hd].
  rewrite E in Hd. discriminate Hd.
Qed.

(** C7, amended: the listing fails when the walk of the root directory
    fails, and only then: the exception of the walk leaves the handler (a
    500).  When the walk ends, the listing returns one entry per
    enumerated [.vrt] file, sorted by derived name (the file name without
    its extension); the sequence of names does not depend on the order of
    enumeration, and neither does the whole listing when the derived
    names are pairwise distinct; entries of equal name keep the order of
    enumeration.  On a well-formed tree of files and directories the walk
    ends when the system refuses no call on the root directory and on the
    directories under it.  A root directory that is missing or empty
    yields the empty sequence. *)
Theorem listing_sorted_by_name (w : world) :
  (forall vrts,
      Glob.glob (fs w) (DATA_DIR w) "**/*.vrt" = (vrts, None) ->
      exists entries,
        list_datasets w = ([], Ok (RetDict (VDict [("datasets", VList entries)]))) /\
        Permutation (map (Spec.entry_of (DATA_DIR w)) vrts) entries /\
        StronglySorted (Spec.key_le Spec.entry_name) entries /\
        (forall vrts', Permutation vrts vrts' ->
           map Spec.entry_name entries = map stem (sorted vrts' stem) /\
           (NoDup (map stem vrts) ->
            list_datasets_of (DATA_DIR w) vrts' = list_datasets w)) /\
        (forall name,
           filter (fun e => String.eqb (Spec.entry_name e) name) entries
           = map (Spec.entry_of (DATA_DIR w))
                 (filter (fun p => String.eqb (stem p) name) vrts))) /\
  (forall vrts e,
      Glob.glob (fs w) (DATA_DIR w) "**/*.vrt" = (vrts, Some e) ->
      list_datasets w = ([], Raise e) /\
      http_status (list_datasets w) = 500%Z) /\
  (Spec.wf_node (tree (fs w)) = true ->
   Spec.quiet (fs w) None (DATA_DIR w) = true ->
   exists vrts, Glob.glob (fs w) (DATA_DIR w) "**/*.vrt" = (vrts, None)) /\
  (is_dir (fs w) (DATA_DIR w) = Ok false ->
   list_datasets w = ([], Ok (RetDict (VDict [("datasets", VList [])])))) /\
  (is_dir (fs w) (DATA_DIR w) = Ok true ->
   scandir (fs w) (DATA_DIR w) = Ok [] ->
   list_datasets w = ([], Ok (RetDict (VDict [("datasets", VList [])])))).
Proof.
  split; [|split; [|split; [|split]]].
  - intros vrts Hg.
    exists (map (Spec.entry_of (DATA_DIR w)) (sorted vrts stem)).
    split; [apply list_datasets_run, Hg|].
    split; [apply Permutation_map, sorted_perm|].
    split; [|split].
    + pose proof (sorted_is_sorted stem vrts) as Hs.
      induction Hs as [|x xs Hs IH Hx]; simpl; constructor; [exact IH|].
      apply Forall_map. exact Hx.
    + intros vrts' Hp. split.
      * rewrite map_map.
        rewrite (map_ext _ stem (entry_name_of (DATA_DIR w))).
        apply sorted_keys_order_independent, Hp.
      * intros Hnd. rewrite (list_datasets_run w vrts Hg).
        unfold list_datasets_of. rewrite bind_lift.
        rewrite <- (sorted_order_independent stem vrts vrts' Hp Hnd).
        rewrite dataset_entries_total; [reflexivity|].
        apply (Permutation_Forall (sorted_perm stem vrts)).
        pose proof (glob_all_vrt_extends (fs w) (DATA_DIR w)) as H.
        rewrite Hg in H. exact H.
    + intros name. rewrite <- (sorted_stable stem name vrts).
      induction (sorted vrts stem) as [|p l IH]; [reflexivity|].
      cbn [map filter]. rewrite entry_name_of, IH.
      destruct (String.eqb (stem p) name); reflexivity.
  - intros vrts e Hg. rewrite (list_datasets_fails w vrts e Hg).
    split; reflexivity.
  - intros Hw Hq. eexists. apply (listing_walk (fs w) (DATA_DIR w) Hw Hq).
  - intros Hd. apply (list_datasets_run w []).
    rewrite glob_all_vrt, Hd. reflexivity.
  - intros Hd Hsc. apply (list_datasets_run w []).
    rewrite glob_all_vrt, Hd, select_recursive.
    assert (Hl : lookup (fs w) (DATA_DIR w) = Some (Dir []) /\
                 fault (fs w) Scandir (Path_str (DATA_DIR w)) = None).
    { unfold scandir in Hsc.
      destruct (fault (fs w) Scandir (Path_str (DATA_DIR w))); [discriminate|].
      destruct (lookup (fs w) (DATA_DIR w)) as [[|es]|]; try discriminate.
      split; [congruence | reflexivity]. }
    destruct Hl as [Hl Hf].
    unfold Glob.iterate_directories. rewrite Hl.
    cbn [Glob.select_recursively]. rewrite Hf.
    rewrite (select_wildcard_listed (fs w) "*.vrt" (DATA_DIR w) [] Hsc).
    reflexivity.
Qed.

Lemma listing_sorted_by_name_witness :
  (exists entries,
      list_datasets Fixtures.demo_world
      = ([], Ok (RetDict (VDict [("datasets", VList entries)]))) /\
      map Spec.entry_name entries = ["a"; "b"; "broken"; "x"] /\
      list_datasets_of (DATA_DIR Fixtures.demo_world)
        [Path_of "/data/sub/x.vrt"; Path_of "/data/sub/b.vrt";
         Path_of "/data/broken.vrt"; Path_of "/data/a.vrt"]
      = list_datasets Fixtures.demo_world) /\
  http_status (list_datasets Fixtures.world_deep) = 500%Z /\
  (exists vrts,
      Glob.glob Fixtures.demo_fs (DATA_DIR Fixtures.demo_world) "**/*.vrt"
      = (vrts, None)) /\
  list_datasets Fixtures.world_no_root
  = ([], Ok (RetDict (VDict [("datasets", VList [])]))) /\
  list_datasets Fixtures.world_empty_root
  = ([], Ok (RetDict (VDict [("datasets", VList [])]))).
Proof.
  split; [|split; [|split; [|split]]].
  - destruct (proj1 (listing_sorted_by_name Fixtures.demo_world)
                [Path_of "/data/a.vrt"; Path_of "/data/broken.vrt";
                 Path_of "/data/sub/b.vrt"; Path_of "/data/sub/x.vrt"] eq_refl)
      as [entries [Hl [_ [_ [Hperm _]]]]].
    exists entries. split; [exact Hl|].
    refine ((fun H => conj (proj1 H) (proj2 H _))
              (Hperm [Path_of "/data/sub/x.vrt"; Path_of "/data/sub/b.vrt";
                      Path_of "/data/broken.vrt"; Path_of "/data/a.vrt"] _)).
    + repeat constructor; simpl; intuition discriminate.
    + apply (Permutation_rev [Path_of "/data/a.vrt"; Path_of "/data/broken.vrt";
                              Path_of "/data/sub/b.vrt"; Path_of "/data/sub/x.vrt"]).
  - destruct (Glob.glob Fixtures.deep_fs (DATA_DIR Fixtures.world_deep) "**/*.vrt")
      as [vrts [e|]] eqn:Hg.
    + exact (proj2 (proj1 (proj2 (listing_sorted_by_name Fixtures.world_deep))
                      vrts e Hg)).
    + exfalso. apply (f_equal snd) in Hg. vm_compute in Hg. discriminate Hg.
  - exact (proj1 (proj2 (proj2 (listing_sorted_by_name Fixtures.demo_world)))
             demo_tree_wf eq_refl).
  - exact (proj1 (proj2 (proj2 (proj2 (listing_sorted_by_name Fixtures.world_no_root))))
             eq_refl).
  - exact (proj2 (proj2 (proj2 (proj2 (listing_sorted_by_name Fixtures.world_empty_root))))
             eq_refl eq_refl).
Defined.

(** ** Dataset names without pattern characters *)

Lemma contains_append (c : ascii) (a b : string) :
  Str.contains c (a ++ b) = Str.contains c a || Str.contains c b.
Proof.
  induction a as [|d a IH]; simpl; [reflexivity|].
  rewrite IH. apply orb_assoc.
Qed.

Lemma split_without_separator (sep : ascii) (s : string) :
  Str.contains sep s = false -> Str.split sep s = [s].
Proof.
  induction s as [|d s IH]; simpl; [reflexivity|].
  intros H. apply orb_false_elim in H as [Hd Hs].
  rewrite Ascii.eqb_sym, Hd, (IH Hs). reflexivity.
Qed.

Lemma last_char_append (a : string) (c : ascii) (b : string) :
  Str.last_char (a ++ String c b) = Str.last_char (String c b).
Proof.
  induction a as [|d a IH]; [reflexivity|].
  change (String d a ++ String c b)%string with (String d (a ++ String c b)).
  cbn [Str.last_char]. rewrite IH.
  destruct a; reflexivity.
Qed.

Lemma no_star_no_double_star (s : string) :
  Str.contains "*" s = false -> Str.has_substring "**" s = false.
Proof.
  induction s as [|d s IH]; [reflexivity|].
  cbn [Str.contains Str.has_substring]. intros H.
  apply orb_false_elim in H as [Hd Hs]. rewrite (IH Hs), orb_false_r.
  cbn [String.prefix].
  destruct (ascii_dec "*" d) as [<-|_]; [|reflexivity].
  rewrite Ascii.eqb_refl in Hd. discriminate Hd.
Qed.

Lemma vrt_name_length (n : string) :
  String.length (n ++ ".vrt") = String.length n + 4.
Proof.
  induction n as [|c n IH]; simpl; [reflexivity | rewrite IH; reflexivity].
Qed.

Lemma vrt_name_differs (n s : string) :
  String.length s < 4 -> String.eqb (n ++ ".vrt") s = false.
Proof.
  intros H. apply String.eqb_neq. intros E.
  apply (f_equal String.length) in E. rewrite vrt_name_length in E. lia.
Qed.

(** The file name of a plain dataset name is an ordinary component: no
    separator, no pattern character, not a dot name. *)
Lemma vrt_name_plain (n : string) :
  Spec.plain_name n = true ->
  Str.contains "/" (n ++ ".vrt") = false /\
  Glob.is_wildcard_pattern (n ++ ".vrt") = false /\
  Str.has_substring "**" (n ++ ".vrt") = false /\
  Spec.valid_name (n ++ ".vrt") = true.
Proof.
  unfold Spec.plain_name. intros H.
  apply andb_prop in H as [H Hslash]. apply andb_prop in H as [H Hbr].
  apply andb_prop in H as [Hstar Hq].
  apply negb_true_iff in Hslash, Hbr, Hstar, Hq.
  assert (Cs : Str.contains "/" (n ++ ".vrt") = false)
    by (rewrite contains_append, Hslash; reflexivity).
  assert (Ca : Str.contains "*" (n ++ ".vrt") = false)
    by (rewrite contains_append, Hstar; reflexivity).
  repeat split.
  - exact Cs.
  - unfold Glob.is_wildcard_pattern.
    rewrite Ca, !contains_append, Hq, Hbr. reflexivity.
  - apply no_star_no_double_star, Ca.
  - unfold Spec.valid_name.
    rewrite !vrt_name_differs, Cs by (simpl; lia). reflexivity.
Qed.

Lemma split_at_separator (sep : ascii) (a b : string) :
  Str.contains sep a = false ->
  Str.split sep (a ++ String sep b) = a :: Str.split sep b.
Proof.
  induction a as [|d a IH]; simpl.
  - intros _. rewrite Ascii.eqb_refl. reflexivity.
  - intros H. apply orb_false_elim in H as [Hd Hs].
    rewrite Ascii.eqb_sym, Hd, (IH Hs). reflexivity.
Qed.

Lemma keep_vrt_name (n : string) : keep_component (n ++ ".vrt") = true.
Proof.
  unfold keep_component. rewrite !vrt_name_differs by (simpl; lia). reflexivity.
Qed.

(** How [pathlib] parses the pattern of the fallback search. *)
Lemma Path_of_pattern (n : string) :
  Spec.plain_name n = true ->
  Path_of ("**/" ++ n ++ ".vrt") = mkPath "" ["**"; (n ++ ".vrt")%string].
Proof.
  intros Hn. destruct (vrt_name_plain n Hn) as [Cs _].
  unfold Path_of, splitroot, Str.startswith.
  change ("**/" ++ n ++ ".vrt")%string
    with (String "*" (String "*" (String "/" (n ++ ".vrt")))).
  cbn [String.eqb Ascii.eqb Bool.eqb String.prefix].
  destruct (ascii_dec "/"%char "*"%char) as [E|_]; [discriminate E|].
  change (String "*" (String "*" (String "/" (n ++ ".vrt"))))
    with ("**" ++ String "/" (n ++ ".vrt"))%string.
  rewrite split_at_separator by reflexivity.
  rewrite (split_without_separator "/" (n ++ ".vrt") Cs).
  cbn [filter]. rewrite keep_vrt_name. reflexivity.
Qed.

Lemma pattern_last_char (n : string) :
  Str.last_char ("**/" ++ n ++ ".vrt") = Some "t"%char.
Proof.
  replace ("**/" ++ n ++ ".vrt")%string with (("**/" ++ n ++ ".vr") ++ String "t" "")%string.
  - apply last_char_append.
  - simpl. do 3 f_equal. induction n as [|c n IH]; simpl; [reflexivity|].
    f_equal. exact IH.
Qed.
Lemma no_slash_no_root (s : string) :
  Str.contains "/" s = false -> String.prefix "/" s = false.
Proof.
  destruct s as [|c s]; [reflexivity|].
  cbn [Str.contains String.prefix]. intros H.
  apply orb_false_elim in H as [Hc _].
  destruct (ascii_dec "/" c) as [<-|_]; [|reflexivity].
  rewrite Ascii.eqb_refl in Hc. discriminate Hc.
Qed.

(** [pathlib] reads a file name without separator as one component. *)
Lemma Path_of_vrt_name (n : string) :
  Str.contains "/" n = false ->
  Path_of (n ++ ".vrt") = mkPath "" [(n ++ ".vrt")%string].
Proof.
  intros Hn.
  assert (Cs : Str.contains "/" (n ++ ".vrt") = false)
    by (rewrite contains_append, Hn; reflexivity).
  unfold Path_of, splitroot, Str.startswith.
  rewrite vrt_name_differs by (simpl; lia).
  rewrite (no_slash_no_root _ Cs), (split_without_separator "/" _ Cs).
  cbn [filter]. rewrite keep_vrt_name. reflexivity.
Qed.

Lemma name_of_child (q : Path) (t : string) :
  Pathlib.name (make_child_relpath q t) = t.
Proof.
  unfold Pathlib.name, make_child_relpath. cbn [parts]. apply last_last.
Qed.

Lemma search_named_is_named (t : string) (m : node) :
  forall q p, In p (Spec.search_named t q m) ->
              Pathlib.name p = t /\ Spec.extends q p.
Proof.
  induction m as [|es IH] using node_induction; intros q p Hin; [contradiction|].
  cbn [Spec.search_named] in Hin. apply in_app_or in Hin as [Hin|Hin].
  - destruct (existsb _ es); [|contradiction].
    destruct Hin as [<-|[]]. split; [apply name_of_child | apply extends_child].
  - apply in_flat_map in Hin as [e [He Hp]].
    destruct (is_dir_node (snd e)); [|contradiction].
    destruct (proj1 (Forall_forall _ _) IH e He _ _ Hp) as [Hn Hx].
    split; [exact Hn|].
    eapply extends_trans; [apply extends_child | exact Hx].
Qed.
(** The pattern of the fallback search, for a plain name: every directory
    under the root, then the file name looked up as it is. *)
Lemma glob_plain_name (fs : filesystem) (d : Path) (n : string) :
  Spec.plain_name n = true ->
  Glob.glob fs d ("**/" ++ n ++ ".vrt")
  = match is_dir fs d with
    | Raise e => Glob.raising e
    | Ok true => Glob.select_from fs [Glob.Recursive; Glob.Precise (n ++ ".vrt")] d
    | Ok false => Glob.finished
    end.
Proof.
  intros Hn. destruct (vrt_name_plain n Hn) as [Cs [Cw [Cd Cv]]].
  unfold Glob.glob.
  rewrite (Path_of_pattern n Hn), pattern_last_char.
  replace (String.eqb ("**/" ++ n ++ ".vrt") "") with false by reflexivity.
  cbn [root parts String.eqb negb Ascii.eqb Bool.eqb app].
  cbn [Glob.make_selector String.eqb Ascii.eqb Bool.eqb].
  rewrite !vrt_name_differs by (simpl; lia).
  rewrite Cd, Cw. reflexivity.
Qed.

(** ** The fallback search, for a plain name, is the search of the
       specification *)

Lemma child_on_disk (fs : filesystem) (q : Path) (t : string) :
  Spec.valid_name t = true ->
  Spec.on_disk fs (make_child_relpath q t)
  = match lookup fs q with
    | Some (Dir es) => existsb (fun e => String.eqb (fst e) t) es
    | _ => false
    end.
Proof.
  intros Hv. unfold Spec.on_disk. rewrite (lookup_child fs q t Hv).
  destruct (lookup fs q) as [[|es]|]; try reflexivity.
  apply lookup_entry_found.
Qed.

(** Walking the directories and looking the name up in each of them finds
    the entries of that name, in the order of the specification's
    search. *)
Lemma precise_search (fs : filesystem) (t : string) (m : node) :
  Spec.valid_name t = true ->
  forall q, Spec.wf_node m = true -> lookup fs q = Some m ->
            flat_map (fun start =>
                        if Spec.on_disk fs (make_child_relpath start t)
                        then [make_child_relpath start t] else [])
                     (Spec.directories q m)
            = Spec.search_named t q m.
Proof.
  intros Hv. induction m as [|es IH] using node_induction; intros q Hw Hq.
  - cbn [Spec.directories flat_map Spec.search_named].
    rewrite (child_on_disk fs q t Hv), Hq. reflexivity.
  - cbn [Spec.directories flat_map Spec.search_named].
    rewrite (child_on_disk fs q t Hv), Hq.
    f_equal. rewrite flat_map_flat_map. apply flat_map_ext_in.
    intros e He. destruct (is_dir_node (snd e)) eqn:Ed; [|reflexivity].
    destruct (wf_dir es Hw) as [Hnd Hall].
    destruct (Hall e He) as [Hname Hsub].
    apply (proj1 (Forall_forall _ _) IH e He); [exact Hsub|].
    rewrite (lookup_child fs q (fst e) Hname), Hq.
    apply lookup_entry_unique; [exact Hnd|].
    destruct e; exact He.
Qed.

Lemma hd_error_dedup (l : list Path) :
  hd_error (Glob.dedup [] l) = hd_error l.
Proof.
  destruct l; reflexivity.
Qed.

Lemma next_finished (l : list Path) : Glob.next (l, None) = Ok (hd_error l).
Proof. destruct l; reflexivity. Qed.

(** The walk of the fallback pattern, when the system refuses nothing. *)
Lemma fallback_walk (fs : filesystem) (d : Path) (t : string)
  (es : list (string * node)) :
  Spec.wf_node (tree fs) = true ->
  Spec.valid_name t = true ->
  lookup fs d = Some (Dir es) ->
  Spec.quiet_node fs (Some t) d (Dir es) = true ->
  Glob.select_from fs [Glob.Recursive; Glob.Precise t] d
  = (Glob.dedup [] (Spec.search_named t d (Dir es)), None).
Proof.
  intros Hw Hv Hst Hq. rewrite select_recursive.
  unfold Glob.iterate_directories. rewrite Hst.
  pose proof (directories_quiet fs (Some t) (Dir es) d (wf_lookup _ _ _ Hw Hst)
                eq_refl Hst Hq) as Hdirs.
  rewrite (select_recursively_finished fs _ (Dir es) d eq_refl).
  - cbn [fst snd]. rewrite except_PermissionError_finished. f_equal. f_equal.
    rewrite <- (precise_search fs t (Dir es) Hv d (wf_lookup _ _ _ Hw Hst) Hst).
    apply flat_map_ext_in. intros start Hs.
    destruct (Hdirs start Hs) as [_ [_ Hf]].
    rewrite (select_precise_answered fs t start (Hf t eq_refl)). reflexivity.
  - intros start Hs. destruct (Hdirs start Hs) as [_ [Hscan Hf]].
    split; [|exact Hscan].
    rewrite (select_precise_answered fs t start (Hf t eq_refl)). reflexivity.
Qed.

(** What the search finds is on the disk, in a directory of the walk. *)
Lemma search_named_found (fs : filesystem) (t : string) (m : node) (q p : Path) :
  Spec.valid_name t = true -> Spec.wf_node m = true -> lookup fs q = Some m ->
  In p (Spec.search_named t q m) ->
  exists start, In start (Spec.directories q m) /\
                p = make_child_relpath start t /\ Spec.on_disk fs p = true.
Proof.
  intros Hv Hw Hq Hin. rewrite <- (precise_search fs t m Hv q Hw Hq) in Hin.
  apply in_flat_map in Hin as [start [Hs Hp]]. exists start.
  destruct (Spec.on_disk fs (make_child_relpath start t)) eqn:E; [|contradiction].
  destruct Hp as [<-|[]]. auto.
Qed.

(** For a dataset name without pattern characters, on a well-formed tree
    and when the system refuses nothing to the search, the first lines of
    the name-based handlers compute the resolution of section 4.1, and
    what they find exists. *)
Lemma find_vrt_plain_name (w : world) (n : string) :
  Spec.wf_node (tree (fs w)) = true ->
  Spec.plain_name n = true ->
  Spec.quiet (fs w) (Some (n ++ ".vrt")%string) (DATA_DIR w) = true ->
  find_vrt w n = ([], Ok (Spec.resolve w n)) /\
  missing w (Spec.resolve w n)
  = ([], Ok (match Spec.resolve w n with Some _ => false | None => true end)).
Proof.
  intros Hw Hn Hq. destruct (vrt_name_plain n Hn) as [_ [_ [_ Hv]]].
  assert (Hslash : Str.contains "/" n = false).
  { unfold Spec.plain_name in Hn. apply andb_prop in Hn as [_ Hs].
    apply negb_true_iff in Hs. exact Hs. }
  assert (Hjoin : joinpath (DATA_DIR w) (n ++ ".vrt")
                  = make_child_relpath (DATA_DIR w) (n ++ ".vrt")).
  { unfold joinpath. rewrite (Path_of_vrt_name n Hslash). reflexivity. }
  unfold Spec.quiet in Hq.
  apply andb_prop in Hq as [Hq Hnode]. apply andb_prop in Hq as [Hstat Hexact].
  apply no_fault_none in Hstat, Hexact.
  assert (Hfound : forall p,
             Spec.resolve w n = Some p -> Path_exists (fs w) p = Ok true).
  { intros p Hp. unfold Spec.resolve in Hp. rewrite Hjoin in Hp.
    destruct (Spec.on_disk (fs w) (make_child_relpath (DATA_DIR w) (n ++ ".vrt")))
      eqn:Ex.
    - injection Hp as <-. rewrite (exists_answered _ _ Hexact), Ex. reflexivity.
    - destruct (lookup (fs w) (DATA_DIR w)) as [m|] eqn:Hst; [|discriminate].
      destruct (Spec.search_named (n ++ ".vrt") (DATA_DIR w) m) as [|p0 l] eqn:Es;
        [discriminate|].
      injection Hp as ->.
      destruct (search_named_found (fs w) (n ++ ".vrt") m (DATA_DIR w) p Hv
                  (wf_lookup _ _ _ Hw Hst) Hst) as [start [Hs [-> Hd]]];
        [rewrite Es; left; reflexivity|].
      destruct m as [|es]; [discriminate Es|].
      destruct (directories_quiet (fs w) (Some (n ++ ".vrt")%string) (Dir es) (DATA_DIR w)
                  (wf_lookup _ _ _ Hw Hst) eq_refl Hst Hnode start Hs)
        as [_ [_ Hf]].
      rewrite (exists_answered _ _ (Hf _ eq_refl)), Hd. reflexivity. }
  split.
  - unfold find_vrt, Spec.resolve. rewrite Hjoin, (exists_answered _ _ Hexact).
    rewrite bind_lift.
    destruct (Spec.on_disk (fs w) (make_child_relpath (DATA_DIR w) (n ++ ".vrt")));
      [reflexivity|].
    cbn [negb]. unfold lift.
    rewrite (glob_plain_name (fs w) (DATA_DIR w) n Hn).
    rewrite (is_dir_answered _ _ Hstat).
    destruct (lookup (fs w) (DATA_DIR w)) as [[|es]|] eqn:Hst; try reflexivity.
    cbn [is_dir_node].
    rewrite (fallback_walk (fs w) (DATA_DIR w) (n ++ ".vrt") es Hw Hv Hst Hnode).
    rewrite next_finished, hd_error_dedup. reflexivity.
  - destruct (Spec.resolve w n) as [p|] eqn:Hr; [|reflexivity].
    apply missing_found, Hfound. reflexivity.
Qed.

(** Whatever the name: when the resolution finds nothing, the four
    name-based handlers answer 404 with a body that contains the name. *)
Lemma unresolved_is_not_found (w : world) (n : string) (vrt_path : option Path) :
  find_vrt w n = ([], Ok vrt_path) ->
  missing w vrt_path = ([], Ok true) ->
  let answer := ([], Ok (RetResponse (not_found n))) in
  (dataset_info w n = answer /\
   dataset_bounds w n = answer /\
   (forall tile_format, tilejson w n tile_format = answer) /\
   (forall z x y format, get_tile w n z x y format = answer)) /\
  status_code (not_found n) = 404%Z /\
  exists text, body_content (not_found n) = CStr text /\
               Str.has_substring n text = true.
Proof.
  intros Hf Hm. split; [|split].
  - unfold dataset_info, dataset_bounds, tilejson, get_tile.
    repeat split; intros; rewrite Hf, bind_ret, Hm, bind_ret;
      (destruct vrt_path as [p|]; reflexivity).
  - reflexivity.
  - eexists. split; [reflexivity|]. apply has_substring_middle.
Qed.

(** C1 fails on the code: no file is named [*.vrt] under the root, yet the
    four name-based handlers serve the dataset ["*"], from the first
    [.vrt] file the directory walk meets. *)
Theorem star_is_served_as_a_dataset :
  Spec.resolve Fixtures.demo_world "*" = None /\
  find_vrt Fixtures.demo_world "*" = ([], Ok (Some (Path_of "/data/a.vrt"))) /\
  http_status (dataset_info Fixtures.demo_world "*") = 200%Z /\
  http_status (dataset_bounds Fixtures.demo_world "*") = 200%Z /\
  http_status (tilejson Fixtures.demo_world "*" "png") = 200%Z /\
  http_status (get_tile Fixtures.demo_world "*" 3 1 2 "png") = 200%Z /\
  fst (get_tile Fixtures.demo_world "*" 3 1 2 "png")
  = [EvOpen "/data/a.vrt"; EvTile 1 2 3 256; EvRender "PNG" None; EvClose].
Proof.
  repeat split.
Qed.
(** * Further properties of the handlers *)

(** ** Every run of the name-based handlers, whatever the request *)

(** The first lines shared by the four handlers that take a dataset name:
    the resolution, the second existence test, and the 404. *)
Lemma name_handler_run (w : world) (dataset : string) (k : Path -> M returned) :
  bind (find_vrt w dataset) (fun vrt_path =>
    bind (missing w vrt_path) (fun gone =>
      match vrt_path with
      | Some p => if gone then ret (RetResponse (not_found dataset)) else k p
      | None => ret (RetResponse (not_found dataset))
      end))
  = match snd (find_vrt w dataset) with
    | Raise e => ([], Raise e)
    | Ok None => ([], Ok (RetResponse (not_found dataset)))
    | Ok (Some p) =>
        match Path_exists (fs w) p with
        | Raise e => ([], Raise e)
        | Ok true => k p
        | Ok false => ([], Ok (RetResponse (not_found dataset)))
        end
    end.
Proof.
  pose proof (find_vrt_calls_nothing w dataset) as Ht.
  destruct (find_vrt w dataset) as [t [[p|]|e]]; simpl in Ht; subst t;
    [rewrite bind_ret | reflexivity | reflexivity].
  cbn [snd]. rewrite missing_run.
  destruct (Path_exists (fs w) p) as [[|]|e];
    [rewrite bind_ret | rewrite bind_ret | ]; reflexivity.
Qed.

Lemma get_tile_run (w : world) (dataset : string) (z x y : Z) (format : string) :
  get_tile w dataset z x y format
  = match snd (find_vrt w dataset) with
    | Raise e => ([], Raise e)
    | Ok None => ([], Ok (RetResponse (not_found dataset)))
    | Ok (Some p) =>
        match Path_exists (fs w) p with
        | Raise e => ([], Raise e)
        | Ok true =>
            (Spec.tile_calls (rio w) (Path_str p) z x y format,
             Ok (RetResponse
                   (Spec.tile_response
                      (Spec.render_attempt (rio w) (Path_str p) z x y format)
                      format)))
        | Ok false => ([], Ok (RetResponse (not_found dataset)))
        end
    end.
Proof.
  unfold get_tile. rewrite name_handler_run.
  destruct (snd (find_vrt w dataset)) as [[p|]|e]; try reflexivity.
  destruct (Path_exists (fs w) p) as [[|]|e]; try reflexivity.
  apply tile_block.
Qed.

(** ** Failures of the reader in the metadata handlers *)

(** X1: the three metadata handlers have no [try]: a failure of the reader
    leaves the handler as it is.  When the reader does not open, nothing
    else is called; when it opens and [info()] raises, the reader is
    closed before the exception goes on. *)
Theorem metadata_failures_propagate
  (w : world) (dataset tile_format : string) (p : Path) :
  Spec.resolves_to w dataset p ->
  (forall e,
      Reader_open (rio w) (Path_str p) = Raise e ->
      let failed := ([EvOpen (Path_str p)], Raise e) in
      dataset_info w dataset = failed /\
      dataset_bounds w dataset = failed /\
      tilejson w dataset tile_format = failed) /\
  (forall src e,
      Reader_open (rio w) (Path_str p) = Ok src ->
      Reader_info (rio w) src = Raise e ->
      let failed := ([EvOpen (Path_str p); EvInfo; EvClose], Raise e) in
      dataset_info w dataset = failed /\
      dataset_bounds w dataset = failed /\
      tilejson w dataset tile_format = failed).
Proof.
  intros Hres. pose proof (find_vrt_resolved w dataset p Hres) as Hf.
  destruct Hres as [_ Hex].
  split.
  - intros e Ho. unfold dataset_info, dataset_bounds, tilejson.
    rewrite !name_handler_run, Hf. cbn [snd]. rewrite Hex.
    unfold with_Reader. rewrite Ho. repeat split.
  - intros src e Ho Hi. unfold dataset_info, dataset_bounds, tilejson.
    rewrite !name_handler_run, Hf. cbn [snd]. rewrite Hex.
    unfold with_Reader, Run.info, bind. rewrite Ho, Hi. repeat split.
Qed.

Lemma metadata_failures_propagate_witness :
  http_status (dataset_info Fixtures.demo_world "broken") = 500%Z /\
  dataset_bounds Fixtures.world_silent "a"
  = ([EvOpen "/data/a.vrt"; EvInfo; EvClose],
     Raise (mkExn (OtherError "RasterioIOError") "Read failed")).
Proof.
  split.
  - rewrite (proj1 (proj1 (metadata_failures_propagate Fixtures.demo_world
                             "broken" "png" (Path_of "/data/broken.vrt")
                             (conj eq_refl eq_refl))
                          (mkExn (OtherError "RasterioIOError")
                                 "not recognized as a supported file format")
                          eq_refl)).
    reflexivity.
  - exact (proj1 (proj2 (proj2 (metadata_failures_propagate Fixtures.world_silent
                                  "a" "png" (Path_of "/data/a.vrt")
                                  (conj eq_refl eq_refl))
                               ["data"; "a.vrt"]
                               (mkExn (OtherError "RasterioIOError") "Read failed")
                               eq_refl eq_refl))).
Defined.

(** ** Which exceptions leave the two tile handlers *)

Lemma tile_response_status (r : result (list Init.Byte.byte)) (format : string) :
  In (status_code (Spec.tile_response r format)) [200; 204; 500]%Z.
Proof.
  destruct r as [c|e]; simpl; [auto|].
  destruct (cls e); simpl; auto.
Qed.

(** X3: the path-based tile handler lets one kind of exception out: the one
    of the existence test of the path, which it makes outside its [try].
    In every other case it returns a response, of status 200, 204, 400,
    404 or 500; the failures of the raster library never leave it. *)
Theorem get_tile_by_url_raises_only_from_exists
  (w : world) (z x y : Z) (format url : string) :
  (exists r,
      snd (get_tile_by_url w z x y format url) = Ok (RetResponse r) /\
      In (status_code r) [200; 204; 400; 404; 500]%Z) \/
  (exists e,
      get_tile_by_url w z x y format url = ([], Raise e) /\
      url <> "" /\
      Path_exists (fs w) (Spec.url_path w url) = Raise e).
Proof.
  rewrite get_tile_by_url_run.
  destruct (String.eqb_spec url "") as [->|Hurl];
    [left; eexists; split; [reflexivity | simpl; auto]|].
  destruct (Path_exists (fs w) (Spec.url_path w url)) as [[|]|e].
  - left. eexists. split; [reflexivity|].
    pose proof (tile_response_status
                  (Spec.render_attempt (rio w) (Path_str (Spec.url_path w url))
                     z x y format) format) as H.
    simpl in H |- *. intuition.
  - left. eexists. split; [reflexivity | simpl; auto 6].
  - right. exists e. auto.
Qed.

(** X4: the name-based tile handler lets out the exceptions of the
    resolution of the name, and no other: the one of the existence test of
    the exact path, the one [glob] raises on the pattern made of the name
    when the exact path does not exist, and the one of the second
    existence test, on the path found.  In every other case it returns a
    response, of status 200, 204, 404 or 500; the failures of the raster
    library never leave it. *)
Theorem get_tile_raises_only_from_resolution
  (w : world) (dataset : string) (z x y : Z) (format : string) :
  (exists r,
      snd (get_tile w dataset z x y format) = Ok (RetResponse r) /\
      In (status_code r) [200; 204; 404; 500]%Z) \/
  (exists e,
      get_tile w dataset z x y format = ([], Raise e) /\
      (Path_exists (fs w) (joinpath (DATA_DIR w) (dataset ++ ".vrt")) = Raise e \/
       (Path_exists (fs w) (joinpath (DATA_DIR w) (dataset ++ ".vrt")) = Ok false /\
        Glob.next (Glob.glob (fs w) (DATA_DIR w) ("**/" ++ dataset ++ ".vrt"))
        = Raise e) \/
       (exists p, snd (find_vrt w dataset) = Ok (Some p) /\
                  Path_exists (fs w) p = Raise e))).
Proof.
  rewrite get_tile_run.
  destruct (snd (find_vrt w dataset)) as [[p|]|e] eqn:Hf.
  - destruct (Path_exists (fs w) p) as [[|]|e] eqn:Hex.
    + left. eexists. split; [reflexivity|].
      pose proof (tile_response_status
                    (Spec.render_attempt (rio w) (Path_str p) z x y format) format)
        as H.
      simpl in H |- *. intuition.
    + left. eexists. split; [reflexivity | simpl; auto].
    + right. exists e. split; [reflexivity|]. right. right. exists p. auto.
  - left. eexists. split; [reflexivity | simpl; auto].
  - right. exists e. split; [reflexivity|].
    unfold find_vrt in Hf. rewrite bind_lift in Hf.
    destruct (Path_exists (fs w) (joinpath (DATA_DIR w) (dataset ++ ".vrt")))
      as [[|]|e0]; cbn [negb snd lift ret] in Hf.
    + discriminate Hf.
    + right. left. split; [reflexivity | exact Hf].
    + left. congruence.
Qed.

(** ** No reader is left open *)

Lemma bracketed_nothing (lib : Library) : Spec.bracketed lib [].
Proof. left. reflexivity. Qed.

Lemma bracketed_failed_open (lib : Library) (input : string) (e : exn) :
  Reader_open lib input = Raise e -> Spec.bracketed lib [EvOpen input].
Proof. intros H. right. left. exists input, e. split; [reflexivity | exact H]. Qed.

Lemma bracketed_use (lib : Library) (input : string) (src : ReaderT lib)
  (mid : list event) :
  Reader_open lib input = Ok src ->
  existsb Spec.is_bracket mid = false ->
  Spec.bracketed lib (EvOpen input :: mid ++ [EvClose]).
Proof.
  intros Ho Hm. right. right. exists input, src, mid.
  split; [reflexivity|]. split; assumption.
Qed.

Lemma tile_calls_bracketed (lib : Library) (input : string) (z x y : Z)
  (format : string) :
  Spec.bracketed lib (Spec.tile_calls lib input z x y format).
Proof.
  unfold Spec.tile_calls.
  destruct (Reader_open lib input) as [src|e] eqn:Ho;
    [|eapply bracketed_failed_open, Ho].
  destruct (Reader_tile lib src x y z 256).
  - apply (bracketed_use lib input src
             [EvTile x y z 256;
              EvRender (fst (fst (Spec.encoding format)))
                       (snd (fst (Spec.encoding format)))] Ho).
    reflexivity.
  - apply (bracketed_use lib input src [EvTile x y z 256] Ho). reflexivity.
Qed.

Lemma metadata_calls_bracketed (lib : Library) (input : string)
  (body : Info -> M returned) :
  (forall i, fst (body i) = []) ->
  Spec.bracketed lib
    (fst (with_Reader lib input (fun src => bind (Run.info lib src) body))).
Proof.
  intros Hbody. unfold with_Reader, Run.info, bind.
  destruct (Reader_open lib input) as [src|e] eqn:Ho;
    [|eapply bracketed_failed_open, Ho].
  destruct (Reader_info lib src) as [i|e].
  - specialize (Hbody i). destruct (body i) as [t r]. simpl in Hbody. subst t.
    apply (bracketed_use lib input src [EvInfo] Ho). reflexivity.
  - apply (bracketed_use lib input src [EvInfo] Ho). reflexivity.
Qed.
(** X2: whatever the request and whatever fails, no handler leaves a reader
    open: a run makes no call to the raster library, or fails to open one
    reader and calls nothing else, or opens one reader and closes it as
    its last call. *)
Theorem readers_are_closed
  (w : world) (dataset tile_format format url : string) (z x y : Z) :
  Spec.bracketed (rio w) (fst (list_datasets w)) /\
  Spec.bracketed (rio w) (fst (dataset_info w dataset)) /\
  Spec.bracketed (rio w) (fst (dataset_bounds w dataset)) /\
  Spec.bracketed (rio w) (fst (tilejson w dataset tile_format)) /\
  Spec.bracketed (rio w) (fst (get_tile w dataset z x y format)) /\
  Spec.bracketed (rio w) (fst (get_tile_by_url w z x y format url)).
Proof.
  assert (Hmeta : forall k : Path -> Info -> M returned,
             (forall p i, fst (k p i) = []) ->
             Spec.bracketed (rio w)
               (fst (match snd (find_vrt w dataset) with
                     | Raise e => ([], Raise e)
                     | Ok None => ([], Ok (RetResponse (not_found dataset)))
                     | Ok (Some p) =>
                         match Path_exists (fs w) p with
                         | Raise e => ([], Raise e)
                         | Ok true =>
                             with_Reader (rio w) (Path_str p)
                               (fun src => bind (Run.info (rio w) src) (k p))
                         | Ok false => ([], Ok (RetResponse (not_found dataset)))
                         end
                     end))).
  { intros k Hk.
    destruct (snd (find_vrt w dataset)) as [[p|]|e]; try apply bracketed_nothing.
    destruct (Path_exists (fs w) p) as [[|]|e]; try apply bracketed_nothing.
    apply metadata_calls_bracketed, Hk. }
  assert (Hk : forall (i : Info) (f : float -> float -> float -> float -> returned),
             fst (let '(b0, b1, b2, b3) := bounds i in ret (f b0 b1 b2 b3)) = []).
  { intros i f. destruct (bounds i) as [[[b0 b1] b2] b3]. reflexivity. }
  repeat split.
  - unfold list_datasets, list_datasets_of. rewrite bind_lift.
    destruct (Glob.to_list (Glob.glob (fs w) (DATA_DIR w) "**/*.vrt")) as [vrts|e];
      [|apply bracketed_nothing].
    rewrite bind_lift.
    destruct (dataset_entries (DATA_DIR w) (sorted vrts stem));
      apply bracketed_nothing.
  - unfold dataset_info. rewrite name_handler_run.
    apply (Hmeta (fun _ i => let '(b0, b1, b2, b3) := bounds i in ret _)).
    intros p i. exact (Hk i _).
  - unfold dataset_bounds. rewrite name_handler_run.
    apply (Hmeta (fun _ i => let '(b0, b1, b2, b3) := bounds i in ret _)).
    intros p i. exact (Hk i _).
  - unfold tilejson. rewrite name_handler_run.
    apply (Hmeta (fun _ i => let '(b0, b1, b2, b3) := bounds i in ret _)).
    intros p i. exact (Hk i _).
  - rewrite get_tile_run.
    destruct (snd (find_vrt w dataset)) as [[p|]|e]; try apply bracketed_nothing.
    destruct (Path_exists (fs w) p) as [[|]|e];
      [apply tile_calls_bracketed | apply bracketed_nothing | apply bracketed_nothing].
  - rewrite get_tile_by_url_run.
    destruct (String.eqb url ""); [apply bracketed_nothing|].
    destruct (Path_exists (fs w) (Spec.url_path w url)) as [[|]|e];
      [apply tile_calls_bracketed | apply bracketed_nothing | apply bracketed_nothing].
Qed.

(** ** TileJSON against the bounds endpoint *)

(** X5: for every dataset name and every tile format, the TileJSON handler
    and the bounds handler make the same library calls and agree on the
    bounds and the zoom range; the TileJSON center is the center of the
    bounds endpoint followed by the zoom 15; when one of the two fails or
    answers 404, so does the other. *)
Theorem tilejson_agrees_with_bounds (w : world) (dataset tile_format : string) :
  fst (tilejson w dataset tile_format) = fst (dataset_bounds w dataset) /\
  http_status (tilejson w dataset tile_format)
  = http_status (dataset_bounds w dataset) /\
  Spec.extent_of (tilejson w dataset tile_format)
  = Spec.extent_of (dataset_bounds w dataset) /\
  Spec.center_of (tilejson w dataset tile_format)
  = option_map (fun c => c ++ [VInt 15]) (Spec.center_of (dataset_bounds w dataset)).
Proof.
  unfold tilejson, dataset_bounds. rewrite !name_handler_run.
  destruct (snd (find_vrt w dataset)) as [[p|]|e]; [|repeat split|repeat split].
  destruct (Path_exists (fs w) p) as [[|]|e]; [|repeat split|repeat split].
  unfold with_Reader, Run.info, bind, ret.
  destruct (Reader_open (rio w) (Path_str p)) as [src|e]; [|repeat split].
  destruct (Reader_info (rio w) src) as [i|e]; [|repeat split].
  destruct (bounds i) as [[[b0 b1] b2] b3].
  split; [reflexivity|]. split; [|split; reflexivity].
  unfold http_status. cbn [snd jsonable forallb].
  destruct (finite b0), (finite b1), (finite b2), (finite b3),
    (finite ((b0 + b2) / 2)), (finite ((b1 + b3) / 2)); reflexivity.
Qed.

(** ** The path-based endpoint and the root directory *)

(** X6: an absolute [url] is served without regard to [DATA_DIR]: two
    installations that differ only in that setting answer alike. *)
Theorem absolute_url_ignores_data_dir
  (env env' : option string) (files : filesystem) (lib : Library)
  (z x y : Z) (format url : string) :
  Str.startswith url "/" = true ->
  get_tile_by_url (mkWorld env files lib) z x y format url
  = get_tile_by_url (mkWorld env' files lib) z x y format url.
Proof.
  intros Habs. rewrite !get_tile_by_url_run. unfold Spec.url_path.
  rewrite Habs. reflexivity.
Qed.

Lemma absolute_url_ignores_data_dir_witness :
  get_tile_by_url (mkWorld None Fixtures.demo_fs Fixtures.demo_lib)
    3 1 2 "png" "/data/a.vrt"
  = get_tile_by_url (mkWorld (Some "/srv/tiles") Fixtures.demo_fs Fixtures.demo_lib)
      3 1 2 "png" "/data/a.vrt".
Proof.
  exact (absolute_url_ignores_data_dir None (Some "/srv/tiles") Fixtures.demo_fs
           Fixtures.demo_lib 3 1 2 "png" "/data/a.vrt" eq_refl).
Defined.
(** ** Names that do not resolve, and names [glob] refuses *)

(** X7: when the existence test says that the exact path does not exist and
    the recursive search ends without a match, each of the four name-based
    handlers answers 404 with the text [Dataset <name> not found], and
    calls nothing of the raster library. *)
Theorem unresolved_name_is_404
  (w : world) (dataset tile_format format : string) (z x y : Z) :
  Path_exists (fs w) (joinpath (DATA_DIR w) (dataset ++ ".vrt")) = Ok false ->
  Glob.next (Glob.glob (fs w) (DATA_DIR w) ("**/" ++ dataset ++ ".vrt")) = Ok None ->
  let answer :=
    ([], Ok (RetResponse
               (Response_status 404 (CStr ("Dataset " ++ dataset ++ " not found"))))) in
  dataset_info w dataset = answer /\
  dataset_bounds w dataset = answer /\
  tilejson w dataset tile_format = answer /\
  get_tile w dataset z x y format = answer /\
  Str.has_substring dataset ("Dataset " ++ dataset ++ " not found") = true.
Proof.
  intros Hex Hg.
  assert (Hf : find_vrt w dataset = ([], Ok None)).
  { unfold find_vrt. rewrite Hex, bind_lift. cbn [negb]. rewrite Hg. reflexivity. }
  destruct (unresolved_is_not_found w dataset None Hf eq_refl)
    as [[H1 [H2 [H3 H4]]] _].
  repeat split; [exact H1 | exact H2 | apply H3 | apply H4 |].
  apply has_substring_middle.
Qed.

Lemma unresolved_name_is_404_witness :
  dataset_info Fixtures.demo_world "nowhere"
  = ([], Ok (RetResponse
               (Response_status 404 (CStr "Dataset nowhere not found")))).
Proof.
  exact (proj1 (unresolved_name_is_404 Fixtures.demo_world "nowhere" "png" "png"
                  0 0 0 eq_refl eq_refl)).
Defined.

Lemma prefix_app_l (s a b : string) :
  String.prefix s a = true -> String.prefix s (a ++ b) = true.
Proof.
  revert a. induction s as [|c s IH]; intros a.
  - intros _. destruct (a ++ b)%string; reflexivity.
  - destruct a as [|d a]; [discriminate|].
    cbn [String.prefix append]. destruct (ascii_dec c d); [apply IH | discriminate].
Qed.

Lemma has_substring_app_l (sub a b : string) :
  Str.has_substring sub a = true -> Str.has_substring sub (a ++ b) = true.
Proof.
  induction a as [|d a IH].
  - cbn [Str.has_substring]. rewrite orb_false_r. intros H.
    apply has_substring_prefix. apply (prefix_app_l sub "" b H).
  - cbn [Str.has_substring append]. intros H.
    apply orb_true_iff in H as [H|H].
    + apply (prefix_app_l sub (String d a) b) in H.
      cbn [append] in H. rewrite H. reflexivity.
    + rewrite (IH H). apply orb_true_r.
Qed.

Lemma Path_of_pattern_no_slash (n : string) :
  Str.contains "/" n = false ->
  Path_of ("**/" ++ n ++ ".vrt") = mkPath "" ["**"; (n ++ ".vrt")%string].
Proof.
  intros Hn.
  assert (Cs : Str.contains "/" (n ++ ".vrt") = false)
    by (rewrite contains_append, Hn; reflexivity).
  unfold Path_of, splitroot, Str.startswith.
  change ("**/" ++ n ++ ".vrt")%string
    with (String "*" (String "*" (String "/" (n ++ ".vrt")))).
  cbn [String.eqb Ascii.eqb Bool.eqb String.prefix].
  destruct (ascii_dec "/"%char "*"%char) as [E|_]; [discriminate E|].
  change (String "*" (String "*" (String "/" (n ++ ".vrt"))))
    with ("**" ++ String "/" (n ++ ".vrt"))%string.
  rewrite split_at_separator by reflexivity.
  rewrite (split_without_separator "/" (n ++ ".vrt") Cs).
  cbn [filter]. rewrite keep_vrt_name. reflexivity.
Qed.

(** [glob] (of CPython 3.11) refuses a pattern component that contains
    [**] without being [**], before it touches the file system. *)
Lemma glob_doubled_star (files : filesystem) (d : Path) (n : string) :
  Str.contains "/" n = false ->
  Str.has_substring "**" n = true ->
  Glob.glob files d ("**/" ++ n ++ ".vrt")
  = Glob.raising
      (mkExn ValueError
         "Invalid pattern: '**' can only be an entire path component").
Proof.
  intros Hn Hs. unfold Glob.glob.
  rewrite (Path_of_pattern_no_slash n Hn), pattern_last_char.
  replace (String.eqb ("**/" ++ n ++ ".vrt") "") with false by reflexivity.
  cbn [root parts String.eqb negb Ascii.eqb Bool.eqb app].
  cbn [Glob.make_selector String.eqb Ascii.eqb Bool.eqb].
  rewrite !vrt_name_differs by (simpl; lia).
  rewrite (has_substring_app_l "**" n ".vrt" Hs). reflexivity.
Qed.

(** X8: a dataset name that contains two consecutive stars, and of which the
    existence test says that no file of that very name lies in the root
    directory, makes the four name-based handlers fail with the
    [ValueError] of [glob] (of CPython 3.11): the client gets a 500 and
    the raster library is not called. *)
Theorem doubled_star_name_fails
  (w : world) (dataset tile_format format : string) (z x y : Z) :
  Str.contains "/" dataset = false ->
  Str.has_substring "**" dataset = true ->
  Path_exists (fs w) (joinpath (DATA_DIR w) (dataset ++ ".vrt")) = Ok false ->
  let failed :=
    ([], Raise (mkExn ValueError
                  "Invalid pattern: '**' can only be an entire path component")) in
  dataset_info w dataset = failed /\
  dataset_bounds w dataset = failed /\
  tilejson w dataset tile_format = failed /\
  get_tile w dataset z x y format = failed /\
  http_status (get_tile w dataset z x y format) = 500%Z.
Proof.
  intros Hn Hs Hex.
  assert (Hf : find_vrt w dataset
               = ([], Raise (mkExn ValueError
                    "Invalid pattern: '**' can only be an entire path component"))).
  { unfold find_vrt. rewrite Hex, bind_lift. cbn [negb].
    rewrite (glob_doubled_star (fs w) (DATA_DIR w) dataset Hn Hs).
    reflexivity. }
  unfold dataset_info, dataset_bounds, tilejson, get_tile, http_status.
  rewrite Hf. repeat split.
Qed.

Lemma doubled_star_name_fails_witness :
  dataset_info Fixtures.demo_world "a**"
  = ([], Raise (mkExn ValueError
                  "Invalid pattern: '**' can only be an entire path component")).
Proof.
  exact (proj1 (doubled_star_name_fails Fixtures.demo_world "a**" "png" "png" 0 0 0
                  eq_refl eq_refl eq_refl)).
Defined.

(** ** Plain names resolve as the specification says *)

(** X9: on a well-formed tree of files and directories, for a dataset name
    without [*], [?], [[] and [/], and when the system refuses nothing to
    the search for the file name, the name-based handlers resolve the
    name as section 4.1 says: the exact path under the root when it
    exists, else the first entry of that file name met by the walk of the
    directories under the root.  What is found exists, lies under the
    root and bears the file name; when nothing is found the four handlers
    answer 404. *)
Theorem plain_name_resolution (w : world) (dataset : string) :
  Spec.wf_node (tree (fs w)) = true ->
  Spec.plain_name dataset = true ->
  Spec.quiet (fs w) (Some (dataset ++ ".vrt")%string) (DATA_DIR w) = true ->
  find_vrt w dataset = ([], Ok (Spec.resolve w dataset)) /\
  (forall p, Spec.resolve w dataset = Some p ->
             Path_exists (fs w) p = Ok true /\
             Pathlib.name p = (dataset ++ ".vrt")%string /\
             Spec.extends (DATA_DIR w) p) /\
  (Spec.resolve w dataset = None ->
   forall tile_format format z x y,
     let answer := ([], Ok (RetResponse (not_found dataset))) in
     dataset_info w dataset = answer /\
     dataset_bounds w dataset = answer /\
     tilejson w dataset tile_format = answer /\
     get_tile w dataset z x y format = answer).
Proof.
  intros Hw Hn Hq. destruct (find_vrt_plain_name w dataset Hw Hn Hq) as [Hf Hm].
  split; [exact Hf|]. split.
  - intros p Hp. rewrite Hp in Hm. rewrite missing_run in Hm.
    split.
    { destruct (Path_exists (fs w) p) as [[|]|e]; [reflexivity | | ]; discriminate Hm. }
    unfold Spec.plain_name in Hn. apply andb_prop in Hn as [_ Hslash].
    apply negb_true_iff in Hslash.
    unfold Spec.resolve in Hp.
    destruct (Spec.on_disk (fs w) (joinpath (DATA_DIR w) (dataset ++ ".vrt"))).
    + injection Hp as <-. unfold joinpath.
      rewrite (Path_of_vrt_name dataset Hslash). cbn [root parts String.eqb].
      split; [apply (name_of_child (DATA_DIR w)) | apply (extends_child (DATA_DIR w))].
    + destruct (lookup (fs w) (DATA_DIR w)) as [m|]; [|discriminate].
      destruct (Spec.search_named (dataset ++ ".vrt") (DATA_DIR w) m)
        as [|p0 rest] eqn:Es; [discriminate|].
      injection Hp as ->.
      apply (search_named_is_named (dataset ++ ".vrt") m (DATA_DIR w) p).
      rewrite Es. left. reflexivity.
  - intros Hnone tile_format format z x y. rewrite Hnone in Hf, Hm.
    destruct (unresolved_is_not_found w dataset None Hf eq_refl)
      as [[H1 [H2 [H3 H4]]] _].
    repeat split; [exact H1 | exact H2 | apply H3 | apply H4].
Qed.

Lemma plain_name_resolution_witness :
  find_vrt Fixtures.demo_world "x" = ([], Ok (Some (Path_of "/data/sub/x.vrt"))) /\
  Pathlib.name (Path_of "/data/sub/x.vrt") = "x.vrt" /\
  dataset_info Fixtures.demo_world "y"
  = ([], Ok (RetResponse (not_found "y"))).
Proof.
  split; [|split].
  - exact (proj1 (plain_name_resolution Fixtures.demo_world "x" demo_tree_wf
                    eq_refl eq_refl)).
  - exact (proj1 (proj2 (proj1 (proj2 (plain_name_resolution Fixtures.demo_world "x"
                                         demo_tree_wf eq_refl eq_refl))
                               (Path_of "/data/sub/x.vrt") eq_refl))).
  - exact (proj1 (proj2 (proj2 (plain_name_resolution Fixtures.demo_world "y"
                                  demo_tree_wf eq_refl eq_refl))
                        eq_refl "png" "png" 0%Z 0%Z 0%Z)).
Defined.

(** ** What the listing holds *)

Lemma Path_eqb_eq (p q : Path) : Path_eqb p q = true <-> p = q.
Proof.
  unfold Path_eqb. destruct p as [r ps], q as [r' ps']. cbn [root parts].
  destruct (list_eq_dec string_dec ps ps') as [->|N].
  - rewrite andb_true_r, String.eqb_eq. split; [intros ->; reflexivity|].
    intros E. injection E as ->. reflexivity.
  - rewrite andb_false_r. split; [discriminate|].
    intros E. injection E as _ E. contradiction.
Qed.

Lemma in_yielded (p : Path) (yielded : list Path) :
  existsb (Path_eqb p) yielded = true <-> In p yielded.
Proof.
  rewrite existsb_exists. split.
  - intros [q [Hq E]]. apply Path_eqb_eq in E. subst. exact Hq.
  - intros H. exists p. split; [exact H | apply Path_eqb_eq; reflexivity].
Qed.

(** [yielded] keeps every path, once. *)
Lemma dedup_in (l : list Path) :
  forall yielded p,
    In p (Glob.dedup yielded l) <-> In p l /\ ~ In p yielded.
Proof.
  induction l as [|a l IH]; intros yielded p; cbn [Glob.dedup].
  - simpl. tauto.
  - destruct (existsb (Path_eqb a) yielded) eqn:E.
    + apply in_yielded in E. rewrite IH. simpl. split.
      * intros [H N]. tauto.
      * intros [[->|H] N]; [contradiction | tauto].
    + assert (Na : ~ In a yielded).
      { intros H. apply in_yielded in H. congruence. }
      simpl. rewrite IH. simpl. split.
      * intros [<-|[H N]]; [tauto|]. split; [tauto|]. intros Hy. apply N. tauto.
      * intros [[<-|H] N]; [tauto|].
        destruct (Path_eqb a p) eqn:Eap.
        -- left. apply Path_eqb_eq, Eap.
        -- right. split; [exact H|]. intros [Heq|Hy]; [|tauto].
           apply Path_eqb_eq in Heq. congruence.
Qed.

Lemma dedup_NoDup (l : list Path) :
  forall yielded, NoDup (Glob.dedup yielded l).
Proof.
  induction l as [|a l IH]; intros yielded; cbn [Glob.dedup]; [constructor|].
  destruct (existsb (Path_eqb a) yielded); [apply IH|].
  constructor; [|apply IH].
  rewrite dedup_in. intros [_ N]. apply N. left. reflexivity.
Qed.

Lemma below_nil (d : Path) : Spec.below d [] = d.
Proof.
  unfold Spec.below. rewrite app_nil_r. destruct d. reflexivity.
Qed.

Lemma below_child (d : Path) (x : string) (rest : list string) :
  Spec.below (make_child_relpath d x) rest = Spec.below d (x :: rest).
Proof.
  unfold Spec.below, make_child_relpath. cbn [root parts].
  rewrite <- app_assoc. reflexivity.
Qed.
(** The walk of the directories followed by the match of the names finds
    the paths [listed] describes, when the system lists every directory
    of the walk. *)
Lemma wildcard_search (files : filesystem) (m : node) :
  forall parent,
    Spec.wf_node m = true -> is_dir_node m = true ->
    lookup files parent = Some m ->
    Spec.quiet_node files None parent m = true ->
    forall q,
      In q (flat_map (fun start =>
                        fst (Glob.select_from files [Glob.Wildcard "*.vrt"] start))
                     (Spec.directories parent m))
      <-> exists extra, q = Spec.below parent extra /\ Spec.listed m extra = true.
Proof.
  induction m as [|es IH] using node_induction; intros parent Hw Hd Hst Hq q;
    [discriminate Hd|].
  destruct (wf_dir es Hw) as [Hnd Hall].
  pose proof Hq as Hq'. cbn [Spec.quiet_node] in Hq'.
  apply andb_prop in Hq' as [Hq' Hsub]. apply andb_prop in Hq' as [Hscan _].
  apply no_fault_none in Hscan.
  assert (Hchild : forall x c,
             In (x, c) es -> is_dir_node c = true ->
             Spec.wf_node c = true /\
             lookup files (make_child_relpath parent x) = Some c /\
             Spec.quiet_node files None (make_child_relpath parent x) c = true).
  { intros x c He Ed. destruct (Hall (x, c) He) as [Hv Hwc]. cbn [fst snd] in Hv, Hwc.
    split; [exact Hwc|]. split.
    - rewrite (lookup_child files parent x Hv), Hst.
      apply lookup_entry_unique; assumption.
    - pose proof (proj1 (forallb_forall _ _) Hsub (x, c) He) as Hqe.
      cbv beta in Hqe. cbn [fst snd] in Hqe. rewrite Ed in Hqe. exact Hqe. }
  cbn [Spec.directories flat_map]. rewrite in_app_iff.
  rewrite (select_wildcard_listed files "*.vrt" parent es
             (scandir_answered files parent es Hscan Hst)).
  cbn [fst]. rewrite flat_map_flat_map. split.
  - intros [Hin|Hin].
    + apply in_flat_map in Hin as [[x c] [He Hin]]. cbn [fst] in Hin.
      destruct (Fnmatch.fnmatch x "*.vrt") eqn:Ef; [|contradiction].
      destruct Hin as [<-|[]]. exists [x]. split.
      * rewrite <- below_child, below_nil. reflexivity.
      * cbn [Spec.listed]. rewrite (lookup_entry_unique es Hnd x c He). exact Ef.
    + apply in_flat_map in Hin as [[x c] [He Hin]]. cbn [fst snd] in Hin.
      destruct (is_dir_node c) eqn:Ed; [|contradiction].
      destruct (Hchild x c He Ed) as [Hwc [Hlc Hqc]].
      apply (proj1 (Forall_forall _ _) IH (x, c) He _ Hwc Ed Hlc Hqc) in Hin.
      destruct Hin as [extra [-> Hl]]. exists (x :: extra).
      split; [apply below_child|].
      cbn [Spec.listed]. rewrite (lookup_entry_unique es Hnd x c He).
      destruct extra as [|y extra]; [discriminate Hl|].
      rewrite Ed. exact Hl.
  - intros [[|x rest] [-> Hl]]; [discriminate Hl|].
    cbn [Spec.listed] in Hl.
    destruct (lookup_entry x es) as [c|] eqn:El; [|discriminate].
    apply lookup_entry_in in El.
    destruct rest as [|y rest].
    + left. apply in_flat_map. exists (x, c). split; [exact El|].
      cbn [fst]. rewrite Hl. left.
      rewrite <- below_child, below_nil. reflexivity.
    + right. apply andb_prop in Hl as [Ed Hl].
      apply in_flat_map. exists (x, c). split; [exact El|].
      cbn [fst snd]. rewrite Ed.
      destruct (Hchild x c El Ed) as [Hwc [Hlc Hqc]].
      apply (proj1 (Forall_forall _ _) IH (x, c) El _ Hwc Ed Hlc Hqc).
      exists (y :: rest). split; [symmetry; apply below_child | exact Hl].
Qed.

(** ** The pattern [*.vrt] and the derived name *)

Lemma translate_vrt :
  Fnmatch.translate "*.vrt"
  = [Fnmatch.Star; Fnmatch.Lit "."; Fnmatch.Lit "v"; Fnmatch.Lit "r"; Fnmatch.Lit "t"].
Proof. reflexivity. Qed.

Lemma matches_star (rest : list Fnmatch.item) (s : list ascii) :
  Fnmatch.matches (Fnmatch.Star :: rest) s = true
  <-> exists a b, s = a ++ b /\ Fnmatch.matches rest b = true.
Proof.
  induction s as [|c s IH].
  - cbn [Fnmatch.matches]. rewrite orb_false_r. split.
    + intros H. exists [], []. split; [reflexivity | exact H].
    + intros [a [b [E H]]]. symmetry in E. apply app_eq_nil in E as [-> ->]. exact H.
  - change (Fnmatch.matches (Fnmatch.Star :: rest) (c :: s))
      with (Fnmatch.matches rest (c :: s)
            || Fnmatch.matches (Fnmatch.Star :: rest) s).
    rewrite orb_true_iff, IH. split.
    + intros [H|[a [b [-> H]]]].
      * exists [], (c :: s). split; [reflexivity | exact H].
      * exists (c :: a), b. split; [reflexivity | exact H].
    + intros [[|d a] [b [E H]]].
      * left. simpl in E. rewrite E. exact H.
      * right. injection E as -> ->. exists a, b. split; [reflexivity | exact H].
Qed.

Lemma matches_lit (c : ascii) (rest : list Fnmatch.item) (s : list ascii) :
  Fnmatch.matches (Fnmatch.Lit c :: rest) s = true
  <-> exists s', s = c :: s' /\ Fnmatch.matches rest s' = true.
Proof.
  destruct s as [|d s]; cbn [Fnmatch.matches Fnmatch.Lit].
  - split; [discriminate | intros [s' [E _]]; discriminate E].
  - unfold Fnmatch.in_set. cbn [existsb xorb]. rewrite !orb_false_r.
    rewrite andb_true_iff, Ascii.eqb_eq. split.
    + intros [-> H]. exists s. split; [reflexivity | exact H].
    + intros [s' [E H]]. injection E as -> ->. split; [reflexivity | exact H].
Qed.

Lemma string_of_list_ascii_app (a b : list ascii) :
  string_of_list_ascii (a ++ b)
  = (string_of_list_ascii a ++ string_of_list_ascii b)%string.
Proof.
  induction a as [|c a IH]; simpl; [reflexivity | rewrite IH; reflexivity].
Qed.

Lemma list_ascii_of_string_app (a b : string) :
  list_ascii_of_string (a ++ b) = list_ascii_of_string a ++ list_ascii_of_string b.
Proof.
  induction a as [|c a IH]; simpl; [reflexivity | rewrite IH; reflexivity].
Qed.

(** The listing pattern selects the names that end in [.vrt]. *)
Lemma fnmatch_vrt (name : string) :
  Fnmatch.fnmatch name "*.vrt" = true <-> exists s, name = (s ++ ".vrt")%string.
Proof.
  unfold Fnmatch.fnmatch. rewrite translate_vrt, matches_star. split.
  - intros [a [b [E H]]].
    apply matches_lit in H as [b1 [-> H]]. apply matches_lit in H as [b2 [-> H]].
    apply matches_lit in H as [b3 [-> H]]. apply matches_lit in H as [b4 [-> H]].
    destruct b4; [|discriminate H].
    exists (string_of_list_ascii a).
    rewrite <- (string_of_list_ascii_of_string name), E, string_of_list_ascii_app.
    reflexivity.
  - intros [s ->]. exists (list_ascii_of_string s), (list_ascii_of_string ".vrt").
    split; [apply list_ascii_of_string_app | reflexivity].
Qed.

Lemma rfind_app (c : ascii) (a b : string) :
  Str.rfind c (a ++ b)
  = match Str.rfind c b with
    | Some i => Some (String.length a + i)
    | None => Str.rfind c a
    end.
Proof.
  induction a as [|d a IH]; cbn [append Str.rfind String.length].
  - destruct (Str.rfind c b); reflexivity.
  - rewrite IH. destruct (Str.rfind c b); reflexivity.
Qed.

Lemma take_app (s t : string) : Str.take (String.length s) (s ++ t) = s.
Proof.
  unfold Str.take. induction s as [|c s IH]; cbn [append String.length substring].
  - destruct t; reflexivity.
  - rewrite IH. reflexivity.
Qed.

(** The derived name of a file [s.vrt] is [s], unless [s] is empty: the
    derived name of [.vrt] is [.vrt] itself. *)
Lemma stem_of_vrt (p : Path) (s : string) :
  Pathlib.name p = (s ++ ".vrt")%string ->
  stem p = if String.eqb s "" then ".vrt" else s.
Proof.
  intros Hn. unfold stem. rewrite Hn, rfind_app.
  change (Str.rfind "." ".vrt") with (Some 0).
  rewrite vrt_name_length, Nat.add_0_r.
  destruct s as [|c s]; [reflexivity|].
  cbn [String.eqb String.length].
  replace (Nat.ltb 0 (S (String.length s))) with true
    by (symmetry; apply Nat.ltb_lt; lia).
  replace (Nat.ltb (S (String.length s)) (S (String.length s) + 4 - 1)) with true
    by (symmetry; apply Nat.ltb_lt; lia).
  cbn [andb]. apply (take_app (String c s) ".vrt").
Qed.
(** X10: on a well-formed tree of files and directories, and when the
    system refuses nothing to the walk, the listing pattern yields, once
    each, the paths under the root directory that lead through
    directories to an entry (a file or a directory) whose name ends in
    [.vrt]; the listing has one entry for each of them and no other. *)
Theorem listing_is_exact (w : world) (m : node) :
  Spec.wf_node (tree (fs w)) = true ->
  Spec.quiet (fs w) None (DATA_DIR w) = true ->
  lookup (fs w) (DATA_DIR w) = Some m ->
  exists vrts,
    list_datasets w
    = ([], Ok (RetDict (VDict [("datasets",
                                VList (map (Spec.entry_of (DATA_DIR w))
                                           (sorted vrts stem)))]))) /\
    NoDup vrts /\
    (forall q, In q vrts
               <-> exists extra, q = Spec.below (DATA_DIR w) extra /\
                                 Spec.listed m extra = true) /\
    (forall name, Fnmatch.fnmatch name "*.vrt" = true
                  <-> exists s, name = (s ++ ".vrt")%string).
Proof.
  intros Hw Hq Hst.
  pose proof (listing_walk (fs w) (DATA_DIR w) Hw Hq) as Hg. rewrite Hst in Hg.
  eexists. split; [apply list_datasets_run, Hg|].
  split; [|split; [|apply fnmatch_vrt]].
  - destruct m as [|es]; [constructor | apply dedup_NoDup].
  - intros q. destruct m as [|es].
    + split; [intros []|]. intros [[|x rest] [_ H]]; discriminate H.
    + rewrite dedup_in.
      unfold Spec.quiet in Hq. rewrite Hst in Hq.
      apply andb_prop in Hq as [_ Hnode].
      rewrite (wildcard_search (fs w) (Dir es) (DATA_DIR w)
                 (wf_lookup _ _ _ Hw Hst) eq_refl Hst Hnode q).
      simpl. tauto.
Qed.

Lemma listing_is_exact_witness :
  exists vrts,
    NoDup vrts /\
    (In (Path_of "/data/sub/b.vrt") vrts
     <-> exists extra,
           Path_of "/data/sub/b.vrt"
           = Spec.below (DATA_DIR Fixtures.demo_world) extra /\
           Spec.listed (Dir [("a.vrt", File);
                             ("sub", Dir [("b.vrt", File); ("x.vrt", File)]);
                             ("broken.vrt", File)]) extra = true).
Proof.
  destruct (listing_is_exact Fixtures.demo_world _ demo_tree_wf eq_refl eq_refl)
    as [vrts [_ [Hnd [Hin _]]]].
  exists vrts. split; [exact Hnd | apply Hin].
Defined.

(** ** From the listing to the tile endpoints *)

Lemma valid_name_facts (x : string) :
  Spec.valid_name x = true ->
  String.eqb x "" = false /\ keep_component x = true /\
  Str.contains "/" x = false.
Proof.
  intros Hv. destruct (valid_name_cases x Hv) as [_ [N1 N0]].
  unfold Spec.valid_name in Hv. apply andb_prop in Hv as [_ Hs].
  apply negb_true_iff in Hs.
  unfold keep_component. rewrite N0, N1. auto.
Qed.

(** What [listed] selects exists in the tree, and its names are names of
    entries. *)
Lemma listed_facts (extra : list string) :
  forall m, Spec.wf_node m = true -> Spec.listed m extra = true ->
            extra <> [] /\ forallb Spec.valid_name extra = true /\
            node_at m extra <> None /\
            Fnmatch.fnmatch (last extra "") "*.vrt" = true.
Proof.
  induction extra as [|x rest IH]; intros m Hw Hl; [discriminate Hl|].
  cbn [Spec.listed] in Hl. destruct m as [|es]; [discriminate|].
  destruct (lookup_entry x es) as [c|] eqn:El; [|discriminate].
  pose proof (lookup_entry_in _ _ _ El) as Hin.
  destruct (proj2 (wf_dir es Hw) _ Hin) as [Hv Hwc]. cbn [fst snd] in Hv, Hwc.
  split; [discriminate|]. cbn [forallb node_at]. rewrite Hv, El.
  destruct rest as [|y rest].
  - repeat split; [discriminate | exact Hl].
  - apply andb_prop in Hl as [_ Hl].
    destruct (IH c Hwc Hl) as [_ [H1 [H2 H3]]].
    repeat split; assumption.
Qed.

Lemma lookup_below (files : filesystem) (extra : list string) :
  forall d m c,
    lookup files d = Some m ->
    forallb Spec.valid_name extra = true ->
    node_at m extra = Some c ->
    lookup files (Spec.below d extra) = Some c.
Proof.
  induction extra as [|x rest IH]; intros d m c Hst Hv Hn.
  - rewrite below_nil. simpl in Hn. congruence.
  - cbn [forallb] in Hv. apply andb_prop in Hv as [Hx Hv].
    cbn [node_at] in Hn. destruct m as [|es]; [discriminate|].
    destruct (lookup_entry x es) as [c1|] eqn:El; [|discriminate].
    rewrite <- below_child. apply (IH _ c1); [|exact Hv | exact Hn].
    rewrite (lookup_child files d x Hx), Hst. exact El.
Qed.

Lemma split_join (extra : list string) :
  extra <> [] ->
  forallb Spec.valid_name extra = true ->
  Str.split "/" (Str.join "/" extra) = extra.
Proof.
  induction extra as [|x rest IH]; [congruence|]. intros _ Hv.
  cbn [forallb] in Hv. apply andb_prop in Hv as [Hx Hv].
  destruct (valid_name_facts x Hx) as [_ [_ Hs]].
  destruct rest as [|y rest].
  - apply split_without_separator, Hs.
  - change (Str.join "/" (x :: y :: rest))
      with (x ++ String "/" (Str.join "/" (y :: rest)))%string.
    rewrite (split_at_separator "/" x _ Hs), IH; [reflexivity | discriminate | exact Hv].
Qed.

Lemma join_starts (x : string) (rest : list string) :
  Spec.valid_name x = true ->
  exists c tail, Str.join "/" (x :: rest) = String c tail /\ c <> "/"%char.
Proof.
  intros Hx. destruct (valid_name_facts x Hx) as [Hne [_ Hs]].
  destruct x as [|c x]; [discriminate Hne|].
  cbn [Str.contains] in Hs. apply orb_false_elim in Hs as [Hc _].
  assert (Nc : c <> "/"%char).
  { intros ->. rewrite Ascii.eqb_refl in Hc. discriminate Hc. }
  destruct rest as [|y rest].
  - exists c, x. split; [reflexivity | exact Nc].
  - eexists c, _. split; [reflexivity | exact Nc].
Qed.

(** The text of a relative path of entry names reads back as that path. *)
Lemma Path_of_join (extra : list string) :
  extra <> [] ->
  forallb Spec.valid_name extra = true ->
  Path_of (Str.join "/" extra) = mkPath "" extra /\
  String.eqb (Str.join "/" extra) "" = false /\
  Str.startswith (Str.join "/" extra) "/" = false.
Proof.
  intros Hne Hv. pose proof (split_join extra Hne Hv) as Hsplit.
  destruct extra as [|x rest]; [congruence|].
  pose proof Hv as Hv'. cbn [forallb] in Hv'. apply andb_prop in Hv' as [Hx _].
  destruct (join_starts x rest Hx) as [c [tail [Ej Nc]]].
  assert (Hstart : Str.startswith (Str.join "/" (x :: rest)) "/" = false).
  { unfold Str.startswith. rewrite Ej. cbn [String.prefix].
    destruct (ascii_dec "/" c) as [E|_]; [congruence | reflexivity]. }
  assert (Hnonempty : String.eqb (Str.join "/" (x :: rest)) "" = false)
    by (rewrite Ej; reflexivity).
  split; [|split; assumption].
  unfold Path_of, splitroot. rewrite Hnonempty, Hstart, Hsplit.
  f_equal. apply forallb_filter_id.
  apply forallb_forall. intros y Hy.
  apply (proj1 (forallb_forall _ _) Hv) in Hy.
  apply (valid_name_facts y Hy).
Qed.

Lemma relative_to_below (d : Path) (extra : list string) :
  relative_to (Spec.below d extra) d = Some (mkPath "" extra).
Proof.
  unfold relative_to, Spec.below. cbn [root parts].
  destruct (String.eqb_spec (root d) "") as [Er|_].
  - destruct (parts d) as [|a ps] eqn:Ep; [rewrite Er; reflexivity|].
    rewrite <- Ep, drop_prefix_app. reflexivity.
  - simpl. rewrite String.eqb_refl, drop_prefix_app. reflexivity.
Qed.

Lemma in_sorted {A} (key : A -> string) (l : list A) (a : A) :
  In a (sorted l key) -> In a l.
Proof.
  apply Permutation_in, Permutation_sym, sorted_perm.
Qed.
Lemma directories_below (m : node) :
  forall parent q,
    Spec.wf_node m = true -> In q (Spec.directories parent m) ->
    exists extra, q = Spec.below parent extra /\
                  forallb Spec.valid_name extra = true.
Proof.
  induction m as [|es IH] using node_induction; intros parent q Hw Hin.
  - destruct Hin as [<-|[]]. exists []. split; [symmetry; apply below_nil | reflexivity].
  - cbn [Spec.directories] in Hin. destruct Hin as [<-|Hin].
    + exists []. split; [symmetry; apply below_nil | reflexivity].
    + apply in_flat_map in Hin as [e [He Hq]].
      destruct (is_dir_node (snd e)); [|contradiction].
      destruct (proj2 (wf_dir es Hw) e He) as [Hv Hwc].
      destruct (proj1 (Forall_forall _ _) IH e He _ _ Hwc Hq) as [extra [-> Hx]].
      exists (fst e :: extra). split; [apply below_child|].
      cbn [forallb]. rewrite Hv. exact Hx.
Qed.

Lemma below_below (d : Path) (a b : list string) :
  Spec.below (Spec.below d a) b = Spec.below d (a ++ b).
Proof.
  unfold Spec.below. cbn [root parts]. rewrite app_assoc. reflexivity.
Qed.

Lemma scandir_lookup (files : filesystem) (p : Path) (es : list (string * node)) :
  scandir files p = Ok es -> lookup files p = Some (Dir es).
Proof.
  unfold scandir. destruct (fault files Scandir (Path_str p)); [discriminate|].
  destruct (lookup files p) as [[|es']|]; try discriminate. congruence.
Qed.

Lemma scandir_names_valid (files : filesystem) (start : Path)
  (es : list (string * node)) (e : string * node) :
  Spec.wf_node (tree files) = true ->
  scandir files start = Ok es -> In e es ->
  Spec.valid_name (fst e) = true.
Proof.
  intros Hw Hs He. apply scandir_lookup in Hs.
  exact (proj1 (proj2 (wf_dir es (wf_lookup _ _ _ Hw Hs)) e He)).
Qed.

Lemma valid_vrt_name (n : string) :
  Str.contains "/" n = false -> Spec.valid_name (n ++ ".vrt") = true.
Proof.
  intros Hn. unfold Spec.valid_name.
  rewrite !vrt_name_differs by (simpl; lia).
  rewrite contains_append, Hn. reflexivity.
Qed.

Lemma next_yields (g : Glob.stream) (p : Path) :
  Glob.next g = Ok (Some p) -> In p (fst g).
Proof.
  destruct g as [[|q l] [e|]]; simpl; try discriminate;
    intros E; injection E as ->; left; reflexivity.
Qed.

Lemma select_wildcard_yields (files : filesystem) (pat : string) (start p : Path) :
  In p (fst (Glob.select_from files [Glob.Wildcard pat] start)) ->
  exists es e, scandir files start = Ok es /\ In e es /\
               Fnmatch.fnmatch (fst e) pat = true /\
               p = make_child_relpath start (fst e).
Proof.
  rewrite select_wildcard, except_PermissionError_yields.
  destruct (scandir files start) as [es|e0]; [|contradiction].
  intros Hin. apply for_each_yields in Hin as [e [He Hp]].
  destruct (Fnmatch.fnmatch (fst e) pat) eqn:Ef; [|contradiction].
  destruct Hp as [<-|[]]. exists es, e. auto.
Qed.

(** What the recursive selector yields, its successor yields from the
    directory or from a path made of the directory and names of
    entries. *)
Lemma recursive_starts (files : filesystem) (rest : list Glob.selector)
  (d p : Path) :
  Spec.wf_node (tree files) = true ->
  In p (fst (Glob.select_from files (Glob.Recursive :: rest) d)) ->
  exists dirs, forallb Spec.valid_name dirs = true /\
               In p (fst (Glob.select_from files rest (Spec.below d dirs))).
Proof.
  intros Hw Hin. rewrite select_recursive, except_PermissionError_yields in Hin.
  cbn [fst] in Hin.
  apply dedup_subset, iterate_directories_yields in Hin
    as [start [Hp [->|[n [Hl Hs]]]]].
  - exists []. rewrite below_nil. auto.
  - destruct (directories_below n d start (wf_lookup _ _ _ Hw Hl) Hs)
      as [dirs [-> Hv]].
    exists dirs. auto.
Qed.

(** What the listing pattern yields is the root directory followed by
    names of entries. *)
Lemma listing_below (files : filesystem) (d p : Path) :
  Spec.wf_node (tree files) = true ->
  In p (fst (Glob.glob files d "**/*.vrt")) ->
  exists extra, extra <> [] /\ forallb Spec.valid_name extra = true /\
                p = Spec.below d extra.
Proof.
  intros Hw Hin. rewrite glob_all_vrt in Hin.
  destruct (is_dir files d) as [[|]|e]; try contradiction.
  apply (recursive_starts files _ d p Hw) in Hin as [dirs [Hv Hin]].
  apply select_wildcard_yields in Hin as [es [e [Hsc [He [_ ->]]]]].
  exists (dirs ++ [fst e]). split; [|split].
  - intros E. apply app_eq_nil in E as [_ E]. discriminate E.
  - rewrite forallb_app, Hv. cbn [forallb].
    rewrite (scandir_names_valid _ _ _ _ Hw Hsc He). reflexivity.
  - rewrite <- below_below, <- below_child, below_nil. reflexivity.
Qed.

(** The listing returned: the walk has ended without an exception. *)
Lemma listing_returned (w : world) (entries : list value) :
  list_datasets w = ([], Ok (RetDict (VDict [("datasets", VList entries)]))) ->
  exists vrts,
    Glob.glob (fs w) (DATA_DIR w) "**/*.vrt" = (vrts, None) /\
    entries = map (Spec.entry_of (DATA_DIR w)) (sorted vrts stem).
Proof.
  intros Hl.
  destruct (Glob.glob (fs w) (DATA_DIR w) "**/*.vrt") as [vrts [e|]] eqn:Hg.
  - rewrite (list_datasets_fails w vrts e Hg) in Hl. discriminate Hl.
  - exists vrts. split; [reflexivity|].
    rewrite (list_datasets_run w vrts Hg) in Hl. congruence.
Qed.

(** X11: on a well-formed tree, the ["path"] of every entry of the listing,
    given as [url] to the path-based tile handler, is read back as the
    listed path: the handler does not answer 400, and when its existence
    test finds the file, it opens that file and its answer is the one of
    the raster library. *)
Theorem listed_path_is_served (w : world) (entries : list value) (e : value) :
  Spec.wf_node (tree (fs w)) = true ->
  list_datasets w = ([], Ok (RetDict (VDict [("datasets", VList entries)]))) ->
  In e entries ->
  exists url vrt,
    field "path" e = Some (VStr url) /\
    field "name" e = Some (VStr (stem vrt)) /\
    Spec.extends (DATA_DIR w) vrt /\
    url <> "" /\
    Spec.url_path w url = vrt /\
    (Path_exists (fs w) vrt = Ok true ->
     forall z x y format,
       get_tile_by_url w z x y format url
       = (Spec.tile_calls (rio w) (Path_str vrt) z x y format,
          Ok (RetResponse
                (Spec.tile_response
                   (Spec.render_attempt (rio w) (Path_str vrt) z x y format)
                   format)))).
Proof.
  intros Hw Hl Hin.
  destruct (listing_returned w entries Hl) as [vrts [Hg ->]].
  apply in_map_iff in Hin as [vrt [<- Hin]]. apply in_sorted in Hin.
  assert (Hy : In vrt (fst (Glob.glob (fs w) (DATA_DIR w) "**/*.vrt")))
    by (rewrite Hg; exact Hin).
  destruct (listing_below (fs w) (DATA_DIR w) vrt Hw Hy) as [extra [Hne [Hv ->]]].
  destruct (Path_of_join extra Hne Hv) as [Hpath [Hnonempty Hrel]].
  assert (Hstr : Path_str (mkPath "" extra) = Str.join "/" extra).
  { unfold Path_str. cbn [root parts append]. rewrite Hnonempty. reflexivity. }
  assert (Hurl : Spec.url_path w (Str.join "/" extra)
                 = Spec.below (DATA_DIR w) extra).
  { unfold Spec.url_path. rewrite Hrel, Hpath. reflexivity. }
  assert (Hnot : Str.join "/" extra <> "").
  { intros E. rewrite E in Hnonempty. discriminate Hnonempty. }
  exists (Str.join "/" extra), (Spec.below (DATA_DIR w) extra).
  split; [|split; [reflexivity|split; [|split; [exact Hnot|split; [exact Hurl|]]]]].
  - unfold Spec.entry_of. rewrite relative_to_below, Hstr. reflexivity.
  - split; [reflexivity|]. exists extra. reflexivity.
  - intros Hex z x y format. rewrite <- Hurl.
    apply get_tile_by_url_found; [exact Hnot|].
    rewrite Hurl. exact Hex.
Qed.

Lemma listed_path_is_served_witness :
  exists url vrt,
    field "path" (VDict [("name", VStr "b"); ("path", VStr "sub/b.vrt")])
    = Some (VStr url) /\
    Spec.url_path Fixtures.demo_world url = vrt /\
    (Path_exists (fs Fixtures.demo_world) vrt = Ok true ->
     get_tile_by_url Fixtures.demo_world 3 1 2 "png" url
     = (Spec.tile_calls (rio Fixtures.demo_world) (Path_str vrt) 3 1 2 "png",
        Ok (RetResponse
              (Spec.tile_response
                 (Spec.render_attempt (rio Fixtures.demo_world) (Path_str vrt)
                    3 1 2 "png") "png")))).
Proof.
  destruct (listed_path_is_served Fixtures.demo_world _
              (VDict [("name", VStr "b"); ("path", VStr "sub/b.vrt")])
              demo_tree_wf eq_refl (or_intror (or_introl eq_refl)))
    as [url [vrt [Hp [_ [_ [_ [Hu Hrun]]]]]]].
  exists url, vrt. split; [exact Hp|]. split; [exact Hu|].
  intros Hex. apply Hrun, Hex.
Defined.

Lemma last_cons2 {A} (x y : A) (l : list A) (d : A) :
  last (x :: y :: l) d = last (y :: l) d.
Proof. reflexivity. Qed.

(** A listed path is found by the search for its file name. *)
Lemma listed_is_found (extra : list string) :
  forall m q, Spec.listed m extra = true ->
              exists p, In p (Spec.search_named (last extra "") q m).
Proof.
  induction extra as [|x rest IH]; intros m q Hl; [discriminate Hl|].
  cbn [Spec.listed] in Hl. destruct m as [|es]; [discriminate|].
  destruct (lookup_entry x es) as [c|] eqn:El; [|discriminate].
  destruct rest as [|y rest].
  - exists (make_child_relpath q x). cbn [last Spec.search_named].
    pose proof (lookup_entry_found x es) as Hf. rewrite El in Hf.
    rewrite <- Hf. left. reflexivity.
  - apply andb_prop in Hl as [Ed Hl].
    destruct (IH c (make_child_relpath q x) Hl) as [p Hp].
    exists p. rewrite last_cons2. cbn [Spec.search_named].
    apply in_or_app. right. apply in_flat_map.
    exists (x, c). split; [eapply lookup_entry_in, El|].
    cbn [fst snd]. rewrite Ed. exact Hp.
Qed.

Lemma metadata_status (w : world) (dataset tile_format : string) (p : Path) :
  Spec.resolves_to w dataset p ->
  In (http_status (dataset_info w dataset)) [200; 500]%Z /\
  In (http_status (dataset_bounds w dataset)) [200; 500]%Z /\
  In (http_status (tilejson w dataset tile_format)) [200; 500]%Z.
Proof.
  intros Hres. pose proof (find_vrt_resolved w dataset p Hres) as Hf.
  destruct Hres as [_ Hex].
  unfold dataset_info, dataset_bounds, tilejson.
  rewrite !name_handler_run, Hf. cbn [snd]. rewrite Hex.
  unfold with_Reader, Run.info, bind, ret, http_status.
  destruct (Reader_open (rio w) (Path_str p)) as [src|e];
    [|simpl; auto].
  destruct (Reader_info (rio w) src) as [i|e]; [|simpl; auto].
  destruct (bounds i) as [[[b0 b1] b2] b3]. cbn [snd].
  split; [|split]; destruct (jsonable _); simpl; auto.
Qed.

Lemma quiet_node_weaken (files : filesystem) (t : string) (m : node) :
  forall parent,
    Spec.quiet_node files (Some t) parent m = true ->
    Spec.quiet_node files None parent m = true.
Proof.
  induction m as [|es IH] using node_induction; intros parent H; [reflexivity|].
  cbn [Spec.quiet_node] in H |- *.
  apply andb_prop in H as [H Hsub]. apply andb_prop in H as [Hscan _].
  rewrite Hscan. cbn [andb]. apply forallb_forall. intros e He.
  pose proof (proj1 (forallb_forall _ _) Hsub e He) as Hq. cbv beta in Hq.
  destruct (is_dir_node (snd e)); [|reflexivity].
  cbn [negb orb] in Hq |- *.
  exact (proj1 (Forall_forall _ _) IH e He _ Hq).
Qed.

Lemma quiet_weaken (files : filesystem) (t : string) (d : Path) :
  Spec.quiet files (Some t) d = true -> Spec.quiet files None d = true.
Proof.
  unfold Spec.quiet. intros H.
  apply andb_prop in H as [H Hnode]. apply andb_prop in H as [Hstat _].
  rewrite Hstat. cbn [andb].
  destruct (lookup files d) as [m|]; [|reflexivity].
  apply (quiet_node_weaken files t m d Hnode).
Qed.

(** X12: on a well-formed tree of files and directories, a dataset the
    listing names is served by the name-based handlers, when its name has
    none of [*], [?], [[] and is not [.vrt] (the derived name of a file
    called [.vrt], which they look for as [.vrt.vrt]), when the existence
    test finds the listed entry, and when the system refuses nothing to
    the search for the file name: the name resolves to an existing file
    of that name under the root, and no handler answers 404. *)
Theorem listed_name_resolves (w : world) (entries : list value) (e : value) :
  Spec.wf_node (tree (fs w)) = true ->
  list_datasets w = ([], Ok (RetDict (VDict [("datasets", VList entries)]))) ->
  In e entries ->
  Spec.plain_name (Spec.entry_name e) = true ->
  Spec.entry_name e <> ".vrt" ->
  (forall url, field "path" e = Some (VStr url) ->
               Path_exists (fs w) (Spec.url_path w url) = Ok true) ->
  Spec.quiet (fs w) (Some (Spec.entry_name e ++ ".vrt")%string) (DATA_DIR w) = true ->
  exists p,
    Spec.resolves_to w (Spec.entry_name e) p /\
    Pathlib.name p = (Spec.entry_name e ++ ".vrt")%string /\
    Spec.extends (DATA_DIR w) p /\
    forall tile_format format z x y,
      In (http_status (dataset_info w (Spec.entry_name e))) [200; 500]%Z /\
      In (http_status (dataset_bounds w (Spec.entry_name e))) [200; 500]%Z /\
      In (http_status (tilejson w (Spec.entry_name e) tile_format)) [200; 500]%Z /\
      In (http_status (get_tile w (Spec.entry_name e) z x y format))
         [200; 204; 500]%Z.
Proof.
  intros Hw Hl Hin Hplain Hnot _ Hq.
  destruct (listing_returned w entries Hl) as [vrts [Hg ->]].
  apply in_map_iff in Hin as [vrt [<- Hin]]. apply in_sorted in Hin.
  rewrite entry_name_of in *.
  (* the listed path, in the tree *)
  pose proof (quiet_weaken _ _ _ Hq) as Hq0.
  pose proof (listing_walk (fs w) (DATA_DIR w) Hw Hq0) as Hwalk.
  rewrite Hg in Hwalk.
  destruct (lookup (fs w) (DATA_DIR w)) as [[|es]|] eqn:Hst;
    try (injection Hwalk as ->; contradiction).
  injection Hwalk as ->. apply dedup_in in Hin as [Hin _].
  pose proof (wf_lookup _ _ _ Hw Hst) as Hwm.
  assert (Hnode0 : Spec.quiet_node (fs w) None (DATA_DIR w) (Dir es) = true).
  { unfold Spec.quiet in Hq0. rewrite Hst in Hq0.
    apply andb_prop in Hq0 as [_ H]. exact H. }
  apply (wildcard_search (fs w) (Dir es) (DATA_DIR w) Hwm eq_refl Hst Hnode0) in Hin
    as [extra [-> Hlisted]].
  destruct (listed_facts extra (Dir es) Hwm Hlisted) as [Hne [_ [_ Hmatch]]].
  (* the file name is the derived name followed by .vrt *)
  assert (Hname : Pathlib.name (Spec.below (DATA_DIR w) extra) = last extra "").
  { unfold Pathlib.name, Spec.below. cbn [parts].
    destruct (exists_last Hne) as [front [x ->]].
    rewrite app_assoc, !last_last. reflexivity. }
  apply fnmatch_vrt in Hmatch as [s Hs].
  assert (Hstem : stem (Spec.below (DATA_DIR w) extra) = s).
  { pose proof (stem_of_vrt (Spec.below (DATA_DIR w) extra) s) as H.
    rewrite Hname, Hs in H. specialize (H eq_refl).
    destruct (String.eqb_spec s "") as [->|_]; [|exact H].
    rewrite H in Hnot. contradiction. }
  rewrite Hstem in *.
  (* the search of the handlers finds a file of that name *)
  destruct (find_vrt_plain_name w s Hw Hplain Hq) as [Hf Hm].
  assert (Hsome : Spec.resolve w s <> None).
  { unfold Spec.resolve.
    destruct (Spec.on_disk (fs w) (joinpath (DATA_DIR w) (s ++ ".vrt")));
      [discriminate|].
    rewrite Hst.
    destruct (listed_is_found extra (Dir es) (DATA_DIR w) Hlisted) as [p Hp].
    rewrite Hs in Hp.
    destruct (Spec.search_named (s ++ ".vrt") (DATA_DIR w) (Dir es));
      [contradiction | discriminate]. }
  destruct (Spec.resolve w s) as [p|] eqn:Hr; [|congruence].
  assert (Hres : Spec.resolves_to w s p).
  { split; [rewrite Hf; reflexivity|].
    rewrite missing_run in Hm.
    destruct (Path_exists (fs w) p) as [[|]|e0]; [reflexivity| |]; discriminate Hm. }
  assert (Hslash : Str.contains "/" s = false).
  { unfold Spec.plain_name in Hplain. apply andb_prop in Hplain as [_ H].
    apply negb_true_iff in H. exact H. }
  assert (Hp : Pathlib.name p = (s ++ ".vrt")%string /\ Spec.extends (DATA_DIR w) p).
  { unfold Spec.resolve in Hr.
    destruct (Spec.on_disk (fs w) (joinpath (DATA_DIR w) (s ++ ".vrt"))).
    - injection Hr as <-. unfold joinpath.
      rewrite (Path_of_vrt_name s Hslash). cbn [root parts String.eqb].
      split; [apply (name_of_child (DATA_DIR w)) | apply (extends_child (DATA_DIR w))].
    - rewrite Hst in Hr.
      destruct (Spec.search_named (s ++ ".vrt") (DATA_DIR w) (Dir es))
        as [|p0 rest] eqn:Es; [discriminate|].
      injection Hr as ->.
      apply (search_named_is_named (s ++ ".vrt") (Dir es) (DATA_DIR w) p).
      rewrite Es. left. reflexivity. }
  exists p. split; [exact Hres|]. split; [exact (proj1 Hp)|].
  split; [exact (proj2 Hp)|].
  intros tile_format format z x y.
  destruct (metadata_status w s tile_format p Hres) as [H1 [H2 H3]].
  repeat split; try assumption.
  rewrite (get_tile_resolved w s z x y format p Hres).
  apply tile_response_status.
Qed.

Lemma listed_name_resolves_witness :
  exists p,
    Spec.resolves_to Fixtures.demo_world "b" p /\
    Pathlib.name p = "b.vrt" /\
    In (http_status (get_tile Fixtures.demo_world "b" 3 1 2 "png")) [200; 204; 500]%Z.
Proof.
  destruct (listed_name_resolves Fixtures.demo_world _
              (VDict [("name", VStr "b"); ("path", VStr "sub/b.vrt")])
              demo_tree_wf eq_refl (or_intror (or_introl eq_refl)) eq_refl)
    as [p [Hres [Hname [_ Hstatus]]]].
  - discriminate.
  - intros url E. injection E as <-. reflexivity.
  - reflexivity.
  - exists p. split; [exact Hres|]. split; [exact Hname|].
    apply (Hstatus "png" "png" 3%Z 1%Z 2%Z).
Defined.

(** ** The name-based handlers stay under the root directory *)

(** Whatever the pattern characters in the name, the fallback search
    yields paths made of the root directory and names of entries. *)
Lemma glob_name_below (files : filesystem) (d : Path) (n : string) (p : Path) :
  Spec.wf_node (tree files) = true ->
  Str.contains "/" n = false ->
  In p (fst (Glob.glob files d ("**/" ++ n ++ ".vrt"))) ->
  exists extra, extra <> [] /\ forallb Spec.valid_name extra = true /\
                p = Spec.below d extra.
Proof.
  intros Hw Hn Hin. unfold Glob.glob in Hin.
  rewrite (Path_of_pattern_no_slash n Hn), pattern_last_char in Hin.
  replace (String.eqb ("**/" ++ n ++ ".vrt") "") with false in Hin by reflexivity.
  cbn [root parts String.eqb negb Ascii.eqb Bool.eqb app] in Hin.
  cbn [Glob.make_selector String.eqb Ascii.eqb Bool.eqb] in Hin.
  rewrite !vrt_name_differs in Hin by (simpl; lia).
  destruct (Str.has_substring "**" (n ++ ".vrt")); [contradiction|].
  assert (Hsnoc : forall dirs x,
             forallb Spec.valid_name dirs = true -> Spec.valid_name x = true ->
             exists extra, extra <> [] /\ forallb Spec.valid_name extra = true /\
                           make_child_relpath (Spec.below d dirs) x
                           = Spec.below d extra).
  { intros dirs x Hv Hx. exists (dirs ++ [x]). split; [|split].
    - intros E. apply app_eq_nil in E as [_ E]. discriminate E.
    - rewrite forallb_app, Hv. cbn [forallb]. rewrite Hx. reflexivity.
    - rewrite <- below_below, <- below_child, below_nil. reflexivity. }
  destruct (Glob.is_wildcard_pattern (n ++ ".vrt"));
    destruct (is_dir files d) as [[|]|e]; try contradiction;
    apply (recursive_starts files _ d p Hw) in Hin as [dirs [Hv Hin]].
  - apply select_wildcard_yields in Hin as [es [e [Hsc [He [_ ->]]]]].
    apply Hsnoc; [exact Hv|].
    apply (scandir_names_valid _ _ _ _ Hw Hsc He).
  - apply select_precise_yields in Hin as [-> _].
    apply Hsnoc; [exact Hv | apply valid_vrt_name, Hn].
Qed.

(** X13: on a well-formed tree, a dataset name without [/] never makes the
    name-based handlers build a path that leaves the root directory:
    whatever pattern characters the name holds, the path it resolves to
    is the root directory followed by names of entries, none of which is
    [..]. *)
Theorem name_stays_under_root (w : world) (dataset : string) (p : Path) :
  Spec.wf_node (tree (fs w)) = true ->
  Str.contains "/" dataset = false ->
  Spec.resolves_to w dataset p ->
  exists extra,
    p = Spec.below (DATA_DIR w) extra /\
    extra <> [] /\
    forallb Spec.valid_name extra = true /\
    ~ In ".." extra /\
    Spec.extends (DATA_DIR w) p.
Proof.
  intros Hw Hn [Hf _].
  assert (Hbelow : exists extra, extra <> [] /\
                                 forallb Spec.valid_name extra = true /\
                                 p = Spec.below (DATA_DIR w) extra).
  { unfold find_vrt in Hf. rewrite bind_lift in Hf.
    destruct (Path_exists (fs w) (joinpath (DATA_DIR w) (dataset ++ ".vrt")))
      as [[|]|e]; cbn [negb snd lift ret] in Hf.
    - injection Hf as <-. exists [(dataset ++ ".vrt")%string].
      split; [discriminate|]. split.
      + cbn [forallb]. rewrite (valid_vrt_name dataset Hn). reflexivity.
      + unfold joinpath. rewrite (Path_of_vrt_name dataset Hn). reflexivity.
    - apply next_yields in Hf.
      apply (glob_name_below (fs w) (DATA_DIR w) dataset p Hw Hn Hf).
    - discriminate Hf. }
  destruct Hbelow as [extra [Hne [Hv ->]]]. exists extra.
  split; [reflexivity|]. split; [exact Hne|]. split; [exact Hv|]. split.
  - intros Hin. apply (proj1 (forallb_forall _ _) Hv) in Hin. discriminate Hin.
  - split; [reflexivity|]. exists extra. reflexivity.
Qed.

Lemma name_stays_under_root_witness :
  exists extra,
    Path_of "/data/a.vrt" = Spec.below (DATA_DIR Fixtures.demo_world) extra /\
    extra <> [] /\
    forallb Spec.valid_name extra = true /\
    ~ In ".." extra /\
    Spec.extends (DATA_DIR Fixtures.demo_world) (Path_of "/data/a.vrt").
Proof.
  exact (name_stays_under_root Fixtures.demo_world "*" (Path_of "/data/a.vrt")
           demo_tree_wf eq_refl (conj eq_refl eq_refl)).
Defined.

(** ** Format tokens served alike *)

Lemma tile_run_by_encoding (lib : Library) (input : string) (z x y : Z)
  (f f' : string) :
  Spec.encoding f = Spec.encoding f' ->
  Spec.tile_calls lib input z x y f = Spec.tile_calls lib input z x y f' /\
  Spec.tile_response (Spec.render_attempt lib input z x y f) f
  = Spec.tile_response (Spec.render_attempt lib input z x y f') f'.
Proof.
  intros E. unfold Spec.tile_calls, Spec.render_attempt, Spec.tile_response,
    Spec.image_response. rewrite E. split; reflexivity.
Qed.

(** X14: the two tile handlers do not tell [jpg] from [jpeg], nor an unknown
    format token from [png]: for every request, the library calls, the
    response and the failures are the same. *)
Theorem format_tokens_served_alike
  (w : world) (dataset url : string) (z x y : Z) (format : string) :
  (get_tile w dataset z x y "jpg" = get_tile w dataset z x y "jpeg" /\
   get_tile_by_url w z x y "jpg" url = get_tile_by_url w z x y "jpeg" url) /\
  (format <> "jpg" -> format <> "jpeg" -> format <> "webp" ->
   get_tile w dataset z x y format = get_tile w dataset z x y "png" /\
   get_tile_by_url w z x y format url = get_tile_by_url w z x y "png" url).
Proof.
  assert (H : forall f f', Spec.encoding f = Spec.encoding f' ->
              get_tile w dataset z x y f = get_tile w dataset z x y f' /\
              get_tile_by_url w z x y f url = get_tile_by_url w z x y f' url).
  { intros f f' E. rewrite !get_tile_run, !get_tile_by_url_run. split.
    - destruct (snd (find_vrt w dataset)) as [[p|]|e]; try reflexivity.
      destruct (tile_run_by_encoding (rio w) (Path_str p) z x y f f' E) as [-> ->].
      reflexivity.
    - destruct (tile_run_by_encoding (rio w) (Path_str (Spec.url_path w url))
                  z x y f f' E) as [-> ->].
      reflexivity. }
  split; [apply H; reflexivity|].
  intros N1 N2 N3. apply H.
  destruct (encoding_cases format)
    as [[-> E]|[[[E|E] _]|[[E _]|[_ [_ [_ E]]]]]]; try congruence;
    try reflexivity.
  rewrite E. reflexivity.
Qed.

Lemma format_tokens_served_alike_witness :
  get_tile Fixtures.demo_world "a" 3 1 2 "bmp"
  = get_tile Fixtures.demo_world "a" 3 1 2 "png".
Proof.
  refine (proj1 (proj2 (format_tokens_served_alike Fixtures.demo_world "a" ""
                          3 1 2 "bmp") _ _ _)); discriminate.
Defined.
(** ** Directories the process may not read *)





